(** * LicenseView: the metric derivation, configuration loading and JSON
    report of the Zerto licensing report tool, embedded from the Python
    sources [zerto/data.py], [zerto/config.py] and [zerto/output.py].

    Python values are modelled as the interpreter has them: [int] is an
    unbounded integer ([Z]), [float] is an IEEE 754 binary64 number (the
    bit-level specification [spec_float] of the Standard Library, with
    round-to-nearest-even), [str] is a [string], a [dict] with string keys
    is a [gmap string _], and a raised exception is the [Raise] case of
    the result type. *)

From Stdlib Require Import ZArith Lia Bool List String Ascii.
From Stdlib Require Import SpecFloat.
From stdpp Require Import gmap strings pretty.

Local Open Scope Z_scope.

(** ** Exceptions and results *)

Inductive exn : Type :=
  | ZeroDivisionError
  | OverflowError
  | ValueError (msg : string)
  | TypeError
  | AttributeError
  | IndexError
  | FileNotFoundError (msg : string).

Inductive result (A : Type) : Type :=
  | Ok (a : A)
  | Raise (e : exn).
Arguments Ok {A} a.
Arguments Raise {A} e.

(** Sequencing stops at the first exception, like statements in a block. *)
#[global] Instance result_ret : MRet result := fun A a => Ok a.
#[global] Instance result_bind : MBind result := fun A B k r =>
  match r with
  | Ok a => k a
  | Raise e => Raise e
  end.

(** ** Python floats: IEEE 754 binary64 *)

Module F64.

Definition prec : Z := 53.
Definition emax : Z := 1024.

Definition float : Type := spec_float.

(** A float object always holds a canonical binary64 value. *)
Definition valid (x : float) : Prop := valid_binary prec emax x = true.

Definition add : float -> float -> float := SFadd prec emax.
Definition mul : float -> float -> float := SFmul prec emax.
Definition div : float -> float -> float := SFdiv prec emax.
Definition ltb : float -> float -> bool := SFltb.
Definition leb : float -> float -> bool := SFleb.

(** The double nearest to the rational [(-1)^s * n / d] (ties to even);
    the infinity of that sign when the rounded value is out of range. *)
Definition round_ratio (s : bool) (n d : positive) : float :=
  let '(q, e, l) := SFdiv_core_binary prec emax (Zpos n) 0 (Zpos d) 0 in
  binary_round_aux prec emax s q e l.

(** A decimal literal [n / d], as the parser reads it. *)
Definition lit (n d : positive) : float := round_ratio false n d.

Definition zero : float := S754_zero false.
Definition one : float := lit 1 1.

(** [float(z)]: the nearest double, or [OverflowError]. *)
Definition of_int (z : Z) : result float :=
  match binary_normalize prec emax z 0 false with
  | S754_infinity _ => Raise OverflowError
  | x => Ok x
  end.

(** [a / b] on two [int]s: the correctly rounded quotient. *)
Definition truediv (a b : Z) : result float :=
  match b with
  | Z0 => Raise ZeroDivisionError
  | _ =>
      let s := xorb (a <? 0) (b <? 0) in
      match a with
      | Z0 => Ok (S754_zero s)
      | _ =>
          match round_ratio s (Z.to_pos (Z.abs a)) (Z.to_pos (Z.abs b)) with
          | S754_infinity _ => Raise OverflowError
          | x => Ok x
          end
      end
  end.

(** The integer nearest to [n / d] for [0 <= n] and [0 < d], ties to the
    even one. *)
Definition div_half_even (n d : Z) : Z :=
  let q := n / d in
  let r := n mod d in
  match Z.compare (2 * r) d with
  | Lt => q
  | Gt => q + 1
  | Eq => if Z.even q then q else q + 1
  end.

(** [|x| * 10^ndigits] rounded to an integer (ties to even) on the exact
    binary value of a finite [x]: the digits of the correctly rounded
    decimal string. *)
Definition scaled_digits (ndigits : Z) (m : positive) (e : Z) : Z :=
  let p := 10 ^ ndigits in
  if 0 <=? e then Zpos m * 2 ^ e * p
  else div_half_even (Zpos m * p) (2 ^ (- e)).

(** [round(x, 2)]: the decimal string with two places, read back. *)
Definition round2 (x : float) : float :=
  match x with
  | S754_finite s m e =>
      match scaled_digits 2 m e with
      | Zpos k => round_ratio s k 100
      | _ => S754_zero s
      end
  | _ => x
  end.

(** [int(x)]: truncation toward zero. *)
Definition to_int (x : float) : result Z :=
  match x with
  | S754_zero _ => Ok 0
  | S754_nan => Raise (ValueError "cannot convert float NaN to integer")
  | S754_infinity _ => Raise OverflowError
  | S754_finite s m e =>
      let a := if 0 <=? e then Zpos m * 2 ^ e else Zpos m / 2 ^ (- e) in
      Ok (if s then - a else a)
  end.

(** [math.floor(x)]. *)
Definition floor (x : float) : result Z :=
  match x with
  | S754_zero _ => Ok 0
  | S754_nan => Raise (ValueError "cannot convert float NaN to integer")
  | S754_infinity _ => Raise OverflowError
  | S754_finite s m e =>
      Ok (if 0 <=? e then (if s then - (Zpos m * 2 ^ e) else Zpos m * 2 ^ e)
          else (if s then - ((Zpos m + 2 ^ (- e) - 1) / 2 ^ (- e))
                else Zpos m / 2 ^ (- e)))
  end.

(** [-x]. *)
Definition neg (x : float) : float := SFopp x.

(** [min(a, b)] on two floats: the builtin keeps the first argument
    unless the second compares below it. *)
Definition min (a b : float) : float := if ltb b a then b else a.

(** [format(x, ".1f")]. *)
Definition format_1f (x : float) : string :=
  match x with
  | S754_nan => "nan"
  | S754_infinity s => if s then "-inf" else "inf"
  | S754_zero s => if s then "-0.0" else "0.0"
  | S754_finite s m e =>
      let k := scaled_digits 1 m e in
      (if s then "-" else "") ++ pretty (k / 10) ++ "." ++ pretty (k mod 10)
  end%string.

End F64.

(** [min(a, b)] on two [int]s. *)
Definition int_min (a b : Z) : Z := if b <? a then b else a.

(** Arithmetic between a [float] and an [int]: the [int] operand is first
    converted with [float(z)]. *)
Definition float_div_int (x : F64.float) (z : Z) : result F64.float :=
  y ← F64.of_int z;
  match y with
  | S754_zero _ => Raise ZeroDivisionError
  | _ => Ok (F64.div x y)
  end.

Definition float_mul_int (x : F64.float) (z : Z) : result F64.float :=
  y ← F64.of_int z; Ok (F64.mul x y).

Definition float_add_int (x : F64.float) (z : Z) : result F64.float :=
  y ← F64.of_int z; Ok (F64.add x y).

(** ** The calendar of [datetime]

    A date is its proleptic Gregorian ordinal (day 1 is 0001-01-01), the
    representation on which [datetime] does its arithmetic. *)

Module Calendar.

Definition max_ordinal : Z := 3652059.   (* 9999-12-31 *)

Definition is_leap (year : Z) : bool :=
  (year mod 4 =? 0) && (negb (year mod 100 =? 0) || (year mod 400 =? 0)).

Definition days_in_month (leap : bool) (month : Z) : Z :=
  match month with
  | 2 => if leap then 29 else 28
  | 4 | 6 | 9 | 11 => 30
  | _ => 31
  end.

Definition days_before_month (leap : bool) (month : Z) : Z :=
  match month with
  | 1 => 0 | 2 => 31 | 3 => 59 | 4 => 90 | 5 => 120 | 6 => 151
  | 7 => 181 | 8 => 212 | 9 => 243 | 10 => 273 | 11 => 304 | _ => 334
  end + (if (2 <? month) && leap then 1 else 0).

Definition days_before_year (year : Z) : Z :=
  let y := year - 1 in y * 365 + y / 4 - y / 100 + y / 400.

Definition ymd2ord (year month day : Z) : Z :=
  days_before_year year + days_before_month (is_leap year) month + day.

Definition ord2ymd (ordinal : Z) : Z * Z * Z :=
  let n := ordinal - 1 in
  let n400 := n / 146097 in
  let n := n mod 146097 in
  let n100 := n / 36524 in
  let n := n mod 36524 in
  let n4 := n / 1461 in
  let n := n mod 1461 in
  let n1 := n / 365 in
  let n := n mod 365 in
  let year := n400 * 400 + 1 + n100 * 100 + n4 * 4 + n1 in
  if (n1 =? 4) || (n100 =? 4) then (year - 1, 12, 31)
  else
    let leapyear := (n1 =? 3) && (negb (n4 =? 24) || (n100 =? 3)) in
    let month := Z.shiftr (n + 50) 5 in
    let preceding := days_before_month leapyear month in
    if n <? preceding then
      (year, month - 1,
       n - (preceding - days_in_month leapyear (month - 1)) + 1)
    else (year, month, n - preceding + 1).

(** [d + timedelta(days=k)]. *)
Definition add_days (ordinal k : Z) : result Z :=
  let o := ordinal + k in
  if (1 <=? o) && (o <=? max_ordinal) then Ok o else Raise OverflowError.

Definition pad (width : nat) (z : Z) : string :=
  let s := pretty z in
  String.concat "" (repeat "0"%string (width - String.length s)) ++ s.

(** [d.strftime("%Y-%m-%d")], for years of four digits. *)
Definition strftime_ymd (ordinal : Z) : string :=
  let '(y, m, d) := ord2ymd ordinal in
  (pad 4 y ++ "-" ++ pad 2 m ++ "-" ++ pad 2 d)%string.

End Calendar.

(** ** zerto/data.py *)

Definition calculate_utilization_pct (protected_vms entitled_vms : Z)
  : result F64.float :=
  if entitled_vms <=? 0 then Ok F64.zero
  else
    q ← F64.truediv protected_vms entitled_vms;
    p ← float_mul_int q 100;
    Ok (F64.round2 p).

Definition expiry_score (days_to_expiry : Z) : Z :=
  if days_to_expiry <=? 30 then 50
  else if days_to_expiry <=? 90 then 30
  else if days_to_expiry <=? 365 then 15
  else 5.

Definition calculate_risk_score (utilization_pct : F64.float)
    (days_to_expiry : Z) : result Z :=
  q ← float_div_int utilization_pct 100;
  util_score ← float_mul_int (F64.min q F64.one) 50;
  s ← float_add_int util_score (expiry_score days_to_expiry);
  score ← F64.to_int s;
  Ok (int_min score 100).

(** An alert is a dictionary with the three keys below. *)
Record alert : Type := Alert {
  severity : string;
  message : string;
  recommendation : string
}.

Definition default_thresholds : gmap string F64.float :=
  {[ "utilization_warn"%string := F64.lit 80 100;
     "utilization_crit"%string := F64.lit 95 100 ]}.

Definition utilization_alerts (utilization_pct crit_threshold warn_threshold
    : F64.float) : list alert :=
  if F64.leb crit_threshold utilization_pct then
    [ Alert "critical"
        ("Utilization critical (" ++ F64.format_1f utilization_pct ++ "%)")
        "Immediate action required: Review licensing tier and add capacity" ]
  else if F64.leb warn_threshold utilization_pct then
    [ Alert "warning"
        ("Utilization high (" ++ F64.format_1f utilization_pct ++ "%)")
        "Audit and right-size your protected infrastructure" ]
  else [].

(** [str(z)] on an [int], as a replacement field [{z}] of an f-string
    formats it. CPython refuses to convert an [int] of more than
    [sys.get_int_max_str_digits()] decimal digits, 4300 unless it is
    configured otherwise. *)
Definition int_max_str_digits : Z := 4300.

Definition int_limit_error : exn :=
  ValueError
    ("Exceeds the limit (4300 digits) for integer string conversion; "
     ++ "use sys.set_int_max_str_digits() to increase the limit").

Definition int_str (z : Z) : result string :=
  if 10 ^ int_max_str_digits <=? Z.abs z then Raise int_limit_error
  else Ok (pretty z).

Definition expiry_alerts (days_to_expiry : Z) : result (list alert) :=
  if days_to_expiry <=? 30 then
    days ← int_str days_to_expiry;
    Ok [ Alert "warning"
           ("License expiring soon (" ++ days ++ " days)")
           "License renewal action required" ]
  else if days_to_expiry <=? 90 then
    days ← int_str days_to_expiry;
    Ok [ Alert "info"
           ("License expiration reminder (" ++ days ++ " days)")
           "Plan license renewal" ]
  else Ok [].

Definition generate_alerts (utilization_pct : F64.float) (days_to_expiry : Z)
    (alert_thresholds : option (gmap string F64.float))
  : result (list alert) :=
  let alert_thresholds := default default_thresholds alert_thresholds in
  crit_threshold ←
    float_mul_int
      (default (F64.lit 95 100) (alert_thresholds !! "utilization_crit"%string))
      100;
  warn_threshold ←
    float_mul_int
      (default (F64.lit 80 100) (alert_thresholds !! "utilization_warn"%string))
      100;
  let alerts :=
    utilization_alerts utilization_pct crit_threshold warn_threshold in
  expiry ← expiry_alerts days_to_expiry;
  Ok (alerts ++ expiry).

(** [l[0]] and [l[-1]]. *)
Definition list_first (l : list Z) : result Z :=
  match l with
  | [] => Raise IndexError
  | x :: _ => Ok x
  end.

Definition list_last (l : list Z) : result Z :=
  match l with
  | [] => Raise IndexError
  | x :: l' => Ok (List.last l' x)
  end.

(** [today] is the date of [datetime.now()]. *)
Definition forecast_runout_date (today : Z) (history : gmap string (list Z))
    (entitled_vms : Z) : result string :=
  let insufficient :=
    bool_decide (history = ∅)
    || match history !! "days_7"%string with
       | None => true
       | Some l => Z.of_nat (length l) <? 3
       end in
  if insufficient then Ok "N/A"%string
  else
    let trend := default [] (history !! "days_7"%string) in
    if Z.of_nat (length trend) <? 2 then Ok "N/A"%string
    else
      t_last ← list_last trend;
      t_first ← list_first trend;
      let delta := t_last - t_first in
      if delta =? 0 then Ok "Stable"%string
      else if delta <? 0 then Ok "Stable (decreasing)"%string
      else
        rate ← F64.truediv delta 7;
        if F64.leb rate F64.zero then Ok "N/A"%string
        else
          forecast_date ← Calendar.add_days today 90;
          Ok (Calendar.strftime_ymd forecast_date).

(** ** Values read from YAML and written to JSON *)

#[local] Unset Elimination Schemes.
Inductive pyval : Type :=
  | PNone
  | PBool (b : bool)
  | PInt (z : Z)
  | PFloat (x : F64.float)
  | PStr (s : string)
  | PList (l : list pyval)
  | PDict (d : list (pyval * pyval)).
#[local] Set Elimination Schemes.

(** [bool(v)]. *)
Definition truthy (v : pyval) : bool :=
  match v with
  | PNone => false
  | PBool b => b
  | PInt z => negb (z =? 0)
  | PFloat (S754_zero _) => false
  | PFloat _ => true
  | PStr s => negb (String.eqb s "")
  | PList l => match l with [] => false | _ => true end
  | PDict d => match d with [] => false | _ => true end
  end.

(** [v == s] for a string [s]: only an equal string compares equal. *)
Definition eq_str (s : string) (v : pyval) : bool :=
  match v with
  | PStr t => String.eqb t s
  | _ => false
  end.

(** [d.get(key)] on the items of a dictionary, for a string key. *)
Fixpoint dict_lookup (key : string) (d : list (pyval * pyval)) : option pyval :=
  match d with
  | [] => None
  | (k, v) :: d' => if eq_str key k then Some v else dict_lookup key d'
  end.

Fixpoint is_prefix (p s : string) : bool :=
  match p, s with
  | EmptyString, _ => true
  | String a p', String b s' => Ascii.eqb a b && is_prefix p' s'
  | String _ _, EmptyString => false
  end.

Fixpoint is_substring (p s : string) : bool :=
  is_prefix p s
  || match s with
     | EmptyString => false
     | String _ s' => is_substring p s'
     end.

(** [key in v] for a string key. *)
Definition contains (key : string) (v : pyval) : result bool :=
  match v with
  | PDict d => Ok (bool_decide (is_Some (dict_lookup key d)))
  | PList l => Ok (existsb (eq_str key) l)
  | PStr s => Ok (is_substring key s)
  | _ => Raise TypeError
  end.

(** [v.get(key, dflt)]: only a dictionary has the method. *)
Definition py_get (v : pyval) (key : string) (dflt : pyval) : result pyval :=
  match v with
  | PDict d => Ok (default dflt (dict_lookup key d))
  | _ => Raise AttributeError
  end.

(** [key in v] followed by [v[key]] when it holds: a dictionary gives the
    item; a list or a string that holds the key has no item of that name. *)
Definition item_if_present (key : string) (v : pyval) : result (option pyval) :=
  match v with
  | PDict d => Ok (dict_lookup key d)
  | PList l => if existsb (eq_str key) l then Raise TypeError else Ok None
  | PStr s => if is_substring key s then Raise TypeError else Ok None
  | _ => Raise TypeError
  end.

(** The items that [for x in v] visits: those of a list, the keys of a
    dictionary, the characters of a string. *)
Definition py_iter (v : pyval) : result (list pyval) :=
  match v with
  | PList l => Ok l
  | PDict d => Ok (map fst d)
  | PStr s =>
      Ok (map (fun c => PStr (String c EmptyString)) (list_ascii_of_string s))
  | _ => Raise TypeError
  end.

(** [format(v, "")], as a replacement field of an f-string formats a
    value; [py_str] is [str] on floats, lists and dictionaries. *)
Definition fstr (py_str : pyval -> string) (v : pyval) : string :=
  match v with
  | PStr s => s
  | PInt z => pretty z
  | PNone => "None"
  | PBool b => if b then "True" else "False"
  | _ => py_str v
  end.

(** A dictionary literal with string keys. *)
Definition py_dict (items : list (string * pyval)) : pyval :=
  PDict (map (fun kv => (PStr (fst kv), snd kv)) items).

(** ** zerto/data.py: the metrics dictionary *)

(** The dictionary of an alert. *)
Definition alert_dict (a : alert) : pyval :=
  py_dict
    [ ("severity", PStr (severity a));
      ("message", PStr (message a));
      ("recommendation", PStr (recommendation a)) ]%string.

(** [today] is the date and [now] the ISO text of the two calls of
    [datetime.now()]. *)
Definition derive_metrics (today : Z) (now : string)
    (entitled_vms protected_vms days_to_expiry : Z)
    (history : option (gmap string (list Z)))
    (alert_thresholds : option (gmap string F64.float)) : result pyval :=
  let history := default ∅ history in
  utilization_pct ← calculate_utilization_pct protected_vms entitled_vms;
  risk_score ← calculate_risk_score utilization_pct days_to_expiry;
  alerts ← generate_alerts utilization_pct days_to_expiry alert_thresholds;
  forecast_date ← forecast_runout_date today history entitled_vms;
  Ok (py_dict
        [ ("timestamp", PStr (now ++ "Z"));
          ("utilization_pct", PFloat utilization_pct);
          ("risk_score", PInt risk_score);
          ("forecast_runout_date", PStr forecast_date);
          ("days_to_expiry", PInt days_to_expiry);
          ("alerts", PList (map alert_dict alerts)) ]%string).

(** ** zerto/config.py *)

Module ConfigLoader.

(** The text up to the first closing brace, and the text after it. *)
Fixpoint until_brace (s : string) : option (string * string) :=
  match s with
  | EmptyString => None
  | String c s' =>
      if Ascii.eqb c "}" then Some (EmptyString, s')
      else
        match until_brace s' with
        | Some (name, rest) => Some (String c name, rest)
        | None => None
        end
  end.

(** One match of the pattern [\$\{([^}]+)\}] at the start of [s]: group 1
    and the text after the match. *)
Definition match_at (s : string) : option (string * string) :=
  match s with
  | String "$" (String "{" s') =>
      match until_brace s' with
      | Some (String c name, rest) => Some (String c name, rest)
      | _ => None
      end
  | _ => None
  end.

(** [re.sub(pattern, repl, s)]: the leftmost matches, one after the
    other, are replaced; the text between them is kept. *)
Fixpoint sub_from (fuel : nat) (repl : string -> string) (s : string)
  : string :=
  match fuel with
  | O => s
  | S fuel' =>
      match match_at s with
      | Some (name, rest) => repl name ++ sub_from fuel' repl rest
      | None =>
          match s with
          | EmptyString => EmptyString
          | String c s' => String c (sub_from fuel' repl s')
          end
      end
  end.

Definition re_sub (repl : string -> string) (s : string) : string :=
  sub_from (String.length s) repl s.

Definition replace_var (environ : gmap string string) (var_name : string)
  : string :=
  match environ !! var_name with
  | None => "${" ++ var_name ++ "}"
  | Some value => value
  end.

Definition _expand_env_vars (environ : gmap string string)
    (content : string) : string :=
  re_sub (replace_var environ) content.

Section Load.

(** [yaml.safe_load]: the parsed document, or the text [str(e)] of the
    [YAMLError] it raises. *)
Variable safe_load : string -> pyval + string.
(** [str(v)], as an f-string formats a value. *)
Variable py_str : pyval -> string.

Definition required_fields : list string :=
  ["zvm_url"; "auth"; "verify_tls"; "output_dir"]%string.

Fixpoint check_fields (fields : list string) (config : pyval)
  : result unit :=
  match fields with
  | [] => Ok tt
  | field :: fields' =>
      present ← contains field config;
      if negb present
      then Raise (ValueError ("Missing required config field: " ++ field))
      else check_fields fields' config
  end.

Definition _validate (config : pyval) : result unit :=
  if negb (truthy config) then Raise (ValueError "Configuration is empty")
  else
    _ ← check_fields required_fields config;
    auth ← py_get config "auth" (PDict []);
    auth_version ← py_get auth "version" PNone;
    if negb (eq_str "10.x" auth_version || eq_str "pre-10" auth_version)
    then Raise (ValueError ("Invalid auth.version: " ++ py_str auth_version))
    else Ok tt.

(** [files] maps the paths that exist to their text. *)
Definition load (files : gmap string string)
    (environ : gmap string string) (config_path : string)
  : result pyval :=
  match files !! config_path with
  | None =>
      Raise (FileNotFoundError ("Config file not found: " ++ config_path))
  | Some content =>
      let content := _expand_env_vars environ content in
      match safe_load content with
      | inr e => Raise (ValueError ("Failed to parse config: " ++ e))
      | inl config =>
          _ ← _validate config;
          Ok config
      end
  end.

Definition load_config (files : gmap string string)
    (environ : gmap string string) (config_path : string)
  : result pyval :=
  load files environ config_path.

End Load.

(** [s.split(sep)] for a separator of one character. *)
Fixpoint str_split (sep : ascii) (s : string) : list string :=
  match s with
  | EmptyString => [EmptyString]
  | String c s' =>
      if Ascii.eqb c sep then EmptyString :: str_split sep s'
      else
        match str_split sep s' with
        | word :: words => String c word :: words
        | [] => [String c EmptyString]
        end
  end.

(** The loop of [get] over the keys of the path. *)
Fixpoint get_loop (keys : list string) (value dflt : pyval) : pyval :=
  match keys with
  | [] => value
  | k :: keys' =>
      match value with
      | PDict d =>
          match default PNone (dict_lookup k d) with
          | PNone => dflt
          | value' => get_loop keys' value' dflt
          end
      | _ => dflt
      end
  end.

Definition get (config : pyval) (key : string) (dflt : pyval) : pyval :=
  if negb (truthy config) then dflt
  else get_loop (str_split "." key) config dflt.

End ConfigLoader.

(** ** zerto/output.py *)

Module ReportGenerator.

Section Json.

(** [json.dumps(v, indent=2)], the text [json.dump] writes. *)
Variable json_dumps : pyval -> string.
(** [str(dir / name)]. *)
Variable joinpath : string -> string -> string.

Definition str_dict (items : list (string * pyval)) : pyval :=
  PDict (map (fun kv => (PStr (fst kv), snd kv)) items).

(** The dictionary that [generate_json] serializes; [now] is
    [datetime.now().isoformat()]. *)
Definition report (now : string)
    (license_data consumption_data metrics history : pyval)
    (tls_verified : bool) (zerto_version tool_version : string) : pyval :=
  str_dict
    [ ("meta",
        str_dict
          [ ("generated_at", PStr (now ++ "Z"));
            ("zvm_url", PStr "[REDACTED]");
            ("zerto_version", PStr zerto_version);
            ("tool_version", PStr tool_version);
            ("tls_verified", PBool tls_verified) ]);
      ("license", license_data);
      ("consumption", consumption_data);
      ("metrics", metrics);
      ("history", history) ]%string.

(** The file system maps a path to the text of the file; the method
    returns the new file system and the path of the report. *)
Definition generate_json (output_dir : string) (now : string)
    (files : gmap string string)
    (license_data consumption_data metrics history : pyval)
    (tls_verified : bool) (zerto_version tool_version : string)
  : gmap string string * string :=
  let output_file := joinpath output_dir "licensing_utilization.json" in
  let report :=
    report now license_data consumption_data metrics history
      tls_verified zerto_version tool_version in
  (<[output_file := json_dumps report]> files, output_file).

End Json.

(** The double quote and the line feed. *)
Definition dq : string := String "034"%char EmptyString.
Definition nl : string := String "010"%char EmptyString.

Section Render.

(** [str(v)] for a float, a list or a dictionary. *)
Variable py_str : pyval -> string.
(** [s.capitalize()]. *)
Variable capitalize : string -> string.
(** The text that [csv.writer(f).writerows(rows)] writes. *)
Variable csv_text : list (list pyval) -> string.
(** [str(dir / name)]. *)
Variable joinpath : string -> string -> string.

(** [format(v, ".1f")]. *)
Definition format_1f (v : pyval) : result string :=
  match v with
  | PFloat x => Ok (F64.format_1f x)
  | PInt z => x ← F64.of_int z; Ok (F64.format_1f x)
  | PBool b => Ok (if b then "1.0" else "0.0")
  | PStr _ =>
      Raise (ValueError "Unknown format code 'f' for object of type 'str'")
  | _ => Raise TypeError
  end.

(** The lookup of the severity in the dictionary of badge classes: a list
    or a dictionary is not hashable. *)
Definition badge_class (severity : pyval) : result string :=
  match severity with
  | PList _ | PDict _ => Raise TypeError
  | PStr s =>
      Ok (if String.eqb s "critical" then "danger"
          else if String.eqb s "warning" then "warning"
          else if String.eqb s "info" then "info"
          else "secondary")
  | _ => Ok "secondary"
  end%string.

(** [severity.capitalize()]: a method of strings. *)
Definition py_capitalize (severity : pyval) : result string :=
  match severity with
  | PStr s => Ok (capitalize s)
  | _ => Raise AttributeError
  end.

(** The f-string of one alert, its replacement fields already formatted. *)
Definition alert_block (badge_class severity message recommendation : string) : string :=
  (nl
   ++ "            <div class=" ++ dq ++ "alert alert-"
   ++ badge_class
   ++ dq ++ " role=" ++ dq ++ "alert" ++ dq ++ ">" ++ nl
   ++ "                <strong>"
   ++ severity
   ++ ":</strong> "
   ++ message
   ++ "<br>" ++ nl
   ++ "                <small>"
   ++ recommendation
   ++ "</small>" ++ nl
   ++ "            </div>" ++ nl
   ++ "            ")%string.

(** The body of the loop of [_render_alerts]. *)
Definition render_alert (alert : pyval) : result string :=
  severity ← py_get alert "severity" (PStr "info");
  message ← py_get alert "message" (PStr "");
  recommendation ← py_get alert "recommendation" (PStr "");
  badge ← badge_class severity;
  cap ← py_capitalize severity;
  Ok (alert_block badge cap (fstr py_str message) (fstr py_str recommendation)).

Fixpoint render_loop (html : string) (alerts : list pyval) : result string :=
  match alerts with
  | [] => Ok html
  | alert :: alerts' =>
      block ← render_alert alert;
      render_loop (html ++ block)%string alerts'
  end.

Definition _render_alerts (alerts : pyval) : result string :=
  if negb (truthy alerts) then Ok "<p class='text-success'>No alerts</p>"%string
  else
    items ← py_iter alerts;
    render_loop "" items.

(** The f-string of the page, its replacement fields already formatted. *)
Definition html_page (timestamp zerto_version tool_version tls entitled_vms protected_vms utilization_pct risk_score alerts key expiration_date days_to_expiry : string) : string :=
  ("<!DOCTYPE html>" ++ nl
   ++ "<html lang=" ++ dq ++ "en" ++ dq ++ ">" ++ nl
   ++ "<head>" ++ nl
   ++ "    <meta charset=" ++ dq ++ "UTF-8" ++ dq ++ ">" ++ nl
   ++ "    <meta name=" ++ dq ++ "viewport" ++ dq ++ " content=" ++ dq ++ "width=device-width, initial-scale=1.0" ++ dq ++ ">" ++ nl
   ++ "    <title>Zerto Licensing Utilization Report</title>" ++ nl
   ++ "    <link href=" ++ dq ++ "https://cdn.jsdelivr.net/npm/bootstrap@5.1.3/dist/css/bootstrap.min.css" ++ dq ++ " rel=" ++ dq ++ "stylesheet" ++ dq ++ ">" ++ nl
   ++ "    <script src=" ++ dq ++ "https://cdn.jsdelivr.net/npm/chart.js@3.7.0/dist/chart.min.js" ++ dq ++ "></script>" ++ nl
   ++ "    <style>" ++ nl
   ++ "        body { font-family: -apple-system, BlinkMacSystemFont, 'Segoe UI', Roboto, sans-serif; }" ++ nl
   ++ "        .card-title { color: #666; font-size: 0.9rem; font-weight: 600; }" ++ nl
   ++ "        .card h2 { color: #2c3e50; margin: 0; }" ++ nl
   ++ "        @media print {" ++ nl
   ++ "            .no-print { display: none; }" ++ nl
   ++ "            body { font-size: 12pt; }" ++ nl
   ++ "        }" ++ nl
   ++ "    </style>" ++ nl
   ++ "</head>" ++ nl
   ++ "<body>" ++ nl
   ++ "    <div class=" ++ dq ++ "container-fluid p-4" ++ dq ++ ">" ++ nl
   ++ "        <div class=" ++ dq ++ "row mb-4" ++ dq ++ ">" ++ nl
   ++ "            <div class=" ++ dq ++ "col" ++ dq ++ ">" ++ nl
   ++ "                <h1 class=" ++ dq ++ "mb-2" ++ dq ++ ">Zerto Licensing Utilization Report</h1>" ++ nl
   ++ "                <p class=" ++ dq ++ "text-muted mb-1" ++ dq ++ ">Generated: "
   ++ timestamp
   ++ "</p>" ++ nl
   ++ "                <p class=" ++ dq ++ "text-muted mb-0" ++ dq ++ ">" ++ nl
   ++ "                    Zerto v"
   ++ zerto_version
   ++ " | Tool v"
   ++ tool_version
   ++ " | " ++ nl
   ++ "                    TLS: "
   ++ tls
   ++ nl
   ++ "                </p>" ++ nl
   ++ "            </div>" ++ nl
   ++ "        </div>" ++ nl
   ++ "        " ++ nl
   ++ "        <div class=" ++ dq ++ "row mb-4" ++ dq ++ ">" ++ nl
   ++ "            <div class=" ++ dq ++ "col-md-3" ++ dq ++ ">" ++ nl
   ++ "                <div class=" ++ dq ++ "card" ++ dq ++ ">" ++ nl
   ++ "                    <div class=" ++ dq ++ "card-body text-center" ++ dq ++ ">" ++ nl
   ++ "                        <div class=" ++ dq ++ "card-title" ++ dq ++ ">Entitled Protected VMs</div>" ++ nl
   ++ "                        <h2>"
   ++ entitled_vms
   ++ "</h2>" ++ nl
   ++ "                    </div>" ++ nl
   ++ "                </div>" ++ nl
   ++ "            </div>" ++ nl
   ++ "            <div class=" ++ dq ++ "col-md-3" ++ dq ++ ">" ++ nl
   ++ "                <div class=" ++ dq ++ "card" ++ dq ++ ">" ++ nl
   ++ "                    <div class=" ++ dq ++ "card-body text-center" ++ dq ++ ">" ++ nl
   ++ "                        <div class=" ++ dq ++ "card-title" ++ dq ++ ">Current Protected VMs</div>" ++ nl
   ++ "                        <h2>"
   ++ protected_vms
   ++ "</h2>" ++ nl
   ++ "                    </div>" ++ nl
   ++ "                </div>" ++ nl
   ++ "            </div>" ++ nl
   ++ "            <div class=" ++ dq ++ "col-md-3" ++ dq ++ ">" ++ nl
   ++ "                <div class=" ++ dq ++ "card" ++ dq ++ ">" ++ nl
   ++ "                    <div class=" ++ dq ++ "card-body text-center" ++ dq ++ ">" ++ nl
   ++ "                        <div class=" ++ dq ++ "card-title" ++ dq ++ ">Utilization</div>" ++ nl
   ++ "                        <h2>"
   ++ utilization_pct
   ++ "%</h2>" ++ nl
   ++ "                    </div>" ++ nl
   ++ "                </div>" ++ nl
   ++ "            </div>" ++ nl
   ++ "            <div class=" ++ dq ++ "col-md-3" ++ dq ++ ">" ++ nl
   ++ "                <div class=" ++ dq ++ "card" ++ dq ++ ">" ++ nl
   ++ "                    <div class=" ++ dq ++ "card-body text-center" ++ dq ++ ">" ++ nl
   ++ "                        <div class=" ++ dq ++ "card-title" ++ dq ++ ">Risk Score</div>" ++ nl
   ++ "                        <h2>"
   ++ risk_score
   ++ "</h2>" ++ nl
   ++ "                    </div>" ++ nl
   ++ "                </div>" ++ nl
   ++ "            </div>" ++ nl
   ++ "        </div>" ++ nl
   ++ "        " ++ nl
   ++ "        <div class=" ++ dq ++ "row mb-4" ++ dq ++ ">" ++ nl
   ++ "            <div class=" ++ dq ++ "col-md-6" ++ dq ++ ">" ++ nl
   ++ "                <div class=" ++ dq ++ "card" ++ dq ++ ">" ++ nl
   ++ "                    <div class=" ++ dq ++ "card-header" ++ dq ++ ">" ++ nl
   ++ "                        <h5 class=" ++ dq ++ "mb-0" ++ dq ++ ">Alerts & Recommendations</h5>" ++ nl
   ++ "                    </div>" ++ nl
   ++ "                    <div class=" ++ dq ++ "card-body" ++ dq ++ ">" ++ nl
   ++ "                        "
   ++ alerts
   ++ nl
   ++ "                    </div>" ++ nl
   ++ "                </div>" ++ nl
   ++ "            </div>" ++ nl
   ++ "            <div class=" ++ dq ++ "col-md-6" ++ dq ++ ">" ++ nl
   ++ "                <div class=" ++ dq ++ "card" ++ dq ++ ">" ++ nl
   ++ "                    <div class=" ++ dq ++ "card-header" ++ dq ++ ">" ++ nl
   ++ "                        <h5 class=" ++ dq ++ "mb-0" ++ dq ++ ">License Information</h5>" ++ nl
   ++ "                    </div>" ++ nl
   ++ "                    <div class=" ++ dq ++ "card-body" ++ dq ++ ">" ++ nl
   ++ "                        <p><strong>License Key:</strong> "
   ++ key
   ++ "</p>" ++ nl
   ++ "                        <p><strong>Expiration Date:</strong> "
   ++ expiration_date
   ++ "</p>" ++ nl
   ++ "                        <p><strong>Days to Expiry:</strong> "
   ++ days_to_expiry
   ++ "</p>" ++ nl
   ++ "                    </div>" ++ nl
   ++ "                </div>" ++ nl
   ++ "            </div>" ++ nl
   ++ "        </div>" ++ nl
   ++ "        " ++ nl
   ++ "        <hr>" ++ nl
   ++ "        <footer class=" ++ dq ++ "text-muted mt-4" ++ dq ++ ">" ++ nl
   ++ "            <small>Report generated on "
   ++ timestamp
   ++ "</small>" ++ nl
   ++ "        </footer>" ++ nl
   ++ "    </div>" ++ nl
   ++ "    <script src=" ++ dq ++ "https://cdn.jsdelivr.net/npm/bootstrap@5.1.3/dist/js/bootstrap.bundle.min.js" ++ dq ++ "></script>" ++ nl
   ++ "</body>" ++ nl
   ++ "</html>")%string.

(** [timestamp] is [datetime.now().strftime("%Y-%m-%d %H:%M:%S")]. *)
Definition generate_html (output_dir : string) (timestamp : string)
    (files : gmap string string)
    (license_data consumption_data metrics history : pyval)
    (tls_verified : bool) (zerto_version tool_version : string)
  : result (gmap string string * string) :=
  let output_file := joinpath output_dir "report.html" in
  entitled_vms ← py_get license_data "entitled_vms" (PInt 0);
  protected_vms ← py_get consumption_data "protected_vms" (PInt 0);
  utilization_pct ← py_get metrics "utilization_pct" (PInt 0);
  utilization_text ← format_1f utilization_pct;
  risk_score ← py_get metrics "risk_score" (PInt 0);
  alerts ← py_get metrics "alerts" (PList []);
  alerts_html ← _render_alerts alerts;
  key ← py_get license_data "key" (PStr "N/A");
  expiration_date ← py_get license_data "expiration_date" (PStr "N/A");
  days_to_expiry ← py_get license_data "days_to_expiry" (PInt 0);
  let html :=
    html_page timestamp zerto_version tool_version
      (if tls_verified then "✓ Verified" else "⚠ Disabled")
      (fstr py_str entitled_vms) (fstr py_str protected_vms) utilization_text
      (fstr py_str risk_score) alerts_html (fstr py_str key) (fstr py_str expiration_date)
      (fstr py_str days_to_expiry) in
  Ok (<[output_file := html]> files, output_file).

Definition csv_header : list pyval :=
  [ PStr "Site"; PStr "Protected VMs"; PStr "Entitled VMs";
    PStr "Utilization %"; PStr "Risk Score"; PStr "Timestamp" ]%string.

(** The row of one site. *)
Definition site_row (license_data : pyval) (timestamp : string) (site : pyval)
  : result (list pyval) :=
  name ← py_get site "name" (PStr "Unknown");
  protected_vms ← py_get site "protected_vms" (PInt 0);
  entitled_vms ← py_get license_data "entitled_vms" (PInt 0);
  Ok [name; protected_vms; entitled_vms; PInt 0; PInt 0; PStr timestamp].

Fixpoint site_rows (license_data : pyval) (timestamp : string)
    (sites : list pyval) : result (list (list pyval)) :=
  match sites with
  | [] => Ok []
  | site :: sites' =>
      row ← site_row license_data timestamp site;
      rows ← site_rows license_data timestamp sites';
      Ok (row :: rows)
  end.

Definition generate_csv (output_dir : string) (timestamp : string)
    (files : gmap string string)
    (license_data consumption_data metrics : pyval)
  : result (gmap string string * string) :=
  let output_file := joinpath output_dir "licensing_utilization.csv" in
  protected_vms ← py_get consumption_data "protected_vms" (PInt 0);
  entitled_vms ← py_get license_data "entitled_vms" (PInt 0);
  utilization_pct ← py_get metrics "utilization_pct" (PInt 0);
  risk_score ← py_get metrics "risk_score" (PInt 0);
  let rows :=
    [ csv_header;
      [ PStr "SUMMARY"; protected_vms; entitled_vms; utilization_pct;
        risk_score; PStr timestamp ] ] in
  sites ← item_if_present "sites" consumption_data;
  per_site ←
    match sites with
    | None => Ok []
    | Some sites =>
        items ← py_iter sites;
        site_rows license_data timestamp items
    end;
  Ok (<[output_file := csv_text (rows ++ per_site)]> files, output_file).

End Render.

End ReportGenerator.

(** ** zerto/models.py *)

Module VpgStatus.
Record t : Type := Build {
  healthy : Z;
  warning : Z;
  critical : Z
}.
End VpgStatus.

Module Site.
Record t : Type := Build {
  name : string;
  protected_vms : Z;
  vpgs : Z
}.

Definition utilization_pct (self : t) : F64.float := F64.zero.
End Site.

Module License.
Record t : Type := Build {
  key : string;
  entitled_vms : Z;
  expiration_date : string;
  days_to_expiry : Z
}.
End License.

Module Consumption.
Record t : Type := Build {
  protected_vms : Z;
  vpgs : Z;
  vpg_status : VpgStatus.t;
  journal_storage_gb : F64.float;
  sites : list Site.t
}.
End Consumption.

Module Metrics.
Record t : Type := Build {
  timestamp : string;
  utilization_pct : F64.float;
  risk_score : Z;
  forecast_runout_date : string;
  days_to_expiry : Z;
  alerts : list pyval
}.
End Metrics.

(** [dataclasses.asdict]: the fields of the instance by name, dataclasses
    and lists inside converted in turn. *)
Module asdict.

Definition vpg_status (v : VpgStatus.t) : pyval :=
  py_dict
    [ ("healthy", PInt (VpgStatus.healthy v));
      ("warning", PInt (VpgStatus.warning v));
      ("critical", PInt (VpgStatus.critical v)) ]%string.

Definition site (s : Site.t) : pyval :=
  py_dict
    [ ("name", PStr (Site.name s));
      ("protected_vms", PInt (Site.protected_vms s));
      ("vpgs", PInt (Site.vpgs s)) ]%string.

Definition license (l : License.t) : pyval :=
  py_dict
    [ ("key", PStr (License.key l));
      ("entitled_vms", PInt (License.entitled_vms l));
      ("expiration_date", PStr (License.expiration_date l));
      ("days_to_expiry", PInt (License.days_to_expiry l)) ]%string.

Definition consumption (c : Consumption.t) : pyval :=
  py_dict
    [ ("protected_vms", PInt (Consumption.protected_vms c));
      ("vpgs", PInt (Consumption.vpgs c));
      ("vpg_status", vpg_status (Consumption.vpg_status c));
      ("journal_storage_gb", PFloat (Consumption.journal_storage_gb c));
      ("sites", PList (map site (Consumption.sites c))) ]%string.

Definition metrics (m : Metrics.t) : pyval :=
  py_dict
    [ ("timestamp", PStr (Metrics.timestamp m));
      ("utilization_pct", PFloat (Metrics.utilization_pct m));
      ("risk_score", PInt (Metrics.risk_score m));
      ("forecast_runout_date", PStr (Metrics.forecast_runout_date m));
      ("days_to_expiry", PInt (Metrics.days_to_expiry m));
      ("alerts", PList (Metrics.alerts m)) ]%string.

End asdict.

Module ZertoData.
Record t : Type := Build {
  meta : pyval;
  license : License.t;
  consumption : Consumption.t;
  metrics : Metrics.t;
  history : pyval;
  api_health : pyval
}.

Definition to_dict (self : t) : pyval :=
  py_dict
    [ ("meta", meta self);
      ("license", asdict.license (license self));
      ("consumption", asdict.consumption (consumption self));
      ("metrics", asdict.metrics (metrics self));
      ("history", history self);
      ("api_health", api_health self) ]%string.
End ZertoData.

(** ** zerto/api.py *)

Module ZvmApi.

Definition get_license_info : License.t :=
  License.Build "XXXX-XXXX-XXXX-XXXX" 500 "2026-06-30" 180.

Definition get_consumption_info : Consumption.t :=
  Consumption.Build 412 97 (VpgStatus.Build 92 4 1) (F64.lit 123456 10)
    [ Site.Build "Primary-DC" 210 48; Site.Build "Secondary-DC" 202 49 ].

(** The dictionary comprehension: one empty list of samples for each
    period in turn, a later period of the same name replacing an earlier
    one; a period that cannot be formatted ends it with the exception. *)
Fixpoint history_of (history : gmap string (list Z)) (days : list Z)
  : result (gmap string (list Z)) :=
  match days with
  | [] => Ok history
  | day :: days' =>
      name ← int_str day;
      history_of (<[("days_" ++ name)%string := []]> history) days'
  end.

Definition get_historical_data (days : option (list Z))
  : result (gmap string (list Z)) :=
  let days := default [7; 30; 90] days in
  history_of ∅ days.

End ZvmApi.

(** ** zerto/auth.py

    [py_str] is [str] on floats, lists and dictionaries; [post] is
    [requests.post(url, data=payload, ...)] for the client-credentials
    grant and [requests.post(url, json=payload, ...)] for the legacy login,
    each followed by [raise_for_status()] and [json()]. *)

Module Auth.

(** What [authenticate] raises: a built-in exception or a plain
    [Exception] with its message. *)
Inductive error : Type :=
  | Builtin (e : exn)
  | Exception (msg : string).

Inductive outcome : Type :=
  | Token (token : pyval)
  | Fail (e : error).

(** What the request gives: the parsed body, a [RequestException] with
    its text, or another exception. *)
Inductive response : Type :=
  | Json (data : pyval)
  | RequestException (msg : string)
  | OtherException (e : exn).

Definition requests_post : Type := string -> pyval -> bool -> Z -> response.

(** A step that can raise a built-in exception, then the rest. *)
Definition try_ {A : Type} (r : result A) (k : A -> outcome) : outcome :=
  match r with
  | Ok a => k a
  | Raise e => Fail (Builtin e)
  end.

(** The lines of [authenticate] after the request: a [RequestException]
    is raised again as an [Exception], and the token is the field of the
    body, which must be there. *)
Definition token_of (field missing failed : string) (r : response)
  : outcome :=
  match r with
  | RequestException e => Fail (Exception (failed ++ e))
  | OtherException e => Fail (Builtin e)
  | Json data =>
      try_ (item_if_present field data) (fun token =>
        match token with
        | None => Fail (Builtin (ValueError missing))
        | Some token => Token token
        end)
  end.

Module Auth10x.

Definition authenticate (py_str : pyval -> string) (post : requests_post)
    (config : pyval) (verify_tls : bool) (timeout : Z) : outcome :=
  try_ (py_get config "auth" (PDict [])) (fun auth =>
  try_ (py_get auth "client_id" PNone) (fun client_id =>
  try_ (py_get config "auth" (PDict [])) (fun auth =>
  try_ (py_get auth "client_secret" PNone) (fun client_secret =>
  try_ (py_get config "zvm_url" PNone) (fun zvm_url =>
  if negb (truthy client_id) || negb (truthy client_secret) then
    Fail (Builtin
            (ValueError "Keycloak auth requires client_id and client_secret"))
  else
    let token_url :=
      (fstr py_str zvm_url
       ++ "/auth/realms/zerto/protocol/openid-connect/token")%string in
    let payload :=
      py_dict
        [ ("grant_type", PStr "client_credentials");
          ("client_id", client_id);
          ("client_secret", client_secret);
          ("scope", PStr "openid") ]%string in
    token_of "access_token" "No access token in response"
      "Keycloak auth failed: " (post token_url payload verify_tls timeout)))))).

End Auth10x.

Module AuthLegacy.

Definition authenticate (py_str : pyval -> string) (post : requests_post)
    (config : pyval) (verify_tls : bool) (timeout : Z) : outcome :=
  try_ (py_get config "auth" (PDict [])) (fun auth =>
  try_ (py_get auth "username" PNone) (fun username =>
  try_ (py_get config "auth" (PDict [])) (fun auth =>
  try_ (py_get auth "password" PNone) (fun password =>
  try_ (py_get config "zvm_url" PNone) (fun zvm_url =>
  if negb (truthy username) || negb (truthy password) then
    Fail (Builtin (ValueError "Legacy auth requires username and password"))
  else
    let auth_url := (fstr py_str zvm_url ++ "/v1/auth/login")%string in
    let payload :=
      py_dict [ ("username", username); ("password", password) ]%string in
    token_of "sessionId" "No session token in response"
      "Legacy auth failed: " (post auth_url payload verify_tls timeout)))))).

End AuthLegacy.

(** The factory: [post_data] and [post_json] are the two requests. *)
Definition authenticate (py_str : pyval -> string)
    (post_data post_json : requests_post)
    (config : pyval) (verify_tls : bool) (timeout : Z) : outcome :=
  try_ (py_get config "auth" (PDict [])) (fun auth =>
  try_ (py_get auth "version" PNone) (fun auth_version =>
  if eq_str "10.x" auth_version then
    Auth10x.authenticate py_str post_data config verify_tls timeout
  else if eq_str "pre-10" auth_version then
    AuthLegacy.authenticate py_str post_json config verify_tls timeout
  else
    Fail (Builtin
            (ValueError
               ("Unknown auth version: " ++ fstr py_str auth_version))))).

End Auth.

(** ** The risk score as the specification words it

    [floor(min(utilization_pct, 100) / 100 * 50 + expiry_component)],
    clamped to 100. *)

Definition risk_score_floor (utilization_pct : F64.float) (days_to_expiry : Z)
  : result Z :=
  cap ← F64.of_int 100;
  q ← float_div_int (F64.min utilization_pct cap) 100;
  util_score ← float_mul_int q 50;
  s ← float_add_int util_score (expiry_score days_to_expiry);
  score ← F64.floor s;
  Ok (int_min score 100).

(** The same formula with [int] (truncation toward zero) for [floor]. *)
Definition risk_score_trunc (utilization_pct : F64.float) (days_to_expiry : Z)
  : result Z :=
  cap ← F64.of_int 100;
  q ← float_div_int (F64.min utilization_pct cap) 100;
  util_score ← float_mul_int q 50;
  s ← float_add_int util_score (expiry_score days_to_expiry);
  score ← F64.to_int s;
  Ok (int_min score 100).

(** [v[k1][k2]...] on nested dictionaries. *)
Fixpoint field (path : list string) (v : pyval) : option pyval :=
  match path with
  | [] => Some v
  | key :: path' =>
      match v with
      | PDict d =>
          match dict_lookup key d with
          | Some v' => field path' v'
          | None => None
          end
      | _ => None
      end
  end.

(** Whether the character occurs in the text. *)
Fixpoint occurs (c : ascii) (s : string) : bool :=
  match s with
  | EmptyString => false
  | String a s' => Ascii.eqb a c || occurs c s'
  end.

(** ** The rounding of the floating-point operations, in integers

    Every operation of [SpecFloat] ends in [binary_round_aux], applied to a
    mantissa [N / D], an exponent [e] and the position of the exact value
    [N / D * 2^e] between two mantissas. The definitions below name what
    that function computes on the way, so that the result can be compared
    with the exact value. *)

(** The position of [N / D] between [N / D] rounded down and its successor. *)
Definition location_of (N D : Z) : location :=
  if N mod D =? 0 then loc_Exact else loc_Inexact (2 * (N mod D) ?= D).

(** A shift record that holds the quotient [N / D] and its position. *)
Definition located (N D : Z) (mrs : shr_record) : Prop :=
  shr_m mrs = N / D /\ loc_of_shr_record mrs = location_of N D.

(** The number of bits that [shr_fexp] drops from a mantissa [m] at
    exponent [e]. *)
Definition shift_of (m e : Z) : Z :=
  Z.max 0 (fexp F64.prec F64.emax (Zdigits2 m + e) - e).

(** The first shift, the exponent and the denominator after it, the
    mantissa rounded to nearest even, the second shift (a carry into a
    54th bit), and the mantissa and exponent of the result. *)
Definition first_shift (N D e : Z) : Z := shift_of (N / D) e.
Definition first_exp (N D e : Z) : Z := e + first_shift N D e.
Definition first_den (N D e : Z) : Z := D * 2 ^ first_shift N D e.
Definition rounded_mant (N D e : Z) : Z := F64.div_half_even N (first_den N D e).
Definition second_shift (N D e : Z) : Z :=
  shift_of (rounded_mant N D e) (first_exp N D e).
Definition final_mant (N D e : Z) : Z :=
  rounded_mant N D e / 2 ^ second_shift N D e.
Definition final_exp (N D e : Z) : Z := first_exp N D e + second_shift N D e.

(** The float nearest to [(-1)^s * N / D * 2^e]. *)
Definition round_located (s : bool) (N D e : Z) : spec_float :=
  match final_mant N D e with
  | Z0 => S754_zero s
  | Zpos m =>
      if final_exp N D e <=? F64.emax - F64.prec
      then S754_finite s m (final_exp N D e) else S754_infinity s
  | Zneg _ => S754_nan
  end.

(** A canonical positive mantissa and exponent. *)
Definition canonical (m e : Z) : Prop :=
  0 < m /\ fexp F64.prec F64.emax (Zdigits2 m + e) = e.

(** The exponent and the shifted dividend that the division core picks. *)
Definition div_exp (m1 e1 m2 e2 : Z) : Z :=
  Z.min (fexp F64.prec F64.emax (Zdigits2 m1 + e1 - (Zdigits2 m2 + e2))) (e1 - e2).

Definition div_num (m1 e1 m2 e2 : Z) : Z :=
  m1 * 2 ^ (e1 - e2 - div_exp m1 e1 m2 e2).

(** The exponent at which [binary_round] presents [m * 2^e]. *)
Definition round_exp (m e : Z) : Z :=
  Z.min e (fexp F64.prec F64.emax (Zdigits2 m + e)).

(** [a * 2^x <= b * 2^y], on any grid fine enough for both. *)
Definition dle (a x b y : Z) : Prop :=
  forall c, c <= x -> c <= y -> a * 2 ^ (x - c) <= b * 2 ^ (y - c).

(** The constants [100.0] and [50.0] of the risk score. *)
Definition hundred : F64.float := S754_finite false 7036874417766400 (-46).
Definition fifty : F64.float := S754_finite false 7036874417766400 (-47).

(** A float that is a zero or a canonical positive number at most
    [mb * 2^eb]. *)
Definition nonneg_le (x : F64.float) (mb eb : Z) : Prop :=
  match x with
  | S754_zero _ => True
  | S754_finite false p ep =>
      canonical (Zpos p) ep /\ ep <= 971 /\ dle (Zpos p) ep mb eb
  | _ => False
  end.

(** A float that is not NaN and not negative. *)
Definition nonneg (x : F64.float) : Prop :=
  match x with
  | S754_zero _ | S754_infinity false => True
  | S754_finite false p ep => canonical (Zpos p) ep /\ ep <= 971
  | _ => False
  end.

(** The month and the day of the [n]-th day (from 0) of a year, as
    [ord2ymd] finds them. *)
Definition month_day (leapyear : bool) (n : Z) : Z * Z :=
  let month := Z.shiftr (n + 50) 5 in
  let preceding := Calendar.days_before_month leapyear month in
  if n <? preceding then
    (month - 1, n - (preceding - Calendar.days_in_month leapyear (month - 1)) + 1)
  else (month, n - preceding + 1).

Definition month_day_ok (leapyear : bool) (n : Z) : bool :=
  let '(m, d) := month_day leapyear n in
  (1 <=? m) && (m <=? 12) && (1 <=? d) && (d <=? Calendar.days_in_month leapyear m)
  && (Calendar.days_before_month leapyear m + d =? n + 1).

(** The largest finite double, [2^1024 - 2^971], as an integer. *)
Definition max_double : Z := (2 ^ 53 - 1) * 2 ^ 971.

(** A configuration whose [auth] entry is a string, as the YAML line
    [auth: basic] gives. *)
Definition config_auth_not_mapping : pyval :=
  PDict
    [ (PStr "zvm_url", PStr "https://zvm.example.com");
      (PStr "auth", PStr "basic");
      (PStr "verify_tls", PBool true);
      (PStr "output_dir", PStr "reports") ]%string.

(** A float that is plus infinity or a canonical positive number at least
    [mb * 2^eb]. *)
Definition at_least (x : F64.float) (mb eb : Z) : Prop :=
  match x with
  | S754_infinity false => True
  | S754_finite false p ep =>
      canonical (Zpos p) ep /\ ep <= 971 /\ dle mb eb (Zpos p) ep
  | _ => False
  end.

(** The text of an alert of [generate_alerts] in the page: the class of
    the badge follows the severity. *)
Definition alert_html (capitalize : string -> string) (a : alert) : string :=
  ReportGenerator.alert_block
    (if String.eqb (severity a) "critical" then "danger"
     else if String.eqb (severity a) "warning" then "warning" else "info")
    (capitalize (severity a)) (message a) (recommendation a).

(** A row of a site in the CSV table: the entitlement of the license and
    two zeros. *)
Definition site_row_shape (entitled_vms : pyval) (timestamp : string)
    (row : list pyval) : Prop :=
  exists name protected_vms,
    row = [name; protected_vms; entitled_vms; PInt 0; PInt 0; PStr timestamp].

(** Stand-ins for the library functions, for the examples. *)
Definition example_str (v : pyval) : string := "?".
Definition example_joinpath (dir name : string) : string :=
  (dir ++ "/" ++ name)%string.

(** A configuration for the OIDC flow. *)
Definition example_config : pyval :=
  py_dict
    [ ("zvm_url", PStr "https://zvm.example.com");
      ("auth",
        py_dict
          [ ("version", PStr "10.x");
            ("client_id", PStr "report");
            ("client_secret", PStr "secret") ]);
      ("verify_tls", PBool true);
      ("output_dir", PStr "reports") ]%string.

(** [x <= y] on floats that are neither NaN nor negative: the order of
    their values. *)
Definition fle (x y : F64.float) : Prop :=
  match x, y with
  | S754_zero _, (S754_zero _ | S754_finite false _ _ | S754_infinity false) => True
  | S754_finite false p ep, S754_finite false q eq => dle (Zpos p) ep (Zpos q) eq
  | (S754_finite false _ _ | S754_infinity false), S754_infinity false => True
  | _, _ => False
  end.

(** * Facts *)

Import ConfigLoader.

(** ** The number of binary digits *)

Lemma digits2_size p : digits2_pos p = Pos.size p.
Proof. induction p; simpl; congruence. Qed.

Lemma Zdigits2_log2 z : 0 < z -> Zdigits2 z = Z.log2 z + 1.
Proof.
  destruct z as [|p|p]; try lia. intros _. simpl.
  rewrite digits2_size. destruct p; simpl; lia.
Qed.

Lemma Zdigits2_bounds z : 0 < z -> 2 ^ (Zdigits2 z - 1) <= z < 2 ^ Zdigits2 z.
Proof.
  intros H. rewrite Zdigits2_log2 by lia.
  replace (Z.log2 z + 1 - 1) with (Z.log2 z) by lia.
  apply Z.log2_spec; lia.
Qed.

Lemma Zdigits2_nonneg z : 0 <= Zdigits2 z.
Proof. destruct z; simpl; lia. Qed.

Lemma Zdigits2_pos z : 0 < z -> 0 < Zdigits2 z.
Proof. destruct z; simpl; lia. Qed.

Lemma Zdigits2_unique z d : 0 < d -> 2 ^ (d - 1) <= z < 2 ^ d -> Zdigits2 z = d.
Proof.
  intros Hd H. assert (0 < z) by (pose proof (Z.pow_pos_nonneg 2 (d-1)); lia).
  rewrite Zdigits2_log2 by lia.
  rewrite (Z.log2_unique z (d - 1)); try lia.
  replace (Z.succ (d - 1)) with d by lia. lia.
Qed.

Lemma Zdigits2_le a b : 0 <= a <= b -> Zdigits2 a <= Zdigits2 b.
Proof.
  intros H. destruct (Z.eq_dec a 0) as [->|]. { apply Zdigits2_nonneg. }
  rewrite !Zdigits2_log2 by lia. pose proof (Z.log2_le_mono a b). lia.
Qed.

Lemma Zdigits2_lt_pow z d : 0 <= z -> 0 <= d -> z < 2 ^ d -> Zdigits2 z <= d.
Proof.
  intros Hz Hd H. destruct (Z.eq_dec z 0) as [->|]. { simpl; lia. }
  rewrite Zdigits2_log2 by lia.
  assert (Z.log2 z < d) by (apply Z.log2_lt_pow2; lia). lia.
Qed.

Lemma Zdigits2_ge_pow z d : 0 <= d -> 2 ^ d <= z -> d + 1 <= Zdigits2 z.
Proof.
  intros Hd H. assert (0 < z) by (pose proof (Z.pow_pos_nonneg 2 d); lia).
  rewrite Zdigits2_log2 by lia.
  assert (d <= Z.log2 z) by (apply Z.log2_le_pow2; lia). lia.
Qed.

Lemma Zdigits2_div_pow z n : 0 < z -> 0 <= n -> n < Zdigits2 z ->
  Zdigits2 (z / 2 ^ n) = Zdigits2 z - n.
Proof.
  intros Hz Hn H. pose proof (Zdigits2_bounds z Hz) as [Hl Hu].
  apply Zdigits2_unique; [lia|].
  assert (0 < 2 ^ n) by (apply Z.pow_pos_nonneg; lia).
  split.
  - apply Z.div_le_lower_bound; [lia|].
    rewrite <- Z.pow_add_r by lia. replace (n + (Zdigits2 z - n - 1)) with (Zdigits2 z - 1) by lia. lia.
  - apply Z.div_lt_upper_bound; [lia|].
    rewrite <- Z.pow_add_r by lia. replace (n + (Zdigits2 z - n)) with (Zdigits2 z) by lia. lia.
Qed.

(** ** Shifting a mantissa to the right keeps the quotient located *)

Lemma loc_of_shr_record_of_loc m l :
  loc_of_shr_record (shr_record_of_loc m l) = l.
Proof. destruct l as [|[]]; reflexivity. Qed.

Lemma shr_m_of_loc m l : shr_m (shr_record_of_loc m l) = m.
Proof. destruct l as [|[]]; reflexivity. Qed.

Lemma located_init N D : located N D (shr_record_of_loc (N / D) (location_of N D)).
Proof. split; [apply shr_m_of_loc | apply loc_of_shr_record_of_loc]. Qed.

Lemma shr_1_m mrs : 0 <= shr_m mrs ->
  shr_m (shr_1 mrs) = shr_m mrs / 2 /\
  shr_r (shr_1 mrs) = Z.odd (shr_m mrs) /\
  shr_s (shr_1 mrs) = shr_r mrs || shr_s mrs.
Proof.
  destruct mrs as [m r s]; simpl. intros Hm.
  destruct m as [|[p|p|]|p]; try lia; simpl; repeat split.
  - rewrite Pos2Z.inj_xI. apply Z.div_unique with 1; lia.
  - rewrite Pos2Z.inj_xO. apply Z.div_unique with 0; lia.
Qed.

Lemma shr_1_located N D mrs : 0 <= N -> 0 < D ->
  located N D mrs -> located N (2 * D) (shr_1 mrs).
Proof.
  intros HN HD [Hm Hl].
  assert (Hm0 : 0 <= shr_m mrs) by (rewrite Hm; apply Z.div_pos; lia).
  destruct (shr_1_m mrs Hm0) as (Hm' & Hr' & Hs').
  assert (Hdiv : N / (2 * D) = N / D / 2).
  { rewrite (Z.mul_comm 2 D). rewrite Z.div_div by lia. reflexivity. }
  assert (Hmod : N mod (2 * D) = N mod D + D * ((N / D) mod 2)).
  { rewrite (Z.mul_comm 2 D). apply Z.rem_mul_r; lia. }
  pose proof (Z.mod_pos_bound N D HD) as Hb.
  split.
  - rewrite Hm', Hm, Hdiv. reflexivity.
  - unfold location_of in *. rewrite Hmod.
    destruct (shr_1 mrs) as [m' r' s']. simpl in *. subst r' s'.
    rewrite Hm.
    assert (Hodd : (N / D) mod 2 = Z.b2z (Z.odd (N / D)))
      by (rewrite <- Z.bit0_odd; symmetry; apply Z.bit0_mod).
    rewrite Hodd. clear Hodd Hm' Hm Hm0.
    destruct mrs as [m r s]; simpl in *.
    destruct (Z.eqb_spec (N mod D) 0) as [E|E].
    + assert (r = false /\ s = false) as [-> ->]
        by (destruct r, s; simpl in Hl; try discriminate; auto).
      rewrite E. destruct (Z.odd (N / D)); simpl.
      * replace (0 + D * 1) with D by lia.
        destruct (Z.eqb_spec D 0); [lia|].
        replace (2 * D ?= 2 * D) with Eq by (symmetry; apply Z.compare_eq_iff; lia).
        reflexivity.
      * replace (D * 0) with 0 by lia. reflexivity.
    + assert (r || s = true) as ->
        by (destruct r, s; simpl in Hl; try discriminate; auto;
            destruct (2 * (N mod D) ?= D); discriminate).
      destruct (Z.odd (N / D)); simpl.
      * destruct (Z.eqb_spec (N mod D + D * 1) 0); [lia|].
        replace (2 * (N mod D + D * 1) ?= 2 * D) with Gt
          by (symmetry; apply Z.compare_gt_iff; lia).
        reflexivity.
      * replace (N mod D + D * 0) with (N mod D) by lia.
        destruct (Z.eqb_spec (N mod D) 0); [lia|].
        replace (2 * (N mod D) ?= 2 * D) with Lt
          by (symmetry; apply Z.compare_lt_iff; lia).
        reflexivity.
Qed.

Lemma iter_shr_1_located p : forall N D mrs, 0 <= N -> 0 < D ->
  located N D mrs -> located N (D * 2 ^ Zpos p) (SpecFloat.iter_pos shr_1 p mrs).
Proof.
  induction p as [p IH|p IH|]; intros N D mrs HN HD H; simpl SpecFloat.iter_pos.
  - assert (0 < 2 ^ Zpos p) by (apply Z.pow_pos_nonneg; lia).
    replace (D * 2 ^ Z.pos p~1) with (2 * D * 2 ^ Zpos p * 2 ^ Zpos p).
    + apply IH; [lia | nia |]. apply IH; [lia | lia |]. apply shr_1_located; auto.
    + rewrite Pos2Z.inj_xI. rewrite Z.pow_add_r, Z.pow_mul_r by lia.
      replace (2 ^ 2) with 4 by reflexivity. rewrite Z.pow_1_r.
      replace (4 ^ Z.pos p) with (2 ^ Z.pos p * 2 ^ Z.pos p); [ring|].
      rewrite <- Z.pow_add_r by lia. replace (Z.pos p + Z.pos p) with (2 * Z.pos p) by lia.
      rewrite Z.pow_mul_r by lia. reflexivity.
  - assert (0 < 2 ^ Zpos p) by (apply Z.pow_pos_nonneg; lia).
    replace (D * 2 ^ Z.pos p~0) with (D * 2 ^ Zpos p * 2 ^ Zpos p).
    + apply IH; [lia | nia |]. apply IH; auto.
    + rewrite Pos2Z.inj_xO. rewrite <- Z.mul_assoc, <- Z.pow_add_r by lia.
      f_equal. f_equal. lia.
  - replace (D * 2 ^ 1) with (2 * D) by lia. apply shr_1_located; auto.
Qed.

Lemma shr_fexp_located N D e : 0 <= N -> 0 < D ->
  let n := shift_of (N / D) e in
  exists mrs, shr_fexp F64.prec F64.emax (N / D) e (location_of N D) = (mrs, e + n)
    /\ located N (D * 2 ^ n) mrs.
Proof.
  intros HN HD n. subst n. unfold shr_fexp, shift_of.
  generalize (fexp F64.prec F64.emax (Zdigits2 (N / D) + e) - e). intros k.
  destruct k as [|p|p]; unfold shr.
  - replace (Z.max 0 0) with 0 by lia. rewrite Z.add_0_r.
    eexists; split; [reflexivity|].
    replace (D * 2 ^ 0) with D by (simpl; lia). apply located_init.
  - replace (Z.max 0 (Z.pos p)) with (Z.pos p) by lia.
    eexists; split; [reflexivity|].
    apply iter_shr_1_located; auto. apply located_init.
  - replace (Z.max 0 (Z.neg p)) with 0 by lia. rewrite Z.add_0_r.
    eexists; split; [reflexivity|].
    replace (D * 2 ^ 0) with D by (simpl; lia). apply located_init.
Qed.

Lemma round_nearest_even_located N D mrs : 0 <= N -> 0 < D ->
  located N D mrs ->
  round_nearest_even (shr_m mrs) (loc_of_shr_record mrs) = F64.div_half_even N D.
Proof.
  intros HN HD [Hm Hl]. rewrite Hm, Hl.
  unfold location_of, F64.div_half_even, round_nearest_even.
  pose proof (Z.mod_pos_bound N D HD).
  destruct (Z.eqb_spec (N mod D) 0) as [E|E].
  - rewrite E. replace (2 * 0 ?= D) with Lt by (symmetry; apply Z.compare_lt_iff; lia).
    reflexivity.
  - destruct (2 * (N mod D) ?= D); reflexivity.
Qed.

(** ** [binary_round_aux] computes [round_located] *)

Lemma pow2_pos k : 0 <= k -> 0 < 2 ^ k.
Proof. intros. apply Z.pow_pos_nonneg; lia. Qed.

Lemma shift_of_nonneg m e : 0 <= shift_of m e.
Proof. unfold shift_of. lia. Qed.

Lemma div_half_even_floor N D : 0 <= N -> 0 < D ->
  N / D <= F64.div_half_even N D <= N / D + 1.
Proof.
  intros. unfold F64.div_half_even.
  destruct (2 * (N mod D) ?= D); [destruct (Z.even (N / D))|..]; lia.
Qed.

Lemma div_half_even_nonneg N D : 0 <= N -> 0 < D -> 0 <= F64.div_half_even N D.
Proof.
  intros. pose proof (div_half_even_floor N D). pose proof (Z.div_pos N D). lia.
Qed.

Lemma div_half_even_le N D K : 0 <= N -> 0 < D -> N <= K * D ->
  F64.div_half_even N D <= K.
Proof.
  intros HN HD H. unfold F64.div_half_even.
  pose proof (Z.div_mod N D ltac:(lia)) as E.
  pose proof (Z.mod_pos_bound N D HD) as Hb.
  assert (N / D <= K) by nia.
  destruct (Z.compare_spec (2 * (N mod D)) D) as [C|C|C].
  - assert (N / D < K) by nia. destruct (Z.even (N / D)); lia.
  - lia.
  - assert (N / D < K) by nia. lia.
Qed.

Lemma div_half_even_ge N D K : 0 <= N -> 0 < D -> K * D <= N ->
  K <= F64.div_half_even N D.
Proof.
  intros HN HD H. pose proof (div_half_even_floor N D HN HD).
  assert (K <= N / D) by (apply Z.div_le_lower_bound; lia). lia.
Qed.

Lemma location_of_exact m : location_of m 1 = loc_Exact.
Proof. unfold location_of. rewrite Z.mod_1_r. reflexivity. Qed.

Lemma binary_round_aux_located s N D e : 0 <= N -> 0 < D ->
  binary_round_aux F64.prec F64.emax s (N / D) e (location_of N D)
  = round_located s N D e.
Proof.
  intros HN HD. unfold binary_round_aux, round_located, final_mant, final_exp,
    second_shift, rounded_mant, first_den, first_exp, first_shift.
  destruct (shr_fexp_located N D e HN HD) as (mrs & E1 & L1).
  rewrite E1.
  assert (HD1 : 0 < D * 2 ^ shift_of (N / D) e)
    by (pose proof (pow2_pos _ (shift_of_nonneg (N / D) e)); nia).
  rewrite (round_nearest_even_located N _ mrs HN HD1 L1).
  set (m2 := F64.div_half_even N (D * 2 ^ shift_of (N / D) e)).
  assert (Hm2 : 0 <= m2) by (apply div_half_even_nonneg; auto).
  destruct (shr_fexp_located m2 1 (e + shift_of (N / D) e) Hm2 ltac:(lia))
    as (mrs2 & E2 & [L2 _]).
  rewrite Z.div_1_r in L2. rewrite Z.div_1_r, location_of_exact in E2.
  rewrite E2, L2, Z.mul_1_l. reflexivity.
Qed.

(** ** The rounded value stays on the side of a float where the exact
    value is *)

Lemma fexp64 x : fexp F64.prec F64.emax x = Z.max (x - 53) (-1074).
Proof. reflexivity. Qed.

Lemma shift_of_normal m e : -1074 <= e -> shift_of m e = Z.max 0 (Zdigits2 m - 53).
Proof. intros H. unfold shift_of. rewrite fexp64. lia. Qed.

Lemma shift_of_enough m e : e <= fexp F64.prec F64.emax (Zdigits2 m + e) ->
  e + shift_of m e = fexp F64.prec F64.emax (Zdigits2 m + e).
Proof. unfold shift_of. lia. Qed.

Lemma canonical_bounds m e : canonical m e ->
  0 < m < 2 ^ 53 /\ -1074 <= e /\ (-1074 < e -> 2 ^ 52 <= m).
Proof.
  intros [Hm Hc]. rewrite fexp64 in Hc.
  pose proof (Zdigits2_bounds m Hm) as [Hl Hu].
  assert (Hd : Zdigits2 m <= 53) by lia.
  repeat split; try lia.
  - eapply Z.lt_le_trans; [exact Hu|]. apply Z.pow_le_mono_r; lia.
  - intros He. assert (Zdigits2 m = 53) as E by lia. rewrite E in Hl. exact Hl.
Qed.

(** Comparing [a * 2^x] with [b * 2^y] on a common grid [2^c]. *)
Lemma scaled_le_r a b x y c : c <= x -> x <= y ->
  a * 2 ^ (x - c) <= b * 2 ^ (y - c) <-> a <= b * 2 ^ (y - x).
Proof.
  intros Hc Hxy. replace (y - c) with ((y - x) + (x - c)) by lia.
  rewrite Z.pow_add_r by lia. rewrite Z.mul_assoc.
  pose proof (pow2_pos (x - c) ltac:(lia)).
  split; intros; [apply Z.mul_le_mono_pos_r with (2 ^ (x - c)) | apply Z.mul_le_mono_nonneg_r]; lia.
Qed.

Lemma scaled_le_l a b x y c : c <= y -> y <= x ->
  a * 2 ^ (x - c) <= b * 2 ^ (y - c) <-> a * 2 ^ (x - y) <= b.
Proof.
  intros Hc Hxy. replace (x - c) with ((x - y) + (y - c)) by lia.
  rewrite Z.pow_add_r by lia. rewrite Z.mul_assoc.
  pose proof (pow2_pos (y - c) ltac:(lia)).
  split; intros; [apply Z.mul_le_mono_pos_r with (2 ^ (y - c)) | apply Z.mul_le_mono_nonneg_r]; lia.
Qed.

Section Bounds.
Variables (s : bool) (N D e : Z).
Hypothesis HN : 0 <= N.
Hypothesis HD : 0 < D.
Hypothesis Henough : e <= fexp F64.prec F64.emax (Zdigits2 (N / D) + e).

Local Abbreviation m0 := (N / D) (only parsing).
Local Abbreviation n1 := (first_shift N D e) (only parsing).
Local Abbreviation e1 := (first_exp N D e) (only parsing).
Local Abbreviation D1 := (first_den N D e) (only parsing).
Local Abbreviation m2 := (rounded_mant N D e) (only parsing).
Local Abbreviation n2 := (second_shift N D e) (only parsing).
Local Abbreviation m3 := (final_mant N D e) (only parsing).
Local Abbreviation e3 := (final_exp N D e) (only parsing).

Local Lemma n_nonneg : 0 <= n1.
  Proof. apply shift_of_nonneg. Qed.

Local Lemma e1_eq : e1 = fexp F64.prec F64.emax (Zdigits2 m0 + e).
  Proof. apply shift_of_enough. exact Henough. Qed.

Local Lemma e1_min : -1074 <= e1.
  Proof. rewrite e1_eq, fexp64. lia. Qed.

Local Lemma D1_pos : 0 < D1.
  Proof. pose proof (pow2_pos n1 n_nonneg). unfold first_den in *. nia. Qed.

Local Lemma m_nonneg : 0 <= m0.
  Proof. apply Z.div_pos; lia. Qed.

Local Lemma m2_nonneg : 0 <= m2.
  Proof. apply div_half_even_nonneg; [exact HN | exact D1_pos]. Qed.

Local Lemma n2_eq : n2 = Z.max 0 (Zdigits2 m2 - 53).
  Proof. apply shift_of_normal. exact e1_min. Qed.

Local Lemma m1_eq : N / D1 = m0 / 2 ^ n1.
  Proof. unfold first_den in *. rewrite Z.div_div; [reflexivity | lia | apply pow2_pos, n_nonneg]. Qed.

  (** In the normal range the shifted mantissa has exactly 53 bits. *)
Local Lemma normal_m1 : -1074 < e1 -> 2 ^ 52 <= N / D1.
  Proof.
    intros He1. pose proof e1_eq as E. rewrite fexp64 in E.
    assert (Hdig : Zdigits2 m0 = n1 + 53) by (unfold first_exp in *; lia).
    pose proof n_nonneg.
    assert (Hm : 0 < m0).
    { destruct (Z.eq_dec m0 0) as [Z0|]; [rewrite Z0 in Hdig; simpl in Hdig; lia|].
      pose proof m_nonneg. lia. }
    rewrite m1_eq.
    pose proof (Zdigits2_div_pow m0 n1 Hm ltac:(lia) ltac:(lia)) as Hd.
    assert (0 < m0 / 2 ^ n1).
    { destruct (Z.eq_dec (m0 / 2 ^ n1) 0) as [Z0|]; [rewrite Z0 in Hd; simpl in Hd; lia|].
      pose proof (Z.div_pos m0 (2 ^ n1) ltac:(lia) (pow2_pos n1 ltac:(lia))). lia. }
    pose proof (Zdigits2_bounds (m0 / 2 ^ n1) ltac:(lia)) as [Hl _].
    rewrite Hd in Hl. replace (Zdigits2 m0 - n1 - 1) with 52 in Hl by lia. exact Hl.
  Qed.

Local Lemma m2_ge_m1 : N / D1 <= m2.
  Proof. apply div_half_even_floor; [exact HN | exact D1_pos]. Qed.

  (** After the second shift the mantissa has at most 53 bits, and
      exactly 53 when a shift was needed. *)
Local Lemma m3_shifted : 0 < n2 -> 2 ^ 52 <= m3 < 2 ^ 53.
  Proof.
    intros Hn2. pose proof n2_eq as E.
    assert (Hdig : Zdigits2 m2 = n2 + 53) by lia.
    assert (Hm2 : 0 < m2).
    { destruct (Z.eq_dec m2 0) as [Z0|]; [rewrite Z0 in Hdig; simpl in Hdig; lia|].
      pose proof m2_nonneg. lia. }
    pose proof (Zdigits2_div_pow m2 n2 Hm2 ltac:(lia) ltac:(lia)) as Hd.
    fold (final_mant N D e) in Hd.
    assert (0 < m3).
    { destruct (Z.eq_dec m3 0) as [Z0|]; [rewrite Z0 in Hd; simpl in Hd; lia|].
      pose proof (Z.div_pos m2 (2 ^ n2) ltac:(lia) (pow2_pos n2 ltac:(lia))).
      fold (final_mant N D e) in H. lia. }
    pose proof (Zdigits2_bounds m3 ltac:(lia)) as Hb.
    rewrite Hd in Hb. replace (Zdigits2 m2 - n2 - 1) with 52 in Hb by lia.
    replace (Zdigits2 m2 - n2) with 53 in Hb by lia. exact Hb.
  Qed.

Local Lemma round_located_eq :
    round_located s N D e =
    match m3 with
    | Z0 => S754_zero s
    | Zpos p => if e3 <=? 971 then S754_finite s p e3 else S754_infinity s
    | Zneg _ => S754_nan
    end.
  Proof. reflexivity. Qed.

Local Lemma m3_nonneg : 0 <= m3.
  Proof. apply Z.div_pos; [exact m2_nonneg | apply pow2_pos, shift_of_nonneg]. Qed.

Local Lemma n2_nonneg : 0 <= n2.
  Proof. apply shift_of_nonneg. Qed.

  (** The result is canonical. *)
Lemma round_located_canonical p ep s' :
    round_located s N D e = S754_finite s' p ep ->
    s' = s /\ canonical (Zpos p) ep /\ ep <= 971.
  Proof.
    rewrite round_located_eq. destruct m3 as [|q|q] eqn:E3; try discriminate.
    destruct (Z.leb_spec e3 971); [|discriminate].
    intros [= <- <- <-]. split; [reflexivity|]. split; [|assumption].
    split; [lia|]. rewrite fexp64.
    pose proof n2_nonneg. pose proof e1_min.
    destruct (Z.eq_dec n2 0) as [Z2|NZ2].
    - assert (m3 = m2) as Em by (unfold final_mant in *; rewrite Z2; simpl; apply Z.div_1_r).
      rewrite <- E3, Em. unfold final_exp in *. rewrite Z2, Z.add_0_r.
      pose proof n2_eq as En2. rewrite Z2 in En2.
      destruct (Z.eq_dec e1 (-1074)) as [Emin|Emin]; [lia|].
      pose proof (normal_m1 ltac:(lia)). pose proof m2_ge_m1.
      pose proof (Zdigits2_ge_pow m2 52 ltac:(lia) ltac:(lia)). lia.
    - pose proof (m3_shifted ltac:(lia)) as Hb. rewrite E3 in Hb.
      pose proof (Zdigits2_ge_pow (Zpos q) 52 ltac:(lia) ltac:(lia)).
      pose proof (Zdigits2_lt_pow (Zpos q) 53 ltac:(lia) ltac:(lia) ltac:(lia)).
      pose proof n2_eq. unfold final_exp in *. lia.
  Qed.

Lemma round_located_not_nan : round_located s N D e <> S754_nan.
  Proof.
    rewrite round_located_eq. pose proof m3_nonneg.
    destruct m3; try lia; try discriminate. destruct (e3 <=? 971); discriminate.
  Qed.

Section Upper.
Variables (mb eb c : Z).
Hypothesis Hcan : canonical mb eb.
Hypothesis Hce : c <= e.
Hypothesis Hcb : c <= eb.
Hypothesis Hle : N * 2 ^ (e - c) <= mb * D * 2 ^ (eb - c).

Local Lemma upper_e1 : e1 <= eb.
    Proof.
      destruct (Z_le_gt_dec e1 eb) as [|Hgt]; [assumption|exfalso].
      destruct (canonical_bounds mb eb Hcan) as (Hmb & Heb & _).
      pose proof (normal_m1 ltac:(lia)) as H1. pose proof n_nonneg as Hn.
      assert (HND : 2 ^ 52 * D1 <= N).
      { pose proof (Z.mul_div_le N D1 D1_pos). pose proof D1_pos. nia. }
      unfold first_den in HND.
      pose proof (pow2_pos n1 Hn) as Hpn.
      assert (0 <= eb - e \/ eb - e < 0) as [Hbe|Hbe] by lia.
      - pose proof (proj1 (scaled_le_r N (mb * D) e eb c Hce ltac:(lia)) Hle) as Hle'.
        assert (Hp : 2 * 2 ^ (eb - e) <= 2 ^ n1).
        { replace (2 * 2 ^ (eb - e)) with (2 ^ (eb - e + 1))
            by (rewrite Z.pow_add_r by lia; lia).
          apply Z.pow_le_mono_r; unfold first_exp in *; lia. }
        pose proof (pow2_pos (eb - e) ltac:(lia)) as Hpos.
        assert (2 ^ 53 * (D * 2 ^ (eb - e)) <= N).
        { replace (2 ^ 53) with (2 ^ 52 * 2) by reflexivity. nia. }
        assert (mb * (D * 2 ^ (eb - e)) < 2 ^ 53 * (D * 2 ^ (eb - e)))
          by (apply Z.mul_lt_mono_pos_r; nia).
        lia.
      - pose proof (proj1 (scaled_le_l N (mb * D) e eb c Hcb ltac:(lia)) Hle) as Hle'.
        assert (Hp : 2 <= 2 ^ (e - eb)).
        { replace 2 with (2 ^ 1) at 1 by reflexivity. apply Z.pow_le_mono_r; lia. }
        assert (2 ^ 53 * D <= N * 2 ^ (e - eb)).
        { replace (2 ^ 53) with (2 ^ 52 * 2) by reflexivity. nia. }
        assert (mb * D < 2 ^ 53 * D) by (apply Z.mul_lt_mono_pos_r; lia).
        lia.
    Qed.

Local Lemma upper_K : N <= mb * 2 ^ (eb - e1) * D1.
    Proof.
      pose proof upper_e1. pose proof n_nonneg.
      replace (eb - c) with ((eb - e1) + n1 + (e - c)) in Hle by (unfold first_exp in *; lia).
      rewrite !Z.pow_add_r in Hle by lia.
      pose proof (pow2_pos (e - c) ltac:(lia)). unfold first_den in *. nia.
    Qed.

Local Lemma upper_m2 : m2 <= mb * 2 ^ (eb - e1).
    Proof. apply div_half_even_le; [exact HN | exact D1_pos | exact upper_K]. Qed.

Local Lemma upper_n2 : n2 <= eb - e1.
    Proof.
      pose proof upper_e1 as He1. pose proof n2_eq as E. pose proof n2_nonneg as Hn2.
      destruct (Z_le_gt_dec n2 (eb - e1)) as [|Hgt]; [assumption|exfalso].
      destruct (canonical_bounds mb eb Hcan) as (Hmb & Heb & _).
      assert (Hdig : Zdigits2 m2 = n2 + 53) by lia.
      assert (Hm2 : 0 < m2).
      { destruct (Z.eq_dec m2 0) as [Z0|]; [rewrite Z0 in Hdig; simpl in Hdig; lia|].
        pose proof m2_nonneg. lia. }
      pose proof (Zdigits2_bounds m2 Hm2) as [Hl _]. rewrite Hdig in Hl.
      pose proof upper_m2 as Hm2K.
      assert (Hp : 2 ^ (53 + (eb - e1)) <= 2 ^ (n2 + 53 - 1))
        by (apply Z.pow_le_mono_r; lia).
      rewrite Z.pow_add_r in Hp by lia.
      pose proof (pow2_pos (eb - e1) ltac:(lia)) as Hpos.
      assert (mb * 2 ^ (eb - e1) < 2 ^ 53 * 2 ^ (eb - e1))
        by (apply Z.mul_lt_mono_pos_r; lia).
      lia.
    Qed.

Local Lemma upper_val : m3 * 2 ^ (e3 - c) <= mb * 2 ^ (eb - c).
    Proof.
      pose proof upper_e1 as He1. pose proof upper_n2 as Hn2b.
      pose proof n2_nonneg as Hn2. pose proof n_nonneg as Hn.
      pose proof upper_m2 as Hm2K.
      replace (e3 - c) with (n2 + (e1 - c)) by (unfold final_exp in *; lia).
      replace (eb - c) with ((eb - e1) + (e1 - c)) by lia.
      rewrite !Z.pow_add_r by (unfold first_exp in *; lia).
      pose proof (pow2_pos (e1 - c) ltac:(unfold first_exp in *; lia)) as Hpos.
      pose proof (Z.mul_div_le m2 (2 ^ n2) (pow2_pos n2 ltac:(lia))) as Hdiv.
      fold (final_mant N D e) in Hdiv.
      assert (m3 * 2 ^ n2 <= mb * 2 ^ (eb - e1)) by lia.
      rewrite !Z.mul_assoc. apply Z.mul_le_mono_nonneg_r; lia.
    Qed.

Hypothesis Hebmax : eb <= 971.

Lemma round_located_upper :
      match round_located s N D e with
      | S754_zero s' => s' = s
      | S754_finite s' p ep =>
          s' = s /\ Zpos p * 2 ^ (ep - c) <= mb * 2 ^ (eb - c) /\ c <= ep
      | _ => False
      end.
    Proof.
      rewrite round_located_eq. pose proof m3_nonneg.
      pose proof upper_val as Hv.
      assert (e3 <= eb) by (pose proof upper_n2; unfold final_exp in *; lia).
      destruct m3 as [|q|q] eqn:E3; try lia; [reflexivity|].
      destruct (Z.leb_spec e3 971); [|lia].
      split; [reflexivity|]. split; [exact Hv|].
      pose proof n_nonneg. pose proof n2_nonneg. unfold final_exp, first_exp in *. lia.
    Qed.
End Upper.

Section Lower.
Variables (mb eb c : Z).
Hypothesis Hcan : canonical mb eb.
Hypothesis Hce : c <= e.
Hypothesis Hcb : c <= eb.
Hypothesis Hle : mb * D * 2 ^ (eb - c) <= N * 2 ^ (e - c).

Local Lemma lower_m3_big : eb < e3 -> 2 ^ 52 <= m3.
    Proof.
      intros Hlt. pose proof n2_nonneg as Hn2.
      destruct (canonical_bounds mb eb Hcan) as (Hmb & Heb & _).
      destruct (Z.eq_dec n2 0) as [Z2|NZ2].
      - assert (Em : m3 = m2) by (unfold final_mant in *; rewrite Z2; simpl; apply Z.div_1_r).
        rewrite Em. unfold final_exp in Hlt. rewrite Z2, Z.add_0_r in Hlt.
        pose proof (normal_m1 ltac:(lia)). pose proof m2_ge_m1. lia.
      - apply m3_shifted. lia.
    Qed.

Local Lemma lower_val : mb * 2 ^ (eb - c) <= m3 * 2 ^ (e3 - c).
    Proof.
      pose proof n2_nonneg as Hn2. pose proof n_nonneg as Hn.
      destruct (canonical_bounds mb eb Hcan) as (Hmb & Heb & _).
      destruct (Z_le_gt_dec e3 eb) as [He3|He3].
      - (* the bound is on the grid of the result *)
        assert (He1 : e1 <= eb) by (unfold final_exp in He3; lia).
        assert (HK : mb * 2 ^ (eb - e1) * D1 <= N).
        { replace (eb - c) with ((eb - e1) + n1 + (e - c)) in Hle by (unfold first_exp in *; lia).
          rewrite !Z.pow_add_r in Hle by lia.
          pose proof (pow2_pos (e - c) ltac:(lia)). unfold first_den in *. nia. }
        pose proof (div_half_even_ge N D1 _ HN D1_pos HK) as Hm2. fold (rounded_mant N D e) in Hm2.
        assert (Hm3 : mb * 2 ^ (eb - e3) <= m3).
        { unfold final_mant in *. apply Z.div_le_lower_bound; [apply pow2_pos; lia|].
          replace (eb - e1) with (n2 + (eb - e3)) in Hm2 by (unfold final_exp in *; lia).
          rewrite Z.pow_add_r in Hm2 by lia. lia. }
        replace (eb - c) with ((eb - e3) + (e3 - c)) by lia.
        rewrite Z.pow_add_r by (unfold final_exp, first_exp in *; lia).
        rewrite !Z.mul_assoc. apply Z.mul_le_mono_nonneg_r; [|lia].
        apply Z.lt_le_incl, pow2_pos. unfold final_exp, first_exp in *; lia.
      - pose proof (lower_m3_big ltac:(lia)) as Hbig.
        replace (e3 - c) with ((e3 - eb - 1) + 1 + (eb - c)) by lia.
        rewrite !Z.pow_add_r by lia.
        pose proof (pow2_pos (e3 - eb - 1) ltac:(lia)).
        pose proof (pow2_pos (eb - c) ltac:(lia)).
        replace (2 ^ 1) with 2 by reflexivity.
        assert (mb <= m3 * 2 ^ (e3 - eb - 1) * 2) by nia.
        rewrite !Z.mul_assoc. apply Z.mul_le_mono_nonneg_r; lia.
    Qed.

Lemma round_located_lower :
      match round_located s N D e with
      | S754_infinity s' => s' = s
      | S754_finite s' p ep =>
          s' = s /\ mb * 2 ^ (eb - c) <= Zpos p * 2 ^ (ep - c) /\ c <= ep
      | _ => False
      end.
    Proof.
      rewrite round_located_eq. pose proof m3_nonneg.
      pose proof lower_val as Hv.
      destruct (canonical_bounds mb eb Hcan) as (Hmb & Heb & _).
      pose proof (pow2_pos (eb - c) ltac:(lia)).
      destruct m3 as [|q|q] eqn:E3; try nia.
      destruct (Z.leb_spec e3 971); [|reflexivity].
      split; [reflexivity|]. split; [exact Hv|].
      pose proof n_nonneg. pose proof n2_nonneg. unfold final_exp, first_exp in *. lia.
    Qed.
End Lower.
End Bounds.

(** ** Division, multiplication and addition as roundings *)

Lemma new_location_located N D : 0 <= N -> 0 < D ->
  new_location D (N mod D) = location_of N D.
Proof.
  intros HN HD. pose proof (Z.mod_pos_bound N D HD) as Hb.
  unfold new_location, location_of.
  destruct (Z.even D) eqn:Ev; unfold new_location_even, new_location_odd;
    destruct (Z.eqb_spec (N mod D) 0) as [E|E]; try reflexivity.
  f_equal.
  assert (Hodd : Z.odd D = true) by (rewrite <- Z.negb_even, Ev; reflexivity).
  apply Z.odd_spec in Hodd. destruct Hodd as [k Hk].
  destruct (Z.compare_spec (2 * (N mod D) + 1) D);
    symmetry; [apply Z.compare_lt_iff | apply Z.compare_lt_iff | apply Z.compare_gt_iff]; lia.
Qed.

Lemma SFdiv_core_located m1 e1 m2 e2 : 0 < m1 -> 0 < m2 ->
  SFdiv_core_binary F64.prec F64.emax m1 e1 m2 e2 =
  (div_num m1 e1 m2 e2 / m2, div_exp m1 e1 m2 e2,
   location_of (div_num m1 e1 m2 e2) m2).
Proof.
  intros H1 H2. unfold SFdiv_core_binary. fold (div_exp m1 e1 m2 e2).
  set (e' := div_exp m1 e1 m2 e2).
  assert (Hs : 0 <= e1 - e2 - e') by (unfold e', div_exp; lia).
  set (m' := match e1 - e2 - e' with Z.pos _ => Z.shiftl m1 (e1 - e2 - e') | 0 => m1 | Z.neg _ => 0 end).
  assert (Hm' : m' = div_num m1 e1 m2 e2).
  { unfold m', div_num. fold e'. destruct (e1 - e2 - e') as [|p|p] eqn:E.
    - simpl. lia.
    - rewrite Z.shiftl_mul_pow2 by lia. reflexivity.
    - lia. }
  rewrite Hm'. set (N := div_num m1 e1 m2 e2).
  assert (HN : 0 <= N) by (unfold N, div_num; pose proof (pow2_pos _ Hs); fold e'; nia).
  rewrite <- (new_location_located N m2 HN H2).
  unfold Z.div, Z.modulo. destruct (Z.div_eucl N m2). reflexivity.
Qed.

Lemma div_enough m1 e1 m2 e2 : 0 < m1 -> 0 < m2 ->
  div_exp m1 e1 m2 e2 <=
  fexp F64.prec F64.emax (Zdigits2 (div_num m1 e1 m2 e2 / m2) + div_exp m1 e1 m2 e2).
Proof.
  intros H1 H2. rewrite fexp64. set (e' := div_exp m1 e1 m2 e2).
  destruct (Z_le_gt_dec e' (-1074)) as [|Hgt]; [lia|].
  unfold div_num. fold e'.
  assert (He' : e' <= Zdigits2 m1 + e1 - (Zdigits2 m2 + e2) - 53 /\ e' <= e1 - e2).
  { unfold e', div_exp in *. rewrite fexp64 in *. lia. }
  set (s := e1 - e2 - e'). assert (Hs : Zdigits2 m2 - Zdigits2 m1 + 53 <= s /\ 0 <= s) by (unfold s; lia).
  pose proof (Zdigits2_bounds m1 H1) as [Hl1 _].
  pose proof (Zdigits2_bounds m2 H2) as [_ Hu2].
  pose proof (Zdigits2_pos m1 H1). pose proof (Zdigits2_pos m2 H2).
  assert (Hq : 2 ^ 52 <= m1 * 2 ^ s / m2).
  { apply Z.div_le_lower_bound; [lia|].
    assert (2 ^ (Zdigits2 m2 + 52) <= 2 ^ (Zdigits2 m1 - 1) * 2 ^ s).
    { rewrite <- Z.pow_add_r by lia. apply Z.pow_le_mono_r; lia. }
    rewrite Z.pow_add_r in H3 by lia.
    pose proof (pow2_pos s ltac:(lia)).
    assert (2 ^ (Zdigits2 m1 - 1) * 2 ^ s <= m1 * 2 ^ s) by nia.
    nia. }
  pose proof (Zdigits2_ge_pow _ 52 ltac:(lia) Hq). lia.
Qed.

Lemma SFdiv_finite sx mx ex sy my ey :
  SFdiv F64.prec F64.emax (S754_finite sx mx ex) (S754_finite sy my ey) =
  round_located (xorb sx sy) (div_num (Zpos mx) ex (Zpos my) ey) (Zpos my)
    (div_exp (Zpos mx) ex (Zpos my) ey).
Proof.
  unfold SFdiv. rewrite SFdiv_core_located by lia.
  apply binary_round_aux_located; [|lia].
  unfold div_num. apply Z.mul_nonneg_nonneg; [lia|]. apply Z.pow_nonneg; lia.
Qed.

Lemma round_ratio_located s n d :
  F64.round_ratio s n d =
  round_located s (div_num (Zpos n) 0 (Zpos d) 0) (Zpos d)
    (div_exp (Zpos n) 0 (Zpos d) 0).
Proof.
  unfold F64.round_ratio. rewrite SFdiv_core_located by lia.
  apply binary_round_aux_located; [|lia].
  unfold div_num. apply Z.mul_nonneg_nonneg; [lia|]. apply Z.pow_nonneg; lia.
Qed.

Lemma SFmul_finite sx mx ex sy my ey :
  SFmul F64.prec F64.emax (S754_finite sx mx ex) (S754_finite sy my ey) =
  round_located (xorb sx sy) (Zpos mx * Zpos my) 1 (ex + ey).
Proof.
  unfold SFmul. rewrite <- binary_round_aux_located by lia.
  rewrite Z.div_1_r, location_of_exact. reflexivity.
Qed.

Lemma mul_enough mx ex my ey : canonical mx ex -> canonical my ey ->
  ex + ey <= fexp F64.prec F64.emax (Zdigits2 (mx * my / 1) + (ex + ey)).
Proof.
  intros Hx Hy. rewrite Z.div_1_r, fexp64.
  destruct (canonical_bounds _ _ Hx) as (Hmx & Hex & Hnx).
  destruct (canonical_bounds _ _ Hy) as (Hmy & Hey & Hny).
  destruct (Z_le_gt_dec (ex + ey) (-1074)) as [|Hgt]; [lia|].
  assert (2 ^ 52 <= mx * my) by (assert (-1074 < ex \/ -1074 < ey) as [?|?] by lia; nia).
  pose proof (Zdigits2_ge_pow _ 52 ltac:(lia) H). lia.
Qed.

Lemma shl_align_spec mx ex ex' :
  let '(m', e') := shl_align mx ex ex' in
  e' = Z.min ex ex' /\ Zpos m' = Zpos mx * 2 ^ (ex - e').
Proof.
  unfold shl_align. destruct (ex' - ex) as [|d|d] eqn:E.
  - split; [lia|]. rewrite Z.sub_diag. simpl. lia.
  - split; [lia|]. rewrite Z.sub_diag. simpl. lia.
  - split; [lia|]. replace (ex - ex') with (Zpos d) by lia.
    change (Z.pos (shift_pos d mx) = Z.pos mx * Z.pow_pos 2 d).
    rewrite shift_pos_correct. apply Z.mul_comm.
Qed.

(** ** Comparing values *)

Lemma scaled_rebase a b x y c c' : c' <= c -> c <= x -> c <= y ->
  a * 2 ^ (x - c) <= b * 2 ^ (y - c) <-> a * 2 ^ (x - c') <= b * 2 ^ (y - c').
Proof.
  intros Hc Hx Hy.
  replace (x - c') with ((x - c) + (c - c')) by lia.
  replace (y - c') with ((y - c) + (c - c')) by lia.
  rewrite !Z.pow_add_r by lia. rewrite !Z.mul_assoc.
  pose proof (pow2_pos (c - c') ltac:(lia)).
  split; intros; [apply Z.mul_le_mono_nonneg_r | apply Z.mul_le_mono_pos_r with (2 ^ (c - c'))]; lia.
Qed.

Lemma dle_intro a x b y c : c <= x -> c <= y ->
  a * 2 ^ (x - c) <= b * 2 ^ (y - c) -> dle a x b y.
Proof.
  intros Hx Hy H c' Hx' Hy'.
  apply (scaled_rebase a b x y c' (Z.min c c')); [lia..|].
  apply (scaled_rebase a b x y c (Z.min c c')); [lia..|]. exact H.
Qed.

Lemma dle_refl a x : dle a x a x.
Proof. intros c _ _. lia. Qed.

Lemma dle_trans a x b y d z : dle a x b y -> dle b y d z -> dle a x d z.
Proof.
  intros H1 H2. apply dle_intro with (Z.min (Z.min x y) z); [lia..|].
  specialize (H1 (Z.min (Z.min x y) z) ltac:(lia) ltac:(lia)).
  specialize (H2 (Z.min (Z.min x y) z) ltac:(lia) ltac:(lia)). lia.
Qed.

Lemma dle_not a x b y : ~ dle a x b y -> dle b y a x.
Proof.
  intros H. apply dle_intro with (Z.min x y); [lia..|].
  destruct (Z_le_gt_dec (b * 2 ^ (y - Z.min x y)) (a * 2 ^ (x - Z.min x y))); [assumption|].
  exfalso. apply H. apply dle_intro with (Z.min x y); lia.
Qed.

(** On canonical floats the comparison of the library is the comparison
    of the values. *)
Lemma SFcompare_canonical ma ea mb eb :
  canonical (Zpos ma) ea -> canonical (Zpos mb) eb ->
  SFcompare (S754_finite false ma ea) (S754_finite false mb eb) =
  Some (Zpos ma * 2 ^ (ea - Z.min ea eb) ?= Zpos mb * 2 ^ (eb - Z.min ea eb)).
Proof.
  intros Ha Hb. simpl.
  destruct (canonical_bounds _ _ Ha) as (Hma & Hea & Hna).
  destruct (canonical_bounds _ _ Hb) as (Hmb & Heb & Hnb).
  f_equal. destruct (Z.compare_spec ea eb) as [E|E|E].
  - subst eb. rewrite Z.min_id, Z.sub_diag. simpl Z.pow. rewrite !Z.mul_1_r.
    rewrite Pos.compare_cont_spec. simpl. destruct (ma ?= mb)%positive; reflexivity.
  - symmetry. apply Z.compare_lt_iff.
    replace (Z.min ea eb) with ea by lia. rewrite Z.sub_diag. simpl Z.pow.
    assert (2 <= 2 ^ (eb - ea)).
    { replace 2 with (2 ^ 1) at 1 by reflexivity. apply Z.pow_le_mono_r; lia. }
    specialize (Hnb ltac:(lia)).
    assert (2 ^ 53 <= Z.pos mb * 2 ^ (eb - ea)).
    { replace (2 ^ 53) with (2 ^ 52 * 2) by reflexivity. nia. }
    lia.
  - symmetry. apply Z.compare_gt_iff.
    replace (Z.min ea eb) with eb by lia. rewrite Z.sub_diag. simpl Z.pow.
    assert (2 <= 2 ^ (ea - eb)).
    { replace 2 with (2 ^ 1) at 1 by reflexivity. apply Z.pow_le_mono_r; lia. }
    specialize (Hna ltac:(lia)).
    assert (2 ^ 53 <= Z.pos ma * 2 ^ (ea - eb)).
    { replace (2 ^ 53) with (2 ^ 52 * 2) by reflexivity. nia. }
    lia.
Qed.

Lemma SFltb_canonical ma ea mb eb :
  canonical (Zpos ma) ea -> canonical (Zpos mb) eb ->
  SFltb (S754_finite false ma ea) (S754_finite false mb eb) = false <->
  dle (Zpos mb) eb (Zpos ma) ea.
Proof.
  intros Ha Hb. unfold SFltb. rewrite SFcompare_canonical by assumption.
  split.
  - intros H. apply dle_intro with (Z.min ea eb); [lia..|].
    destruct (Z.compare_spec (Z.pos ma * 2 ^ (ea - Z.min ea eb))
                (Z.pos mb * 2 ^ (eb - Z.min ea eb))); try discriminate; lia.
  - intros H. specialize (H (Z.min ea eb) ltac:(lia) ltac:(lia)).
    destruct (Z.compare_spec (Z.pos ma * 2 ^ (ea - Z.min ea eb))
                (Z.pos mb * 2 ^ (eb - Z.min ea eb))); try reflexivity; lia.
Qed.

Lemma SFltb_canonical_true ma ea mb eb :
  canonical (Zpos ma) ea -> canonical (Zpos mb) eb ->
  SFltb (S754_finite false ma ea) (S754_finite false mb eb) = true ->
  dle (Zpos ma) ea (Zpos mb) eb.
Proof.
  intros Ha Hb. unfold SFltb. rewrite SFcompare_canonical by assumption.
  intros H. apply dle_intro with (Z.min ea eb); [lia..|].
  destruct (Z.compare_spec (Z.pos ma * 2 ^ (ea - Z.min ea eb))
              (Z.pos mb * 2 ^ (eb - Z.min ea eb))); try discriminate; lia.
Qed.

(** Canonical floats with the same value are the same float. *)
Lemma canonical_unique ma ea mb eb :
  canonical (Zpos ma) ea -> canonical (Zpos mb) eb ->
  dle (Zpos ma) ea (Zpos mb) eb -> dle (Zpos mb) eb (Zpos ma) ea ->
  S754_finite false ma ea = S754_finite false mb eb.
Proof.
  intros Ha Hb H1 H2.
  pose proof (SFcompare_canonical ma ea mb eb Ha Hb) as Hc.
  specialize (H1 (Z.min ea eb) ltac:(lia) ltac:(lia)).
  specialize (H2 (Z.min ea eb) ltac:(lia) ltac:(lia)).
  replace (_ ?= _) with Eq in Hc by (symmetry; apply Z.compare_eq_iff; lia).
  simpl in Hc. injection Hc as Hc.
  destruct (Z.compare_spec ea eb) as [E|E|E]; try discriminate.
  subst eb. rewrite Pos.compare_cont_spec in Hc.
  destruct (ma ?= mb)%positive eqn:Ec; try discriminate.
  apply Pos.compare_eq in Ec. subst. reflexivity.
Qed.

Lemma valid_canonical s m e :
  F64.valid (S754_finite s m e) <-> canonical (Zpos m) e /\ e <= 971.
Proof.
  unfold F64.valid, valid_binary, bounded, canonical_mantissa, canonical.
  rewrite andb_true_iff, Z.eqb_eq, Z.leb_le. simpl Zdigits2.
  change (F64.emax - F64.prec) with 971. intuition lia.
Qed.

Lemma Zdigits2_mul_pow m k : 0 < m -> 0 <= k ->
  Zdigits2 (m * 2 ^ k) = Zdigits2 m + k.
Proof.
  intros Hm Hk. pose proof (Zdigits2_bounds m Hm) as [Hl Hu].
  pose proof (Zdigits2_pos m Hm). pose proof (pow2_pos k Hk).
  apply Zdigits2_unique; [lia|].
  replace (Zdigits2 m + k - 1) with ((Zdigits2 m - 1) + k) by lia.
  rewrite !Z.pow_add_r by lia. nia.
Qed.

Lemma binary_round_located s m e :
  binary_round F64.prec F64.emax s m e =
  round_located s (Zpos m * 2 ^ (e - round_exp (Zpos m) e)) 1 (round_exp (Zpos m) e).
Proof.
  unfold binary_round, round_exp.
  pose proof (shl_align_spec m e (fexp F64.prec F64.emax (Z.pos (digits2_pos m) + e))) as H.
  destruct (shl_align m e _) as [mz ez]. destruct H as [He Hm].
  change (Z.pos (digits2_pos m)) with (Zdigits2 (Z.pos m)) in *.
  rewrite <- He, <- Hm.
  rewrite <- (binary_round_aux_located s (Zpos mz) 1 ez) by lia.
  rewrite Z.div_1_r, location_of_exact. reflexivity.
Qed.

Lemma round_enough m e : 0 < m ->
  round_exp m e <=
  fexp F64.prec F64.emax
    (Zdigits2 (m * 2 ^ (e - round_exp m e) / 1) + round_exp m e).
Proof.
  intros Hm. rewrite Z.div_1_r.
  rewrite Zdigits2_mul_pow by (unfold round_exp; lia).
  replace (Zdigits2 m + (e - round_exp m e) + round_exp m e) with (Zdigits2 m + e) by lia.
  unfold round_exp. lia.
Qed.

Lemma SFadd_pos mx ex my ey :
  let ez := Z.min ex ey in
  let S := Zpos mx * 2 ^ (ex - ez) + Zpos my * 2 ^ (ey - ez) in
  SFadd F64.prec F64.emax (S754_finite false mx ex) (S754_finite false my ey) =
  round_located false (S * 2 ^ (ez - round_exp S ez)) 1 (round_exp S ez).
Proof.
  intros ez S. unfold SFadd. fold ez.
  pose proof (shl_align_spec mx ex ez) as Hx.
  pose proof (shl_align_spec my ey ez) as Hy.
  destruct (shl_align mx ex ez) as [mx' ex']. destruct (shl_align my ey ez) as [my' ey'].
  destruct Hx as [Hex Hmx]. destruct Hy as [Hey Hmy]. simpl fst. simpl cond_Zopp.
  replace ex' with ez in Hmx by (unfold ez in *; lia).
  replace ey' with ez in Hmy by (unfold ez in *; lia).
  change (Z.pos mx' + Z.pos my') with (Z.pos (mx' + my')).
  unfold binary_normalize. rewrite binary_round_located.
  replace (Z.pos (mx' + my')) with S by (unfold S; lia). reflexivity.
Qed.

(** ** Bounds of a rounded value *)

Lemma round_shape s N D e : 0 <= N -> 0 < D ->
  e <= fexp F64.prec F64.emax (Zdigits2 (N / D) + e) ->
  match round_located s N D e with
  | S754_zero s' | S754_infinity s' => s' = s
  | S754_finite s' p ep => s' = s /\ canonical (Zpos p) ep /\ ep <= 971
  | S754_nan => False
  end.
Proof.
  intros HN HD He.
  pose proof (round_located_canonical s N D e HN HD He) as Hc.
  pose proof (round_located_not_nan s N D e HN HD) as Hn.
  destruct (round_located s N D e) as [s'|s'| |s' p ep] eqn:E;
    [| |congruence|apply (Hc p ep s'); reflexivity];
    unfold round_located in E;
    match type of E with match ?x with _ => _ end = _ => destruct x end;
    try discriminate; try congruence;
    match type of E with (if ?b then _ else _) = _ => destruct b end;
    congruence.
Qed.

Lemma round_upper s N D e mb eb : 0 <= N -> 0 < D ->
  e <= fexp F64.prec F64.emax (Zdigits2 (N / D) + e) ->
  canonical mb eb -> eb <= 971 -> dle N e (mb * D) eb ->
  match round_located s N D e with
  | S754_zero s' => s' = s
  | S754_finite s' p ep =>
      s' = s /\ canonical (Zpos p) ep /\ ep <= 971 /\ dle (Zpos p) ep mb eb
  | _ => False
  end.
Proof.
  intros HN HD He Hcan Heb Hle.
  pose proof (round_located_upper s N D e HN HD He mb eb (Z.min e eb) Hcan
                ltac:(lia) ltac:(lia) (Hle (Z.min e eb) ltac:(lia) ltac:(lia)) Heb) as Hu.
  pose proof (round_shape s N D e HN HD He) as Hs.
  destruct (round_located s N D e); auto.
  destruct Hu as (-> & Hv & Hc). destruct Hs as (_ & Hcp & Hep).
  split; [reflexivity|]. split; [exact Hcp|]. split; [exact Hep|].
  eapply dle_intro; [| |exact Hv]; lia.
Qed.

Lemma round_lower s N D e mb eb : 0 <= N -> 0 < D ->
  e <= fexp F64.prec F64.emax (Zdigits2 (N / D) + e) ->
  canonical mb eb -> dle (mb * D) eb N e ->
  match round_located s N D e with
  | S754_infinity s' => s' = s
  | S754_finite s' p ep =>
      s' = s /\ canonical (Zpos p) ep /\ ep <= 971 /\ dle mb eb (Zpos p) ep
  | _ => False
  end.
Proof.
  intros HN HD He Hcan Hle.
  pose proof (round_located_lower s N D e HN HD He mb eb (Z.min e eb) Hcan
                ltac:(lia) ltac:(lia) (Hle (Z.min e eb) ltac:(lia) ltac:(lia))) as Hu.
  pose proof (round_shape s N D e HN HD He) as Hs.
  destruct (round_located s N D e); auto.
  destruct Hu as (-> & Hv & Hc). destruct Hs as (_ & Hcp & Hep).
  split; [reflexivity|]. split; [exact Hcp|]. split; [exact Hep|].
  eapply dle_intro; [| |exact Hv]; lia.
Qed.

(** The value of the dividend and exponent of the division core is the
    quotient of the values. *)
Lemma div_num_nonneg m1 e1 m2 e2 : 0 < m1 -> 0 <= div_num m1 e1 m2 e2.
Proof.
  intros. unfold div_num. apply Z.mul_nonneg_nonneg; [lia|]. apply Z.pow_nonneg; lia.
Qed.

Lemma div_exp_le m1 e1 m2 e2 : div_exp m1 e1 m2 e2 <= e1 - e2.
Proof. unfold div_exp. lia. Qed.

Lemma div_dle_upper m1 e1 m2 e2 b eb :
  dle m1 e1 b (eb + e2) ->
  dle (div_num m1 e1 m2 e2) (div_exp m1 e1 m2 e2) b eb.
Proof.
  intros H. pose proof (div_exp_le m1 e1 m2 e2) as He.
  set (e' := div_exp m1 e1 m2 e2) in *.
  apply dle_intro with (Z.min e' (Z.min eb (e1 - e2))); [lia..|].
  set (c := Z.min e' (Z.min eb (e1 - e2))).
  specialize (H (c + e2) ltac:(lia) ltac:(lia)).
  unfold div_num. fold e'. rewrite <- Z.mul_assoc, <- Z.pow_add_r by lia.
  replace (e1 - e2 - e' + (e' - c)) with (e1 - (c + e2)) by lia.
  replace (eb - c) with (eb + e2 - (c + e2)) by lia. exact H.
Qed.

Lemma div_dle_lower m1 e1 m2 e2 b eb :
  dle b (eb + e2) m1 e1 ->
  dle b eb (div_num m1 e1 m2 e2) (div_exp m1 e1 m2 e2).
Proof.
  intros H. pose proof (div_exp_le m1 e1 m2 e2) as He.
  set (e' := div_exp m1 e1 m2 e2) in *.
  apply dle_intro with (Z.min e' (Z.min eb (e1 - e2))); [lia..|].
  set (c := Z.min e' (Z.min eb (e1 - e2))).
  specialize (H (c + e2) ltac:(lia) ltac:(lia)).
  unfold div_num. fold e'. rewrite <- Z.mul_assoc, <- Z.pow_add_r by lia.
  replace (e1 - e2 - e' + (e' - c)) with (e1 - (c + e2)) by lia.
  replace (eb - c) with (eb + e2 - (c + e2)) by lia. exact H.
Qed.

Lemma dle_mul_r a x b y k : 0 <= k -> dle a x b y -> dle (a * k) x (b * k) y.
Proof.
  intros Hk H c Hx Hy. specialize (H c Hx Hy).
  rewrite (Z.mul_comm a k), (Z.mul_comm b k), <- !Z.mul_assoc.
  apply Z.mul_le_mono_nonneg_l; lia.
Qed.

Lemma dle_shift a x b y k : dle a x b y -> dle a (x + k) b (y + k).
Proof.
  intros H. apply dle_intro with (Z.min x y + k); [lia..|].
  specialize (H (Z.min x y) ltac:(lia) ltac:(lia)).
  replace (x + k - (Z.min x y + k)) with (x - Z.min x y) by lia.
  replace (y + k - (Z.min x y + k)) with (y - Z.min x y) by lia. exact H.
Qed.

(** ** The steps of the risk score *)

Lemma of_int_100 : F64.of_int 100 = Ok hundred.
Proof. reflexivity. Qed.
Lemma of_int_50 : F64.of_int 50 = Ok fifty.
Proof. reflexivity. Qed.
Lemma one_eq : F64.one = S754_finite false 4503599627370496 (-52).
Proof. reflexivity. Qed.

Lemma canonical_dec m e :
  (0 <? m) && (fexp F64.prec F64.emax (Zdigits2 m + e) =? e) = true ->
  canonical m e.
Proof. rewrite andb_true_iff, Z.ltb_lt, Z.eqb_eq. intros []. split; assumption. Qed.

Lemma dle_dec a x b y :
  (a * 2 ^ (x - Z.min x y) <=? b * 2 ^ (y - Z.min x y)) = true -> dle a x b y.
Proof. rewrite Z.leb_le. apply dle_intro; lia. Qed.

Lemma leb_zero_nonneg u : F64.valid u -> F64.leb F64.zero u = true -> nonneg u.
Proof.
  destruct u as [s|s| |s m e]; simpl; auto.
  - destruct s; [discriminate|auto].
  - discriminate.
  - intros Hv. destruct s; [discriminate|]. intros _. apply valid_canonical in Hv. exact Hv.
Qed.

Lemma div_hundred_nonneg u : nonneg u -> nonneg (F64.div u hundred).
Proof.
  intros H. destruct u as [s|s| |s m e]; cbn [nonneg] in H.
  - destruct s; exact I.
  - destruct s; [tauto | exact I].
  - tauto.
  - destruct s; [tauto|]. destruct H as [Hc He].
    unfold F64.div, hundred. rewrite SFdiv_finite. cbn [xorb].
    pose proof (round_shape false
                  (div_num (Zpos m) e 7036874417766400 (-46)) 7036874417766400
                  (div_exp (Zpos m) e 7036874417766400 (-46))
                  (div_num_nonneg (Zpos m) e 7036874417766400 (-46) ltac:(lia))
                  ltac:(lia)
                  (div_enough (Zpos m) e 7036874417766400 (-46) ltac:(lia) ltac:(lia)))
      as Hs.
    destruct (round_located _ _ _ _) as [s'|s'| |s' p ep]; cbn [nonneg]; auto.
    + subst s'. auto.
    + destruct Hs as (-> & H1 & H2). auto.
Qed.

Lemma min_one_le q : nonneg q -> nonneg_le (F64.min q F64.one) 4503599627370496 (-52).
Proof.
  rewrite one_eq. unfold F64.min, F64.ltb.
  assert (Hone : canonical 4503599627370496 (-52)) by (apply canonical_dec; vm_compute; reflexivity).
  intros H. destruct q as [s|s| |s m e]; cbn [nonneg] in H.
  - destruct s; exact I.
  - destruct s; [tauto|]. cbn.
    split; [exact Hone|]. split; [lia | apply dle_refl].
  - tauto.
  - destruct s; [tauto|]. destruct H as [Hc He].
    destruct (SFltb _ _) eqn:E; cbn [nonneg_le].
    + split; [exact Hone|]. split; [lia | apply dle_refl].
    + split; [exact Hc|]. split; [exact He|].
      apply (SFltb_canonical _ _ _ _ Hone Hc). exact E.
Qed.

Lemma mul_fifty_le m : nonneg_le m 4503599627370496 (-52) ->
  nonneg_le (F64.mul m fifty) 7036874417766400 (-47).
Proof.
  intros H. destruct m as [s|s| |s p e]; cbn [nonneg_le] in H.
  - exact I.
  - tauto.
  - tauto.
  - destruct s; [tauto|]. destruct H as (Hc & He & Hle).
    unfold F64.mul, fifty. rewrite SFmul_finite. cbn [xorb].
    assert (H50 : canonical 7036874417766400 (-47)) by (apply canonical_dec; vm_compute; reflexivity).
    pose proof (round_upper false (Zpos p * 7036874417766400) 1 (e + -47)
                  7036874417766400 (-47) ltac:(lia) ltac:(lia)
                  (mul_enough _ _ _ _ Hc H50) H50 ltac:(lia)) as Hu.
    assert (Hd : dle (Z.pos p * 7036874417766400) (e + -47) (7036874417766400 * 1) (-47)).
    { rewrite Z.mul_1_r.
      apply dle_trans with (4503599627370496 * 7036874417766400) (-52 + -47).
      - apply dle_shift, dle_mul_r; [lia | exact Hle].
      - (apply dle_dec; vm_compute; reflexivity). }
    specialize (Hu Hd).
    destruct (round_located _ _ _ _) as [s'|s'| |s' q eq]; cbn [nonneg_le]; auto.
    destruct Hu as (-> & ? & ? & ?). auto.
Qed.

Lemma sum_scaled a x b y c : c <= Z.min x y ->
  (a * 2 ^ (x - Z.min x y) + b * 2 ^ (y - Z.min x y)) * 2 ^ (Z.min x y - c)
  = a * 2 ^ (x - c) + b * 2 ^ (y - c).
Proof.
  intros Hc. rewrite Z.mul_add_distr_r, <- !Z.mul_assoc, <- !Z.pow_add_r by lia.
  f_equal; f_equal; f_equal; lia.
Qed.

Lemma round_exp_le m e : round_exp m e <= e.
Proof. unfold round_exp. lia. Qed.

(** Adding a positive float [E <= 50] to a score in [0, 50]. *)
Lemma add_expiry util mE eE :
  nonneg_le util 7036874417766400 (-47) ->
  canonical (Zpos mE) eE -> eE <= 971 ->
  dle (Zpos mE) eE 7036874417766400 (-47) ->
  match F64.add util (S754_finite false mE eE) with
  | S754_finite false p ep =>
      canonical (Zpos p) ep /\ ep <= 971 /\
      dle (Zpos mE) eE (Zpos p) ep /\ dle (Zpos p) ep 7036874417766400 (-46)
  | _ => False
  end.
Proof.
  intros H HcE HeE HE50.
  assert (H50_100 : dle 7036874417766400 (-47) 7036874417766400 (-46)) by (apply dle_dec; vm_compute; reflexivity).
  destruct util as [s|s| |s p e]; cbn [nonneg_le] in H; try tauto.
  - cbn. split; [exact HcE|]. split; [exact HeE|]. split; [apply dle_refl|].
    eapply dle_trans; eassumption.
  - destruct s; [tauto|]. destruct H as (Hc & He & Hle).
    unfold F64.add. rewrite SFadd_pos.
    set (ez := Z.min e eE).
    set (S := Z.pos p * 2 ^ (e - ez) + Z.pos mE * 2 ^ (eE - ez)).
    assert (HS : 0 < S).
    { unfold S. pose proof (pow2_pos (e - ez) ltac:(unfold ez; lia)).
      pose proof (pow2_pos (eE - ez) ltac:(unfold ez; lia)). nia. }
    pose proof (round_exp_le S ez) as Hre.
    set (e' := round_exp S ez) in *.
    assert (HN : 0 <= S * 2 ^ (ez - e'))
      by (pose proof (pow2_pos (ez - e') ltac:(lia)); nia).
    pose proof (round_enough S ez HS) as Hen. fold e' in Hen.
    assert (H100 : canonical 7036874417766400 (-46)) by (apply canonical_dec; vm_compute; reflexivity).
    pose proof (round_upper false (S * 2 ^ (ez - e')) 1 e' 7036874417766400 (-46)
                  HN ltac:(lia) Hen H100 ltac:(lia)) as Hu.
    pose proof (round_lower false (S * 2 ^ (ez - e')) 1 e' (Zpos mE) eE
                  HN ltac:(lia) Hen HcE) as Hl.
    assert (Hup : dle (S * 2 ^ (ez - e')) e' (7036874417766400 * 1) (-46)).
    { rewrite Z.mul_1_r. set (c := Z.min e' (-47)).
      apply dle_intro with c; [unfold c; lia..|].
      rewrite <- Z.mul_assoc, <- Z.pow_add_r by (unfold c; lia).
      replace (ez - e' + (e' - c)) with (ez - c) by lia.
      unfold S, ez. rewrite sum_scaled by (unfold c, ez in *; lia).
      specialize (Hle c ltac:(unfold c, ez in *; lia) ltac:(unfold c; lia)).
      specialize (HE50 c ltac:(unfold c, ez in *; lia) ltac:(unfold c; lia)).
      replace (-46 - c) with (1 + (-47 - c)) by lia.
      rewrite Z.pow_add_r by (unfold c; lia). change (2 ^ 1) with 2. lia. }
    assert (Hlo : dle (Z.pos mE * 1) eE (S * 2 ^ (ez - e')) e').
    { rewrite Z.mul_1_r. apply dle_intro with e'; [unfold ez in *; lia | lia |].
      rewrite Z.sub_diag, Z.mul_1_r.
      replace (eE - e') with ((eE - ez) + (ez - e')) by lia.
      rewrite Z.pow_add_r by (unfold ez in *; lia). rewrite Z.mul_assoc.
      apply Z.mul_le_mono_nonneg_r; [apply Z.pow_nonneg; lia|].
      unfold S. pose proof (pow2_pos (e - ez) ltac:(unfold ez; lia)). nia. }
    specialize (Hu Hup). specialize (Hl Hlo).
    destruct (round_located _ _ _ _) as [s'|s'| |s' q eq]; try tauto.
    destruct Hu as (-> & Hcq & Heq & Hq100). destruct Hl as (_ & _ & _ & HqE).
    auto.
Qed.

Lemma to_int_bounds p ep lo hi :
  dle lo 0 (Zpos p) ep -> dle (Zpos p) ep hi 0 ->
  exists k, F64.to_int (S754_finite false p ep) = Ok k /\
            F64.floor (S754_finite false p ep) = Ok k /\ lo <= k <= hi.
Proof.
  intros Hlo Hhi. unfold F64.to_int, F64.floor.
  destruct (Z.leb_spec 0 ep) as [He|He].
  - eexists; split; [reflexivity|]. split; [reflexivity|].
    specialize (Hlo 0 ltac:(lia) He). specialize (Hhi 0 He ltac:(lia)).
    rewrite !Z.sub_0_r, Z.pow_0_r in Hlo, Hhi. lia.
  - eexists; split; [reflexivity|]. split; [reflexivity|].
    specialize (Hlo ep ltac:(lia) ltac:(lia)). specialize (Hhi ep ltac:(lia) ltac:(lia)).
    rewrite Z.sub_diag in *. replace (0 - ep) with (- ep) in * by lia.
    rewrite Z.mul_1_r in *. pose proof (pow2_pos (- ep) ltac:(lia)).
    split.
    + apply Z.div_le_lower_bound; lia.
    + apply Z.div_le_upper_bound; lia.
Qed.

Lemma expiry_score_cases d :
  expiry_score d = 50 \/ expiry_score d = 30 \/ expiry_score d = 15 \/ expiry_score d = 5.
Proof.
  unfold expiry_score.
  destruct (d <=? 30); [auto|]. destruct (d <=? 90); [auto|].
  destruct (d <=? 365); auto.
Qed.

Lemma int_min_le a b : a <= b -> int_min a b = a.
Proof. unfold int_min. intros. destruct (Z.ltb_spec b a); lia. Qed.

(** On a non-negative utilization the risk score is computed without an
    exception and lies between the expiry score and 100; [int] and
    [math.floor] agree on the sum. *)
Lemma risk_score_nonneg u d : F64.valid u -> F64.leb F64.zero u = true ->
  exists util_score s k,
    float_mul_int (F64.min (F64.div u hundred) F64.one) 50 = Ok util_score /\
    F64.leb F64.zero util_score = true /\
    float_add_int util_score (expiry_score d) = Ok s /\
    F64.to_int s = Ok k /\ F64.floor s = Ok k /\
    expiry_score d <= k <= 100 /\
    calculate_risk_score u d = Ok k.
Proof.
  intros Hv Hu.
  pose proof (mul_fifty_le _ (min_one_le _ (div_hundred_nonneg u (leb_zero_nonneg u Hv Hu)))) as Hm.
  unfold calculate_risk_score, float_div_int, float_mul_int, float_add_int.
  rewrite of_int_100, of_int_50. cbn [mbind result_bind hundred].
  fold hundred. fold fifty.
  set (util := F64.mul (F64.min (F64.div u hundred) F64.one) fifty) in *.
  assert (Hadd : forall z mE eE, F64.of_int z = Ok (S754_finite false mE eE) ->
            canonical (Zpos mE) eE -> eE <= 971 ->
            dle (Zpos mE) eE 7036874417766400 (-47) ->
            dle z 0 (Zpos mE) eE ->
            exists s k, (y ← F64.of_int z; Ok (F64.add util y)) = Ok s /\
              F64.to_int s = Ok k /\ F64.floor s = Ok k /\ z <= k <= 100).
  { intros z mE eE Ez Hc He H50 Hz. rewrite Ez. cbn [mbind result_bind].
    pose proof (add_expiry util mE eE Hm Hc He H50) as Ha.
    destruct (F64.add util _) as [s'|s'| |s' q eq]; try tauto.
    destruct s'; [tauto|]. destruct Ha as (Hcq & Heq & HqE & Hq100).
    destruct (to_int_bounds q eq z 100) as (k & Hk & Hf & Hb).
    - eapply dle_trans; eassumption.
    - eapply dle_trans; [exact Hq100|]. (apply dle_dec; vm_compute; reflexivity).
    - exists (S754_finite false q eq), k. auto. }
  assert (Hex : exists s k, (y ← F64.of_int (expiry_score d); Ok (F64.add util y)) = Ok s /\
              F64.to_int s = Ok k /\ F64.floor s = Ok k /\ expiry_score d <= k <= 100).
  { destruct (expiry_score_cases d) as [E|[E|[E|E]]]; rewrite E.
    - apply (Hadd 50 7036874417766400%positive (-47)); [reflexivity | (apply canonical_dec; vm_compute; reflexivity) | lia | (apply dle_dec; vm_compute; reflexivity)..].
    - apply (Hadd 30 8444249301319680%positive (-48)); [reflexivity | (apply canonical_dec; vm_compute; reflexivity) | lia | (apply dle_dec; vm_compute; reflexivity)..].
    - apply (Hadd 15 8444249301319680%positive (-49)); [reflexivity | (apply canonical_dec; vm_compute; reflexivity) | lia | (apply dle_dec; vm_compute; reflexivity)..].
    - apply (Hadd 5 5629499534213120%positive (-50)); [reflexivity | (apply canonical_dec; vm_compute; reflexivity) | lia | (apply dle_dec; vm_compute; reflexivity)..]. }
  destruct Hex as (s & k & Hs & Hk & Hf & Hb).
  exists util, s, k. split; [reflexivity|].
  split; [clear -Hm; destruct util as [[]|[]| |[] ? ?]; cbn in Hm; try contradiction; reflexivity|].
  split; [exact Hs|].
  split; [exact Hk|]. split; [exact Hf|]. split; [exact Hb|].
  rewrite Hs. cbn [mbind result_bind]. rewrite Hk. cbn [mbind result_bind].
  rewrite int_min_le by lia. reflexivity.
Qed.

(** ** The cap of the utilization commutes with the division *)

Lemma round_located_sign s N D e :
  match round_located s N D e with
  | S754_zero s' | S754_infinity s' | S754_finite s' _ _ => s' = s
  | S754_nan => True
  end.
Proof.
  unfold round_located.
  match goal with |- context [match ?x with Z0 => _ | _ => _ end] => destruct x end;
    try reflexivity; try exact I.
  match goal with |- context [if ?b then _ else _] => destruct b end; reflexivity.
Qed.

(** [min(u / 100, 1.0)] is [min(u, 100) / 100]: the division is monotone
    and exact at 100. *)
Lemma min_div_hundred u : F64.valid u ->
  F64.min (F64.div u hundred) F64.one = F64.div (F64.min u hundred) hundred.
Proof.
  intros Hv. rewrite one_eq.
  assert (Hone : canonical 4503599627370496 (-52)) by (apply canonical_dec; vm_compute; reflexivity).
  assert (H100 : canonical 7036874417766400 (-46)) by (apply canonical_dec; vm_compute; reflexivity).
  destruct u as [s|s| |s m e].
  - destruct s; reflexivity.
  - destruct s; reflexivity.
  - reflexivity.
  - apply valid_canonical in Hv. destruct Hv as [Hc He].
    destruct s.
    + (* a negative number is below both bounds *)
      replace (F64.min (S754_finite true m e) hundred) with (S754_finite true m e)
        by reflexivity.
      unfold F64.div, hundred. rewrite SFdiv_finite. cbn [xorb].
      pose proof (round_located_sign true (div_num (Z.pos m) e 7036874417766400 (-46))
                    7036874417766400 (div_exp (Z.pos m) e 7036874417766400 (-46))) as Hs.
      destruct (round_located _ _ _ _) as [s'|s'| |s' p ep]; try subst s'; reflexivity.
    + set (N := div_num (Z.pos m) e 7036874417766400 (-46)).
      set (e' := div_exp (Z.pos m) e 7036874417766400 (-46)).
      assert (HN : 0 <= N) by (apply div_num_nonneg; lia).
      pose proof (div_enough (Zpos m) e 7036874417766400 (-46) ltac:(lia) ltac:(lia)) as Hen.
      fold N e' in Hen.
      assert (Hq : F64.div (S754_finite false m e) hundred
                   = round_located false N 7036874417766400 e')
        by (unfold F64.div, hundred; rewrite SFdiv_finite; reflexivity).
      destruct (F64.ltb hundred (S754_finite false m e)) eqn:Elt;
        unfold F64.min at 2; rewrite Elt; unfold F64.ltb, hundred in Elt.
      * (* 100 < u: the quotient is at least 1 *)
        apply (SFltb_canonical_true _ _ _ _ H100 Hc) in Elt.
        replace (F64.div hundred hundred) with (S754_finite false 4503599627370496 (-52))
          by reflexivity.
        rewrite Hq.
        pose proof (round_lower false N 7036874417766400 e' 4503599627370496 (-52)
                      HN ltac:(lia) Hen Hone) as Hl.
        assert (Hd : dle (4503599627370496 * 7036874417766400) (-52) N e').
        { apply div_dle_lower.
          eapply dle_trans; [|exact Elt]. (apply dle_dec; vm_compute; reflexivity). }
        specialize (Hl Hd).
        destruct (round_located _ _ _ _) as [s'|s'| |s' p ep];
          cbv beta iota in Hl; try contradiction.
        -- subst s'. reflexivity.
        -- destruct Hl as (-> & Hcp & Hep & Hge).
           unfold F64.min, F64.ltb. destruct (SFltb _ _) eqn:E1; [reflexivity|].
           apply (SFltb_canonical _ _ _ _ Hone Hcp) in E1.
           apply canonical_unique; assumption.
      * (* u <= 100: the quotient is at most 1 *)
        apply (SFltb_canonical _ _ _ _ H100 Hc) in Elt.
        rewrite Hq.
        pose proof (round_upper false N 7036874417766400 e' 4503599627370496 (-52)
                      HN ltac:(lia) Hen Hone ltac:(lia)) as Hu.
        assert (Hd : dle N e' (4503599627370496 * 7036874417766400) (-52)).
        { apply div_dle_upper.
          eapply dle_trans; [exact Elt|]. (apply dle_dec; vm_compute; reflexivity). }
        specialize (Hu Hd).
        destruct (round_located _ _ _ _) as [s'|s'| |s' p ep];
          cbv beta iota in Hu; try contradiction.
        -- subst s'. reflexivity.
        -- destruct Hu as (-> & Hcp & Hep & Hle).
           unfold F64.min, F64.ltb.
           apply (SFltb_canonical _ _ _ _ Hone Hcp) in Hle. rewrite Hle. reflexivity.
Qed.

(** ** The quotient of two integers *)

Lemma round_ratio_in_range s n d : Zpos n <= max_double * Zpos d ->
  match F64.round_ratio s n d with
  | S754_zero s' => s' = s
  | S754_finite s' p ep => s' = s /\ canonical (Zpos p) ep /\ ep <= 971
  | _ => False
  end.
Proof.
  intros H. rewrite round_ratio_located.
  assert (Hmax : canonical (2 ^ 53 - 1) 971) by (apply canonical_dec; vm_compute; reflexivity).
  pose proof (round_upper s (div_num (Zpos n) 0 (Zpos d) 0) (Zpos d)
                (div_exp (Zpos n) 0 (Zpos d) 0) (2 ^ 53 - 1) 971
                (div_num_nonneg (Zpos n) 0 (Zpos d) 0 ltac:(lia)) ltac:(lia)
                (div_enough (Zpos n) 0 (Zpos d) 0 ltac:(lia) ltac:(lia)) Hmax ltac:(lia)) as Hu.
  assert (Hd : dle (div_num (Z.pos n) 0 (Z.pos d) 0) (div_exp (Z.pos n) 0 (Z.pos d) 0)
                 ((2 ^ 53 - 1) * Z.pos d) 971).
  { apply div_dle_upper. apply dle_intro with 0; [lia..|].
    rewrite Z.sub_diag, Z.pow_0_r, Z.mul_1_r. unfold max_double in H.
    replace (971 + 0 - 0) with 971 by lia. lia. }
  specialize (Hu Hd).
  destruct (round_located _ _ _ _) as [s'|s'| |s' p ep]; try tauto.
Qed.

Lemma round_ratio_positive s n d : Zpos d <= 8 * Zpos n ->
  match F64.round_ratio s n d with
  | S754_infinity s' | S754_finite s' _ _ => s' = s
  | _ => False
  end.
Proof.
  intros H. rewrite round_ratio_located.
  assert (Hmin : canonical 4503599627370496 (-55)) by (apply canonical_dec; vm_compute; reflexivity).
  pose proof (round_lower s (div_num (Zpos n) 0 (Zpos d) 0) (Zpos d)
                (div_exp (Zpos n) 0 (Zpos d) 0) 4503599627370496 (-55)
                (div_num_nonneg (Zpos n) 0 (Zpos d) 0 ltac:(lia)) ltac:(lia)
                (div_enough (Zpos n) 0 (Zpos d) 0 ltac:(lia) ltac:(lia)) Hmin) as Hl.
  assert (Hd : dle (4503599627370496 * Z.pos d) (-55)
                 (div_num (Z.pos n) 0 (Z.pos d) 0) (div_exp (Z.pos n) 0 (Z.pos d) 0)).
  { apply div_dle_lower. apply dle_intro with (-55); [lia..|].
    replace (-55 + 0 - -55) with 0 by lia. replace (0 - -55) with 55 by lia.
    rewrite Z.pow_0_r, Z.mul_1_r.
    replace (2 ^ 55) with (4503599627370496 * 8) by reflexivity. lia. }
  specialize (Hl Hd).
  destruct (round_located _ _ _ _) as [s'|s'| |s' p ep]; try tauto.
Qed.

(** [a / b] returns whenever the quotient is within the range of a double. *)
Lemma truediv_returns a b : 0 < b -> Z.abs a <= max_double * b ->
  exists q, F64.truediv a b = Ok q /\ F64.valid q.
Proof.
  intros Hb Ha. unfold F64.truediv.
  destruct b as [|b|b]; try lia.
  destruct a as [|a|a].
  - eexists; split; reflexivity.
  - pose proof (round_ratio_in_range (xorb (Z.pos a <? 0) (Z.pos b <? 0)) a b ltac:(lia)) as H.
    change (Z.to_pos (Z.abs (Z.pos a))) with a. change (Z.to_pos (Z.abs (Z.pos b))) with b.
    destruct (F64.round_ratio _ a b) as [s'|s'| |s' p ep]; try tauto.
    + eexists; split; reflexivity.
    + eexists; split; [reflexivity|]. apply valid_canonical. tauto.
  - pose proof (round_ratio_in_range (xorb (Z.neg a <? 0) (Z.pos b <? 0)) a b ltac:(lia)) as H.
    change (Z.to_pos (Z.abs (Z.neg a))) with a. change (Z.to_pos (Z.abs (Z.pos b))) with b.
    destruct (F64.round_ratio _ a b) as [s'|s'| |s' p ep]; try tauto.
    + eexists; split; reflexivity.
    + eexists; split; [reflexivity|]. apply valid_canonical. tauto.
Qed.

(** A positive quotient of integers that is at least 1/8 and within range
    is a positive float. *)
Lemma truediv_positive a b : 0 < a -> 0 < b -> b <= 8 * a -> a <= max_double * b ->
  exists rate, F64.truediv a b = Ok rate /\ F64.leb rate F64.zero = false.
Proof.
  intros Ha Hb Hlo Hhi. unfold F64.truediv.
  destruct b as [|b|b]; try lia. destruct a as [|a|a]; try lia.
  change (Z.to_pos (Z.abs (Z.pos a))) with a. change (Z.to_pos (Z.abs (Z.pos b))) with b.
  change (xorb (Z.pos a <? 0) (Z.pos b <? 0)) with false.
  pose proof (round_ratio_in_range false a b Hhi) as H1.
  pose proof (round_ratio_positive false a b Hlo) as H2.
  destruct (F64.round_ratio false a b) as [s'|s'| |s' p ep];
    cbv beta iota in H1, H2; try contradiction.
  subst s'. eexists; split; reflexivity.
Qed.

(** ** Rounding to two decimal places *)

Lemma div_half_even_nearest N D : 0 <= N -> 0 < D ->
  2 * Z.abs (N - F64.div_half_even N D * D) <= D.
Proof.
  intros HN HD. unfold F64.div_half_even.
  pose proof (Z.div_mod N D ltac:(lia)) as E.
  pose proof (Z.mod_pos_bound N D HD) as B.
  destruct (Z.compare_spec (2 * (N mod D)) D) as [C|C|C];
    [destruct (Z.even (N / D))|..]; nia.
Qed.

(** [round(x, 2)] of a finite float is the double nearest to [k / 100],
    where [k] is an integer nearest to [100 * |x|]. *)
Lemma round2_two_places s m e :
  exists k, 0 <= k /\
    (0 <= e -> k = Zpos m * 2 ^ e * 100) /\
    (e < 0 -> 2 * Z.abs (Zpos m * 100 - k * 2 ^ (- e)) <= 2 ^ (- e)) /\
    F64.round2 (S754_finite s m e)
    = match k with
      | Zpos p => F64.round_ratio s p 100
      | _ => S754_zero s
      end.
Proof.
  exists (F64.scaled_digits 2 m e). unfold F64.round2, F64.scaled_digits.
  change (10 ^ 2) with 100.
  destruct (Z.leb_spec 0 e) as [He|He].
  - split; [|split; [reflexivity|split; [lia|reflexivity]]].
    pose proof (Z.pow_nonneg 2 e ltac:(lia)). nia.
  - assert (0 < 2 ^ (- e)) by (apply Z.pow_pos_nonneg; lia).
    split; [|split; [lia|split; [|reflexivity]]].
    + pose proof (Z.div_pos (Z.pos m * 100) (2 ^ (- e)) ltac:(lia) ltac:(lia)).
      unfold F64.div_half_even.
      destruct (_ ?= _); [destruct (Z.even _)|..]; lia.
    + intros _. apply div_half_even_nearest; lia.
Qed.

(** ** zerto/data.py: utilization and risk score *)

Lemma float_div_int_100 x : float_div_int x 100 = Ok (F64.div x hundred).
Proof. unfold float_div_int. rewrite of_int_100. reflexivity. Qed.

Lemma float_mul_int_100 x : float_mul_int x 100 = Ok (F64.mul x (F64.lit 100 1)).
Proof. unfold float_mul_int. rewrite of_int_100. reflexivity. Qed.

(** Claim C1, amended. When [entitled_vms <= 0] the function returns [0.0].
    When [entitled_vms] is positive and the quotient is within the range of
    a double ([|protected_vms| <= max_double * entitled_vms]), the true
    division returns a float [q] and the function returns
    [round(q * 100, 2)]. For 412 protected of 500 entitled VMs the result
    is the double [82.4]. *)
Theorem utilization_pct_in_range (protected_vms entitled_vms : Z) :
  (entitled_vms <= 0 ->
   calculate_utilization_pct protected_vms entitled_vms = Ok F64.zero) /\
  (0 < entitled_vms -> Z.abs protected_vms <= max_double * entitled_vms ->
   exists q, F64.truediv protected_vms entitled_vms = Ok q /\
     calculate_utilization_pct protected_vms entitled_vms
     = Ok (F64.round2 (F64.mul q (F64.lit 100 1)))) /\
  calculate_utilization_pct 412 500 = Ok (F64.lit 824 10).
Proof.
  split; [|split].
  - intros H. unfold calculate_utilization_pct.
    destruct (Z.leb_spec entitled_vms 0); [reflexivity | lia].
  - intros He Hp. destruct (truediv_returns _ _ He Hp) as (q & Hq & _).
    exists q. split; [exact Hq|]. unfold calculate_utilization_pct.
    destruct (Z.leb_spec entitled_vms 0); [lia|].
    rewrite Hq. cbn [mbind result_bind]. rewrite float_mul_int_100. reflexivity.
  - vm_compute. reflexivity.
Qed.

Lemma utilization_pct_in_range_witness :
  exists q, F64.truediv 412 500 = Ok q /\
    calculate_utilization_pct 412 500 = Ok (F64.round2 (F64.mul q (F64.lit 100 1))).
Proof.
  apply (proj1 (proj2 (utilization_pct_in_range 412 500))).
  - reflexivity.
  - apply Z.leb_le. vm_compute. reflexivity.
Defined.

(** Claim C1 as stated fails: on a quotient beyond the range of a double
    the division raises [OverflowError] and nothing is returned. *)
Lemma utilization_pct_overflow :
  calculate_utilization_pct (2 ^ 1024) 1 = Raise OverflowError.
Proof. vm_compute. reflexivity. Qed.

(** Claim C2, amended. For every float [utilization_pct] the risk score is
    [min(int(min(utilization_pct, 100) / 100 * 50 + expiry_score), 100)],
    where [int] truncates toward zero; for a non-negative
    [utilization_pct] this is the floor the specification writes. For
    82.4 and 180 days the score is 56. *)
Theorem risk_score_formula (utilization_pct : F64.float) (days_to_expiry : Z) :
  F64.valid utilization_pct ->
  calculate_risk_score utilization_pct days_to_expiry
  = risk_score_trunc utilization_pct days_to_expiry /\
  (F64.leb F64.zero utilization_pct = true ->
   calculate_risk_score utilization_pct days_to_expiry
   = risk_score_floor utilization_pct days_to_expiry) /\
  calculate_risk_score (F64.lit 824 10) 180 = Ok 56.
Proof.
  intros Hv. split; [|split].
  - unfold calculate_risk_score, risk_score_trunc.
    rewrite of_int_100. cbn [mbind result_bind]. rewrite !float_div_int_100.
    cbn [mbind result_bind]. rewrite (min_div_hundred _ Hv). reflexivity.
  - intros Hu.
    destruct (risk_score_nonneg utilization_pct days_to_expiry Hv Hu)
      as (util & s & k & Hmul & _ & Hadd & Hint & Hfloor & Hb & Hcalc).
    rewrite Hcalc. unfold risk_score_floor.
    rewrite of_int_100. cbn [mbind result_bind]. rewrite float_div_int_100.
    cbn [mbind result_bind]. rewrite <- (min_div_hundred _ Hv).
    rewrite Hmul. cbn [mbind result_bind]. rewrite Hadd. cbn [mbind result_bind].
    rewrite Hfloor. cbn [mbind result_bind]. rewrite int_min_le by lia. reflexivity.
  - vm_compute. reflexivity.
Qed.

Lemma risk_score_formula_witness :
  calculate_risk_score (F64.lit 824 10) 180 = risk_score_floor (F64.lit 824 10) 180.
Proof.
  apply (proj1 (proj2 (risk_score_formula (F64.lit 824 10) 180 eq_refl))).
  reflexivity.
Defined.

(** Claim C2 as stated fails on a negative utilization: for -25.0 and 400
    days the sum is -7.5, [int] gives -7 and the floor is -8. *)
Lemma risk_score_floor_differs :
  calculate_risk_score (F64.neg (F64.lit 25 1)) 400 = Ok (-7) /\
  risk_score_floor (F64.neg (F64.lit 25 1)) 400 = Ok (-8).
Proof. split; vm_compute; reflexivity. Qed.

(** Claim C4. For a non-negative [utilization_pct] and a non-negative
    [days_to_expiry] the function returns a score in [[0, 100]]. *)
Theorem risk_score_in_range (utilization_pct : F64.float) (days_to_expiry : Z) :
  F64.valid utilization_pct -> F64.leb F64.zero utilization_pct = true ->
  0 <= days_to_expiry ->
  exists score, calculate_risk_score utilization_pct days_to_expiry = Ok score /\
                0 <= score <= 100.
Proof.
  intros Hv Hu _.
  destruct (risk_score_nonneg utilization_pct days_to_expiry Hv Hu)
    as (util & s & k & _ & _ & _ & _ & _ & Hb & Hcalc).
  exists k. split; [exact Hcalc|].
  destruct (expiry_score_cases days_to_expiry) as [E|[E|[E|E]]]; lia.
Qed.

Lemma risk_score_in_range_witness :
  exists score, calculate_risk_score (F64.lit 824 10) 180 = Ok score /\
                0 <= score <= 100.
Proof.
  apply (risk_score_in_range (F64.lit 824 10) 180); [reflexivity | reflexivity | lia].
Defined.

(** Claim C9. For a non-negative [utilization_pct] and any
    [days_to_expiry] the expiry component is at least 5, the utilization
    component is a non-negative float, and the returned score is at least
    5; the bound is reached at a utilization of 0.0 with 366 days left. *)
Theorem risk_score_at_least_five (utilization_pct : F64.float) (days_to_expiry : Z) :
  F64.valid utilization_pct -> F64.leb F64.zero utilization_pct = true ->
  5 <= expiry_score days_to_expiry /\
  (exists q util_score,
     float_div_int utilization_pct 100 = Ok q /\
     float_mul_int (F64.min q F64.one) 50 = Ok util_score /\
     F64.leb F64.zero util_score = true) /\
  (exists score, calculate_risk_score utilization_pct days_to_expiry = Ok score /\
                 5 <= score) /\
  calculate_risk_score F64.zero 366 = Ok 5.
Proof.
  intros Hv Hu.
  destruct (risk_score_nonneg utilization_pct days_to_expiry Hv Hu)
    as (util & s & k & Hmul & Hpos & _ & _ & _ & Hb & Hcalc).
  assert (He : 5 <= expiry_score days_to_expiry)
    by (destruct (expiry_score_cases days_to_expiry) as [E|[E|[E|E]]]; lia).
  split; [exact He|]. split; [|split].
  - exists (F64.div utilization_pct hundred), util.
    split; [apply float_div_int_100|]. split; assumption.
  - exists k. split; [exact Hcalc | lia].
  - vm_compute. reflexivity.
Qed.

Lemma risk_score_at_least_five_witness :
  exists score, calculate_risk_score (F64.lit 824 10) 180 = Ok score /\ 5 <= score.
Proof.
  apply (proj1 (proj2 (proj2
    (risk_score_at_least_five (F64.lit 824 10) 180 eq_refl eq_refl)))).
Defined.

(** ** zerto/data.py: alerts and forecast *)

(** An [int] of at most 4300 digits is formatted, a longer one is not. *)
Lemma int_str_returns z : Z.abs z < 10 ^ int_max_str_digits ->
  int_str z = Ok (pretty z).
Proof.
  intros H. unfold int_str.
  destruct (Z.leb_spec (10 ^ int_max_str_digits) (Z.abs z)); [lia | reflexivity].
Qed.

Lemma int_str_raises z : 10 ^ int_max_str_digits <= Z.abs z ->
  int_str z = Raise int_limit_error.
Proof.
  intros H. unfold int_str.
  destruct (Z.leb_spec (10 ^ int_max_str_digits) (Z.abs z)); [reflexivity | lia].
Qed.

Lemma int_limit_above_90 : 90 < 10 ^ int_max_str_digits.
Proof. vm_compute. reflexivity. Qed.

(** The expiry alerts are returned for every [int] above [-(10^4300)]:
    the days are formatted only when they are at most 90. *)
Lemma expiry_alerts_returns d : - 10 ^ int_max_str_digits < d ->
  expiry_alerts d
  = Ok (if d <=? 30 then
          [ Alert "warning" ("License expiring soon (" ++ pretty d ++ " days)")
              "License renewal action required" ]
        else if d <=? 90 then
          [ Alert "info" ("License expiration reminder (" ++ pretty d ++ " days)")
              "Plan license renewal" ]
        else []).
Proof.
  intros H. pose proof int_limit_above_90 as H90. unfold expiry_alerts.
  destruct (Z.leb_spec d 30); [rewrite int_str_returns by lia; reflexivity|].
  destruct (Z.leb_spec d 90); [rewrite int_str_returns by lia; reflexivity|].
  reflexivity.
Qed.

Lemma expiry_alerts_raises d : d <= - 10 ^ int_max_str_digits ->
  expiry_alerts d = Raise int_limit_error.
Proof.
  intros H. pose proof int_limit_above_90 as H90. unfold expiry_alerts.
  destruct (Z.leb_spec d 30); [|lia].
  rewrite int_str_raises by lia. reflexivity.
Qed.

(** What the expiry alerts are when they are returned. *)
Lemma expiry_alerts_inv d expiry : expiry_alerts d = Ok expiry ->
  map severity expiry
  = (if d <=? 30 then ["warning"%string]
     else if d <=? 90 then ["info"%string] else []).
Proof.
  unfold expiry_alerts.
  destruct (d <=? 30).
  { destruct (int_str d); [|discriminate]. intros [= <-]. reflexivity. }
  destruct (d <=? 90).
  { destruct (int_str d); [|discriminate]. intros [= <-]. reflexivity. }
  intros [= <-]. reflexivity.
Qed.

(** Claim C3, amended. For every [days_to_expiry] above [-(10^4300)], with
    the default thresholds the alerts are those of the utilization followed
    by those of the expiry. The utilization gives one "critical" alert from
    95.0 on, else one "warning" alert from 80.0 on, else none; the expiry
    gives one "warning" alert up to 30 days, else one "info" alert up to 90
    days, else none. At 96.0 the utilization alert is "critical" alone; 25
    days give a "warning" and 200 days no alert. *)
Theorem generate_alerts_default (utilization_pct : F64.float) (days_to_expiry : Z) :
  - 10 ^ int_max_str_digits < days_to_expiry ->
  exists utilization expiry,
    generate_alerts utilization_pct days_to_expiry None = Ok (utilization ++ expiry) /\
    utilization
    = utilization_alerts utilization_pct (F64.lit 95 1) (F64.lit 80 1) /\
    expiry_alerts days_to_expiry = Ok expiry /\
    map severity utilization
    = (if F64.leb (F64.lit 95 1) utilization_pct then ["critical"%string]
       else if F64.leb (F64.lit 80 1) utilization_pct then ["warning"%string]
       else []) /\
    map severity expiry
    = (if days_to_expiry <=? 30 then ["warning"%string]
       else if days_to_expiry <=? 90 then ["info"%string]
       else []) /\
    map severity (utilization_alerts (F64.lit 96 1) (F64.lit 95 1) (F64.lit 80 1))
    = ["critical"%string] /\
    expiry_alerts 25
    = Ok [ Alert "warning" "License expiring soon (25 days)"
             "License renewal action required" ] /\
    expiry_alerts 200 = Ok [].
Proof.
  intros Hd. pose proof (expiry_alerts_returns days_to_expiry Hd) as Ee.
  eexists (utilization_alerts utilization_pct (F64.lit 95 1) (F64.lit 80 1)), _.
  split.
  { unfold generate_alerts.
    replace (float_mul_int (default (F64.lit 95 100)
               (default default_thresholds None !! "utilization_crit"%string)) 100)
      with (Ok (F64.lit 95 1)) by (vm_compute; reflexivity).
    replace (float_mul_int (default (F64.lit 80 100)
               (default default_thresholds None !! "utilization_warn"%string)) 100)
      with (Ok (F64.lit 80 1)) by (vm_compute; reflexivity).
    cbn [mbind result_bind]. rewrite Ee. reflexivity. }
  split; [reflexivity|]. split; [exact Ee|].
  split.
  { unfold utilization_alerts.
    destruct (F64.leb (F64.lit 95 1) utilization_pct); [reflexivity|].
    destruct (F64.leb (F64.lit 80 1) utilization_pct); reflexivity. }
  split; [exact (expiry_alerts_inv _ _ Ee)|].
  split; [vm_compute; reflexivity|]. split; vm_compute; reflexivity.
Qed.

Lemma generate_alerts_default_witness :
  exists utilization expiry,
    generate_alerts (F64.lit 96 1) 25 None = Ok (utilization ++ expiry) /\
    utilization
    = utilization_alerts (F64.lit 96 1) (F64.lit 95 1) (F64.lit 80 1) /\
    expiry_alerts 25 = Ok expiry /\
    map severity utilization
    = (if F64.leb (F64.lit 95 1) (F64.lit 96 1) then ["critical"%string]
       else if F64.leb (F64.lit 80 1) (F64.lit 96 1) then ["warning"%string]
       else []) /\
    map severity expiry
    = (if 25 <=? 30 then ["warning"%string]
       else if 25 <=? 90 then ["info"%string]
       else []) /\
    map severity (utilization_alerts (F64.lit 96 1) (F64.lit 95 1) (F64.lit 80 1))
    = ["critical"%string] /\
    expiry_alerts 25
    = Ok [ Alert "warning" "License expiring soon (25 days)"
             "License renewal action required" ] /\
    expiry_alerts 200 = Ok [].
Proof.
  apply (generate_alerts_default (F64.lit 96 1) 25). vm_compute. reflexivity.
Defined.

(** Claim C3 as stated fails: the days to expiry are formatted into the
    message of the expiry alert, and an [int] of 4301 digits is not
    formatted: at [-(10^4300)] days the call raises [ValueError] and no
    alert is returned. *)
Lemma generate_alerts_int_limit :
  generate_alerts (F64.lit 50 1) (- 10 ^ 4300) None = Raise int_limit_error.
Proof. vm_compute. reflexivity. Qed.

(** The calendar: [ord2ymd] is the inverse of [ymd2ord]. *)

Lemma month_day_table :
  forallb (fun n => month_day_ok false (Z.of_nat n)) (seq 0%nat 365%nat) = true /\
  forallb (fun n => month_day_ok true (Z.of_nat n)) (seq 0%nat 366%nat) = true.
Proof. split; vm_compute; reflexivity. Qed.

Lemma month_day_spec (leapyear : bool) (n : Z) :
  0 <= n < (if leapyear then 366 else 365) ->
  month_day_ok leapyear n = true.
Proof.
  intros H. destruct month_day_table as [T0 T1].
  rewrite forallb_forall in T0, T1.
  replace n with (Z.of_nat (Z.to_nat n)) by lia.
  destruct leapyear; [apply T1 | apply T0]; apply in_seq; lia.
Qed.

Lemma ord2ymd_ymd2ord ordinal : 1 <= ordinal ->
  let '(y, m, d) := Calendar.ord2ymd ordinal in
  Calendar.ymd2ord y m d = ordinal /\ 1 <= y /\ 1 <= m <= 12 /\
  1 <= d <= Calendar.days_in_month (Calendar.is_leap y) m.
Proof.
  intros Ho. unfold Calendar.ord2ymd.
  set (n0 := ordinal - 1).
  pose proof (Z.div_mod n0 146097 ltac:(lia)) as E1.
  pose proof (Z.mod_pos_bound n0 146097 ltac:(lia)) as B1.
  assert (H400 : 0 <= n0 / 146097) by (apply Z.div_pos; lia).
  set (n400 := n0 / 146097) in *. set (r1 := n0 mod 146097) in *.
  pose proof (Z.div_mod r1 36524 ltac:(lia)) as E2.
  pose proof (Z.mod_pos_bound r1 36524 ltac:(lia)) as B2.
  assert (H100 : 0 <= r1 / 36524) by (apply Z.div_pos; lia).
  set (n100 := r1 / 36524) in *. set (r2 := r1 mod 36524) in *.
  pose proof (Z.div_mod r2 1461 ltac:(lia)) as E3.
  pose proof (Z.mod_pos_bound r2 1461 ltac:(lia)) as B3.
  assert (H4 : 0 <= r2 / 1461) by (apply Z.div_pos; lia).
  set (n4 := r2 / 1461) in *. set (r3 := r2 mod 1461) in *.
  pose proof (Z.div_mod r3 365 ltac:(lia)) as E4.
  pose proof (Z.mod_pos_bound r3 365 ltac:(lia)) as B4.
  assert (H1 : 0 <= r3 / 365) by (apply Z.div_pos; lia).
  set (n1 := r3 / 365) in *. set (r4 := r3 mod 365) in *.
  clearbody n400 r1 n100 r2 n4 r3 n1 r4.
  assert (Hn0 : ordinal = n0 + 1) by (unfold n0; lia). clearbody n0.
  destruct ((n1 =? 4) || (n100 =? 4)) eqn:Ex.
  - (* the last day of a leap year *)
    unfold Calendar.ymd2ord, Calendar.days_before_year.
    destruct (Z.eq_dec n100 4) as [E100|N100].
    + (* the end of a cycle of 400 years *)
      assert (n4 = 0 /\ n1 = 0 /\ r4 = 0) as (-> & -> & ->) by lia. subst n100.
      set (y := n400 * 400 + 1 + 4 * 100 + 0 * 4 + 0 - 1).
      assert (Hleap : Calendar.is_leap y = true).
      { unfold Calendar.is_leap.
        replace (y mod 4) with 0
          by (apply Z.mod_unique with (100 * (n400 + 1)); unfold y; lia).
        replace (y mod 400) with 0
          by (apply Z.mod_unique with (n400 + 1); unfold y; lia).
        cbn [Z.eqb andb]. apply orb_true_r. }
      rewrite Hleap.
      replace ((y - 1) / 4) with (100 * (n400 + 1) - 1)
        by (apply Z.div_unique with 3; unfold y; lia).
      replace ((y - 1) / 100) with (4 * (n400 + 1) - 1)
        by (apply Z.div_unique with 99; unfold y; lia).
      replace ((y - 1) / 400) with n400
        by (apply Z.div_unique with 399; unfold y; lia).
      change (Calendar.days_before_month true 12) with 335. cbn. unfold y. lia.
    + (* the end of a cycle of 4 years *)
      assert (n1 = 4 /\ r4 = 0 /\ n4 <= 23 /\ n100 <= 3) as (-> & -> & Hn4 & Hn100).
      { apply orb_true_iff in Ex. destruct Ex as [Ex|Ex]; apply Z.eqb_eq in Ex; lia. }
      set (y := n400 * 400 + 1 + n100 * 100 + n4 * 4 + 4 - 1).
      assert (Hleap : Calendar.is_leap y = true).
      { unfold Calendar.is_leap.
        replace (y mod 4) with 0
          by (apply Z.mod_unique with (100 * n400 + 25 * n100 + n4 + 1);
              unfold y; lia).
        replace (y mod 100) with (4 * n4 + 4)
          by (apply Z.mod_unique with (4 * n400 + n100); unfold y; lia).
        cbn [Z.eqb andb]. destruct (Z.eqb_spec (4 * n4 + 4) 0); [lia|reflexivity]. }
      rewrite Hleap.
      replace ((y - 1) / 4) with (100 * n400 + 25 * n100 + n4)
        by (apply Z.div_unique with 3; unfold y; lia).
      replace ((y - 1) / 100) with (4 * n400 + n100)
        by (apply Z.div_unique with (4 * n4 + 3); unfold y; lia).
      replace ((y - 1) / 400) with n400
        by (apply Z.div_unique with (100 * n100 + 4 * n4 + 3); unfold y; lia).
      change (Calendar.days_before_month true 12) with 335. cbn. unfold y. lia.
  - apply orb_false_iff in Ex. destruct Ex as [Ex1 Ex100].
    apply Z.eqb_neq in Ex1, Ex100.
    set (y := n400 * 400 + 1 + n100 * 100 + n4 * 4 + n1).
    set (leapyear := (n1 =? 3) && (negb (n4 =? 24) || (n100 =? 3))).
    assert (Hleap : Calendar.is_leap y = leapyear).
    { unfold Calendar.is_leap, leapyear, y.
      assert (M4 : (n400 * 400 + 1 + n100 * 100 + n4 * 4 + n1) mod 4 = (n1 + 1) mod 4).
      { replace (n400 * 400 + 1 + n100 * 100 + n4 * 4 + n1)
          with ((n1 + 1) + (n400 * 100 + n100 * 25 + n4) * 4) by lia.
        apply Z.mod_add. lia. }
      rewrite M4.
      assert (Hn1 : n1 = 0 \/ n1 = 1 \/ n1 = 2 \/ n1 = 3) by lia.
      destruct Hn1 as [-> | [-> | [-> | ->]]]; try reflexivity.
      cbn [Z.eqb Z.add Z.modulo Z.div_eucl Z.pos_div_eucl andb]. 
      change ((3 + 1) mod 4 =? 0) with true. cbn [andb Z.eqb Pos.eqb].
      assert (Hn4 : n4 <= 24) by lia.
      destruct (Z.eqb_spec n4 24) as [E24|N24].
      + subst n4. cbn [negb orb].
        replace ((n400 * 400 + 1 + n100 * 100 + 24 * 4 + 3) mod 100) with 0
          by (apply Z.mod_unique with (n400 * 4 + n100 + 1); lia).
        cbn [Z.eqb negb orb].
        assert (Hn100 : n100 = 0 \/ n100 = 1 \/ n100 = 2 \/ n100 = 3) by lia.
        destruct Hn100 as [-> | [-> | [-> | ->]]].
        * replace ((n400 * 400 + 1 + 0 * 100 + 24 * 4 + 3) mod 400) with 100
            by (apply Z.mod_unique with n400; lia). reflexivity.
        * replace ((n400 * 400 + 1 + 1 * 100 + 24 * 4 + 3) mod 400) with 200
            by (apply Z.mod_unique with n400; lia). reflexivity.
        * replace ((n400 * 400 + 1 + 2 * 100 + 24 * 4 + 3) mod 400) with 300
            by (apply Z.mod_unique with n400; lia). reflexivity.
        * replace ((n400 * 400 + 1 + 3 * 100 + 24 * 4 + 3) mod 400) with 0
            by (apply Z.mod_unique with (n400 + 1); lia). reflexivity.
      + cbn [negb orb].
        assert (Hr : (n400 * 400 + 1 + n100 * 100 + n4 * 4 + 3) mod 100 = 4 * n4 + 4)
          by (symmetry; apply Z.mod_unique with (n400 * 4 + n100); lia).
        rewrite Hr. destruct (Z.eqb_spec (4 * n4 + 4) 0); [lia|reflexivity]. }
    assert (Hr4 : 0 <= r4 < (if leapyear then 366 else 365)) by (destruct leapyear; lia).
    pose proof (month_day_spec leapyear r4 Hr4) as Hmd.
    unfold month_day_ok, month_day in Hmd.
    fold leapyear.
    destruct (r4 <? Calendar.days_before_month leapyear (Z.shiftr (r4 + 50) 5));
      fold y; rewrite Hleap;
      repeat (apply andb_true_iff in Hmd; destruct Hmd as [Hmd ?]);
      repeat match goal with
             | H : (_ <=? _) = true |- _ => apply Z.leb_le in H
             | H : (_ =? _) = true |- _ => apply Z.eqb_eq in H
             end;
      (split; [|split; [unfold y; lia|split; lia]]);
      unfold Calendar.ymd2ord; rewrite Hleap; unfold Calendar.days_before_year;
      assert (E4' : (y - 1) / 4 = n400 * 100 + n100 * 25 + n4)
        by (symmetry; apply Z.div_unique with n1; unfold y; lia);
      assert (E100' : (y - 1) / 100 = 4 * n400 + n100)
        by (symmetry; apply Z.div_unique with (4 * n4 + n1); unfold y; lia);
      assert (E400' : (y - 1) / 400 = n400)
        by (symmetry; apply Z.div_unique with (100 * n100 + 4 * n4 + n1); unfold y; lia);
      rewrite E4', E100', E400'; unfold y; lia.
Qed.

Lemma list_last_default (l : list Z) (x d : Z) : List.last (x :: l) d = List.last l x.
Proof.
  revert x d. induction l as [|y l IH]; intros x d; [reflexivity|].
  change (List.last (x :: y :: l) d) with (List.last (y :: l) d).
  rewrite IH. symmetry. apply IH.
Qed.

(** Claim C5, amended. The forecast is "N/A" when the history is empty, has
    no "days_7" key, or has fewer than 3 samples there. Otherwise, with
    [delta] the last sample minus the first, it is "Stable" for
    [delta = 0], "Stable (decreasing)" for [delta < 0], and for
    [0 < delta <= 7 * max_double] (the rate [delta / 7] is within the range
    of a double) the date 90 days after today, whatever the rate, as long
    as that date has a four-digit year: the string printed is that of the
    year, month and day whose ordinal is [today + 90]. *)
Theorem forecast_runout_date_cases (today : Z) (history : gmap string (list Z))
    (entitled_vms : Z) :
  (history = ∅ \/ history !! "days_7"%string = None \/
   (exists l, history !! "days_7"%string = Some l /\ (length l < 3)%nat) ->
   forecast_runout_date today history entitled_vms = Ok "N/A"%string) /\
  (forall l, history !! "days_7"%string = Some l -> (3 <= length l)%nat ->
     let delta := List.last l 0 - List.hd 0 l in
     (delta = 0 ->
      forecast_runout_date today history entitled_vms = Ok "Stable"%string) /\
     (delta < 0 ->
      forecast_runout_date today history entitled_vms
      = Ok "Stable (decreasing)"%string) /\
     (0 < delta <= 7 * max_double ->
      Calendar.ymd2ord 1000 1 1 <= today + 90 <= Calendar.max_ordinal ->
      forecast_runout_date today history entitled_vms
      = Ok (Calendar.strftime_ymd (today + 90)) /\
      let '(y, m, d) := Calendar.ord2ymd (today + 90) in
      Calendar.ymd2ord y m d = today + 90)).
Proof.
  split.
  - intros H. unfold forecast_runout_date.
    destruct (bool_decide (history = ∅)) eqn:E; [reflexivity|].
    destruct H as [H|[H|(l & H & Hl)]].
    + apply bool_decide_eq_false in E. contradiction.
    + rewrite H. reflexivity.
    + rewrite H. cbn [orb]. destruct (Z.ltb_spec (Z.of_nat (length l)) 3); [reflexivity|lia].
  - intros l Hl Hlen delta. unfold forecast_runout_date.
    assert (Hne : bool_decide (history = ∅) = false).
    { apply bool_decide_eq_false. intros ->. rewrite lookup_empty in Hl. discriminate. }
    rewrite Hne, Hl. cbn [orb default from_option id].
    destruct (Z.ltb_spec (Z.of_nat (length l)) 3); [lia|].
    destruct (Z.ltb_spec (Z.of_nat (length l)) 2); [lia|].
    destruct l as [|x l']; [simpl in Hlen; lia|].
    cbn [list_last list_first mbind result_bind].
    assert (Hd : List.last l' x - x = delta)
      by (unfold delta; rewrite list_last_default; reflexivity).
    rewrite Hd. clearbody delta.
    split; [|split].
    + intros ->. reflexivity.
    + intros Hneg. destruct (Z.eqb_spec delta 0); [lia|].
      destruct (Z.ltb_spec delta 0); [reflexivity|lia].
    + intros [Hpos Hmax] Hday.
      destruct (Z.eqb_spec delta 0); [lia|].
      destruct (Z.ltb_spec delta 0); [lia|].
      destruct (truediv_positive delta 7 Hpos ltac:(lia) ltac:(lia) ltac:(lia))
        as (rate & Hrate & Hle).
      rewrite Hrate. cbn [mbind result_bind]. rewrite Hle.
      unfold Calendar.add_days.
      assert (Hlo : 1 <= today + 90) by (revert Hday; vm_compute Calendar.ymd2ord; lia).
      split.
      * destruct (Z.leb_spec 1 (today + 90)); [|lia].
        destruct (Z.leb_spec (today + 90) Calendar.max_ordinal); [|lia].
        reflexivity.
      * pose proof (ord2ymd_ymd2ord (today + 90) Hlo) as Hr.
        destruct (Calendar.ord2ymd (today + 90)) as [[y m] d]. apply Hr.
Qed.

Lemma forecast_runout_date_cases_witness :
  forecast_runout_date 739923 {[ "days_7"%string := [400; 405; 412] ]} 500
  = Ok "2027-02-01"%string.
Proof.
  refine (proj1 (proj2 (proj2 (proj2 (forecast_runout_date_cases 739923
            {[ "days_7"%string := [400; 405; 412] ]} 500)
          [400; 405; 412] eq_refl _)) _ _)).
  - simpl. lia.
  - split; [vm_compute; reflexivity | apply Z.leb_le; vm_compute; reflexivity].
  - split; apply Z.leb_le; vm_compute; reflexivity.
Defined.

(** Claim C5 as stated fails on a growth beyond the range of a double:
    [delta / 7] raises [OverflowError]. *)
Lemma forecast_runout_date_overflow :
  forecast_runout_date 739923 {[ "days_7"%string := [0; 0; 2 ^ 1027] ]} 500
  = Raise OverflowError.
Proof. vm_compute. reflexivity. Qed.

(** Claim C10. The forecast does not depend on [entitled_vms]. *)
Theorem forecast_ignores_entitlement (today : Z) (history : gmap string (list Z))
    (e1 e2 : Z) :
  forecast_runout_date today history e1 = forecast_runout_date today history e2.
Proof. reflexivity. Qed.

(** ** zerto/output.py *)

(** Claim C6. The report is written to [licensing_utilization.json] in
    the output directory as the serialization of a dictionary whose
    ["meta"]["zvm_url"] entry is the string "[REDACTED]", for every input;
    the entry is therefore the same in any two reports. *)
Theorem generate_json_redacts_url (json_dumps : pyval -> string)
    (joinpath : string -> string -> string) (output_dir now : string)
    (files : gmap string string)
    (license_data consumption_data metrics history : pyval)
    (tls_verified : bool) (zerto_version tool_version : string) :
  let r := ReportGenerator.report now license_data consumption_data metrics
             history tls_verified zerto_version tool_version in
  let out := ReportGenerator.generate_json json_dumps joinpath output_dir now
               files license_data consumption_data metrics history
               tls_verified zerto_version tool_version in
  out.2 = joinpath output_dir "licensing_utilization.json" /\
  out.1 !! out.2 = Some (json_dumps r) /\
  field ["meta"; "zvm_url"]%string r = Some (PStr "[REDACTED]") /\
  forall now' license_data' consumption_data' metrics' history' tls_verified'
         zerto_version' tool_version',
    field ["meta"; "zvm_url"]%string
      (ReportGenerator.report now' license_data' consumption_data' metrics'
         history' tls_verified' zerto_version' tool_version')
    = field ["meta"; "zvm_url"]%string r.
Proof.
  cbv zeta. split; [reflexivity|]. split; [|split].
  - unfold ReportGenerator.generate_json. cbn [fst snd]. apply lookup_insert_eq.
  - reflexivity.
  - reflexivity.
Qed.


(** ** zerto/config.py *)

Lemma until_brace_length s name rest :
  until_brace s = Some (name, rest) -> (String.length rest < String.length s)%nat.
Proof.
  revert name rest. induction s as [|c s IH]; intros name rest; simpl; [discriminate|].
  destruct (Ascii.eqb c "}").
  - intros [= <- <-]. lia.
  - destruct (until_brace s) as [[n r]|]; [|discriminate].
    intros [= <- <-]. specialize (IH n r eq_refl). lia.
Qed.

Lemma match_at_length s name rest :
  match_at s = Some (name, rest) -> (String.length rest < String.length s)%nat.
Proof.
  unfold match_at. destruct s as [|a [|b s]]; try discriminate.
  { destruct a as [[] [] [] [] [] [] [] []]; discriminate. }
  destruct (until_brace s) as [[[|c n] r]|] eqn:E;
    destruct a as [[] [] [] [] [] [] [] []]; try discriminate;
    destruct b as [[] [] [] [] [] [] [] []]; try discriminate.
  intros [= <- <-]. apply until_brace_length in E. simpl. lia.
Qed.

Lemma sub_from_fuel repl fuel1 : forall fuel2 s,
  (String.length s <= fuel1)%nat -> (String.length s <= fuel2)%nat ->
  sub_from fuel1 repl s = sub_from fuel2 repl s.
Proof.
  induction fuel1 as [|f1 IH]; intros fuel2 s H1 H2.
  - destruct s; [|simpl in H1; lia]. destruct fuel2; reflexivity.
  - destruct fuel2 as [|f2].
    + destruct s; [reflexivity | simpl in H2; lia].
    + cbn [sub_from]. destruct (match_at s) as [[name rest]|] eqn:E.
      * apply match_at_length in E. f_equal. apply IH; lia.
      * destruct s as [|c s]; [reflexivity|]. f_equal. simpl in H1, H2. apply IH; lia.
Qed.

Lemma re_sub_token repl s name rest : match_at s = Some (name, rest) ->
  re_sub repl s = (repl name ++ re_sub repl rest)%string.
Proof.
  intros E. unfold re_sub. pose proof (match_at_length _ _ _ E) as Hl.
  destruct (String.length s) as [|n] eqn:En; [lia|].
  cbn [sub_from]. rewrite E. f_equal. apply sub_from_fuel; lia.
Qed.

Lemma re_sub_char repl c s : match_at (String c s) = None ->
  re_sub repl (String c s) = String c (re_sub repl s).
Proof.
  intros E. unfold re_sub.
  change (String.length (String c s)) with (S (String.length s)).
  cbn [sub_from]. rewrite E. reflexivity.
Qed.

Lemma re_sub_empty repl : re_sub repl "" = ""%string.
Proof. reflexivity. Qed.

Lemma until_brace_token name post : occurs "}" name = false ->
  until_brace (name ++ String "}" post) = Some (name, post).
Proof.
  induction name as [|c name IH]; simpl; [reflexivity|].
  intros H. apply orb_false_iff in H. destruct H as [Hc Hn].
  rewrite Hc, (IH Hn). reflexivity.
Qed.

Lemma match_at_token name post : name <> ""%string -> occurs "}" name = false ->
  match_at ("${" ++ name ++ String "}" post) = Some (name, post).
Proof.
  intros Hne Ho.
  change (match_at (String "$" (String "{" (name ++ String "}" post))) = Some (name, post)).
  unfold match_at. rewrite (until_brace_token name post Ho).
  destruct name; [contradiction|reflexivity].
Qed.

(** Before the first ["${"] nothing matches. *)
Lemma re_sub_prefix repl pre rest : is_substring "${" pre = false ->
  re_sub repl (pre ++ String "$" rest) = (pre ++ re_sub repl (String "$" rest))%string.
Proof.
  induction pre as [|c pre IH]; [reflexivity|].
  intros H. simpl in H. apply orb_false_iff in H. destruct H as [Hp Hs].
  change ((String c pre ++ String "$" rest)%string)
    with (String c (pre ++ String "$" rest)).
  rewrite re_sub_char.
  - rewrite (IH Hs). reflexivity.
  - unfold match_at.
    destruct (Ascii.eqb_spec c "$") as [->|Hc].
    + destruct pre as [|b pre]; [reflexivity|].
      simpl in Hp. cbn [append].
      destruct (Ascii.eqb_spec "{" b) as [<-|Hb]; [discriminate|].
      destruct b as [[] [] [] [] [] [] [] []]; try reflexivity. contradiction.
    + destruct c as [[] [] [] [] [] [] [] []]; try reflexivity. contradiction.
Qed.

Lemma re_sub_no_token repl s : is_substring "${" s = false -> re_sub repl s = s.
Proof.
  induction s as [|c s IH]; [reflexivity|].
  intros H. simpl in H. apply orb_false_iff in H. destruct H as [Hp Hs].
  rewrite re_sub_char.
  - rewrite (IH Hs). reflexivity.
  - unfold match_at.
    destruct (Ascii.eqb_spec c "$") as [->|Hc].
    + destruct s as [|b s]; [reflexivity|].
      simpl in Hp.
      destruct (Ascii.eqb_spec "{" b) as [<-|Hb]; [discriminate|].
      destruct b as [[] [] [] [] [] [] [] []]; try reflexivity. contradiction.
    + destruct c as [[] [] [] [] [] [] [] []]; try reflexivity. contradiction.
Qed.

(** Claim C7. In a text [pre ++ "${" ++ name ++ "}" ++ post] whose prefix
    holds no "${", with a non-empty [name] without "}", the token is
    replaced by the value of [name] in the environment when it is set and
    is kept as it is when it is not, and the expansion goes on in [post];
    a text without "${" is unchanged. "${FOO}" becomes "bar" when FOO is
    "bar" and stays "${FOO}" when FOO is not set. *)
Theorem expand_env_vars_tokens (environ : gmap string string) :
  (forall pre name post,
     is_substring "${" pre = false -> name <> ""%string -> occurs "}" name = false ->
     _expand_env_vars environ (pre ++ "${" ++ name ++ "}" ++ post)
     = (pre ++ default ("${" ++ name ++ "}") (environ !! name)
            ++ _expand_env_vars environ post)%string) /\
  (forall text, is_substring "${" text = false ->
     _expand_env_vars environ text = text) /\
  (environ !! "FOO"%string = Some "bar"%string ->
   _expand_env_vars environ "${FOO}" = "bar"%string) /\
  (environ !! "FOO"%string = None ->
   _expand_env_vars environ "${FOO}" = "${FOO}"%string).
Proof.
  assert (Htok : forall pre name post,
     is_substring "${" pre = false -> name <> ""%string -> occurs "}" name = false ->
     _expand_env_vars environ (pre ++ "${" ++ name ++ "}" ++ post)
     = (pre ++ default ("${" ++ name ++ "}") (environ !! name)
            ++ _expand_env_vars environ post)%string).
  { intros pre name post Hpre Hne Ho. unfold _expand_env_vars.
    change (pre ++ "${" ++ name ++ "}" ++ post)%string
      with (pre ++ String "$" (String "{" (name ++ String "}" post)))%string.
    rewrite (re_sub_prefix _ _ _ Hpre). f_equal.
    rewrite (re_sub_token _ _ name post (match_at_token name post Hne Ho)).
    unfold replace_var. destruct (environ !! name); reflexivity. }
  split; [exact Htok|]. split; [|split].
  - intros text H. apply re_sub_no_token. exact H.
  - intros H. pose proof (Htok "" "FOO" "" eq_refl ltac:(discriminate) eq_refl)%string as E.
    rewrite H in E. exact E.
  - intros H. pose proof (Htok "" "FOO" "" eq_refl ltac:(discriminate) eq_refl)%string as E.
    rewrite H in E. exact E.
Qed.

Lemma expand_env_vars_tokens_witness :
  _expand_env_vars {[ "FOO"%string := "bar"%string ]} "url: ${FOO}/${BAZ}"
  = "url: bar/${BAZ}"%string.
Proof.
  pose proof (proj1 (expand_env_vars_tokens {[ "FOO"%string := "bar"%string ]})
                "url: " "FOO" "/${BAZ}" eq_refl ltac:(discriminate) eq_refl)%string as E.
  exact E.
Defined.

Lemma until_brace_none s : occurs "}" s = false -> until_brace s = None.
Proof.
  induction s as [|c s IH]; [reflexivity|].
  cbn [occurs until_brace]. intros H. apply orb_false_iff in H.
  destruct H as [Hc Hs]. rewrite Hc, (IH Hs). reflexivity.
Qed.

Lemma match_at_no_brace s : occurs "}" s = false -> match_at s = None.
Proof.
  intros H. unfold match_at.
  destruct s as [|a [|b s]]; [reflexivity| |].
  { destruct a as [[] [] [] [] [] [] [] []]; reflexivity. }
  cbn [occurs] in H. apply orb_false_iff in H. destruct H as [_ H].
  apply orb_false_iff in H. destruct H as [_ H].
  rewrite (until_brace_none s H).
  destruct a as [[] [] [] [] [] [] [] []]; try reflexivity;
    destruct b as [[] [] [] [] [] [] [] []]; reflexivity.
Qed.

Lemma re_sub_no_brace repl s : occurs "}" s = false -> re_sub repl s = s.
Proof.
  induction s as [|c s IH]; [reflexivity|].
  intros H. rewrite re_sub_char by (apply match_at_no_brace; exact H).
  cbn [occurs] in H. apply orb_false_iff in H. destruct H as [_ H].
  rewrite (IH H). reflexivity.
Qed.

(** A "${" that opens no token is copied: "${}" has no name, and a "${"
    with no "}" after it is not closed. With [expand_env_vars_tokens]
    this describes the expansion of every text, by its first "${". *)
Lemma expand_env_vars_not_a_token (environ : gmap string string) (pre : string) :
  is_substring "${" pre = false ->
  (forall post,
     _expand_env_vars environ (pre ++ "${}" ++ post)
     = (pre ++ "${}" ++ _expand_env_vars environ post)%string) /\
  (forall rest, occurs "}" rest = false ->
     _expand_env_vars environ (pre ++ "${" ++ rest) = (pre ++ "${" ++ rest)%string).
Proof.
  intros Hpre. unfold _expand_env_vars. split.
  - intros post.
    change (pre ++ "${}" ++ post)%string
      with (pre ++ String "$" (String "{" (String "}" post)))%string.
    rewrite (re_sub_prefix _ _ _ Hpre). reflexivity.
  - intros rest Hr.
    change (pre ++ "${" ++ rest)%string
      with (pre ++ String "$" (String "{" rest))%string.
    rewrite (re_sub_prefix _ _ _ Hpre). f_equal.
    apply re_sub_no_brace. exact Hr.
Qed.

Section Validate.
Variable safe_load : string -> pyval + string.
Variable py_str : pyval -> string.

Lemma check_fields_present fields d :
  (forall f, In f fields -> is_Some (dict_lookup f d)) ->
  check_fields fields (PDict d) = Ok tt.
Proof.
  induction fields as [|f fields IH]; intros H; [reflexivity|].
  cbn [check_fields contains mbind result_bind].
  rewrite bool_decide_eq_true_2 by (apply H; left; reflexivity).
  cbn [negb]. apply IH. intros g Hg. apply H. right. exact Hg.
Qed.

Lemma check_fields_missing fields d :
  (exists f, In f fields /\ dict_lookup f d = None) ->
  exists f, In f fields /\ dict_lookup f d = None /\
    check_fields fields (PDict d)
    = Raise (ValueError ("Missing required config field: " ++ f)).
Proof.
  induction fields as [|g fields IH]; intros (f & Hin & Hf); [destruct Hin|].
  cbn [check_fields contains mbind result_bind].
  destruct (dict_lookup g d) as [v|] eqn:Eg.
  - rewrite bool_decide_eq_true_2 by (eexists; reflexivity).
    cbn [negb]. destruct Hin as [->|Hin]; [congruence|].
    destruct (IH (ex_intro _ f (conj Hin Hf))) as (h & Hh & Hn & Hc).
    exists h. split; [right; exact Hh|]. split; assumption.
  - exists g. split; [left; reflexivity|]. split; [exact Eg|].
    rewrite bool_decide_eq_false_2 by (intros [? ?]; discriminate).
    reflexivity.
Qed.

(** On a mapping whose [auth] entry is a mapping, validation is as the
    specification says: an empty configuration, a missing field and an
    unknown [auth.version] raise [ValueError], and nothing else does. *)
Lemma validate_mapping d :
  _validate py_str (PDict []) = Raise (ValueError "Configuration is empty") /\
  _validate py_str PNone = Raise (ValueError "Configuration is empty") /\
  (d <> [] -> (exists f, In f required_fields /\ dict_lookup f d = None) ->
   exists f, In f required_fields /\ dict_lookup f d = None /\
     _validate py_str (PDict d)
     = Raise (ValueError ("Missing required config field: " ++ f))) /\
  (forall a, d <> [] ->
     (forall f, In f required_fields -> is_Some (dict_lookup f d)) ->
     dict_lookup "auth" d = Some (PDict a) ->
     _validate py_str (PDict d)
     = let version := default PNone (dict_lookup "version" a) in
       if eq_str "10.x" version || eq_str "pre-10" version then Ok tt
       else Raise (ValueError ("Invalid auth.version: " ++ py_str version))).
Proof.
  split; [reflexivity|]. split; [reflexivity|]. split.
  - intros Hd Hm. destruct (check_fields_missing required_fields d Hm) as (f & Hin & Hn & Hc).
    exists f. split; [exact Hin|]. split; [exact Hn|].
    unfold _validate. destruct d; [contradiction|]. cbn [truthy negb].
    rewrite Hc. reflexivity.
  - intros a Hd Hall Hauth. unfold _validate.
    destruct d as [|kv d]; [contradiction|]. cbn [truthy negb].
    rewrite (check_fields_present _ _ Hall). cbn [mbind result_bind py_get].
    rewrite Hauth. cbn [default from_option id mbind result_bind py_get].
    destruct (eq_str "10.x" _ || eq_str "pre-10" _); reflexivity.
Qed.

(** [load] returns the parsed document as it is when validation passes,
    and raises what validation raises. *)
Lemma load_validated (files environ : gmap string string)
    (config_path content : string) (config : pyval) :
  files !! config_path = Some content ->
  safe_load (_expand_env_vars environ content) = inl config ->
  load safe_load py_str files environ config_path
  = match _validate py_str config with
    | Ok _ => Ok config
    | Raise e => Raise e
    end.
Proof.
  intros Hf Hp. unfold load. rewrite Hf, Hp.
  destruct (_validate py_str config); reflexivity.
Qed.

End Validate.

(** Claim C8 at the failing input: all four fields are present and [auth]
    is the string "basic"; [auth.get("version")] raises [AttributeError],
    which is not the [ValueError] of a configuration error. *)
Theorem validate_auth_not_mapping (py_str : pyval -> string) :
  _validate py_str config_auth_not_mapping = Raise AttributeError.
Proof. reflexivity. Qed.

(** * Further properties of the code *)

(** ** zerto/data.py: the range of the utilization and of the risk score *)

Lemma SFleb_canonical ma ea mb eb :
  canonical (Zpos ma) ea -> canonical (Zpos mb) eb ->
  SFleb (S754_finite false ma ea) (S754_finite false mb eb) = true <->
  dle (Zpos ma) ea (Zpos mb) eb.
Proof.
  intros Ha Hb. unfold SFleb. rewrite SFcompare_canonical by assumption.
  split.
  - intros H. apply dle_intro with (Z.min ea eb); [lia..|].
    destruct (Z.compare_spec (Z.pos ma * 2 ^ (ea - Z.min ea eb))
                (Z.pos mb * 2 ^ (eb - Z.min ea eb))); try discriminate; lia.
  - intros H. specialize (H (Z.min ea eb) ltac:(lia) ltac:(lia)).
    destruct (Z.compare_spec (Z.pos ma * 2 ^ (ea - Z.min ea eb))
                (Z.pos mb * 2 ^ (eb - Z.min ea eb))); try reflexivity; lia.
Qed.

Lemma lit_100 : F64.lit 100 1 = hundred.
Proof. vm_compute. reflexivity. Qed.

(** A quotient of positive integers that is at most 1. *)
Lemma round_ratio_le_one n d : Zpos n <= Zpos d ->
  nonneg_le (F64.round_ratio false n d) 4503599627370496 (-52).
Proof.
  intros H. rewrite round_ratio_located.
  assert (Hone : canonical 4503599627370496 (-52)) by (apply canonical_dec; vm_compute; reflexivity).
  pose proof (round_upper false (div_num (Zpos n) 0 (Zpos d) 0) (Zpos d)
                (div_exp (Zpos n) 0 (Zpos d) 0) 4503599627370496 (-52)
                (div_num_nonneg (Zpos n) 0 (Zpos d) 0 ltac:(lia)) ltac:(lia)
                (div_enough (Zpos n) 0 (Zpos d) 0 ltac:(lia) ltac:(lia)) Hone ltac:(lia)) as Hu.
  assert (Hd : dle (div_num (Z.pos n) 0 (Z.pos d) 0) (div_exp (Z.pos n) 0 (Z.pos d) 0)
                 (4503599627370496 * Z.pos d) (-52)).
  { apply div_dle_upper. apply dle_intro with (-52); [lia..|].
    replace (-52 + 0 - -52) with 0 by lia. replace (0 - -52) with 52 by lia.
    rewrite Z.pow_0_r, Z.mul_1_r. change (2 ^ 52) with 4503599627370496. lia. }
  specialize (Hu Hd).
  destruct (round_located _ _ _ _) as [s'|s'| |s' p ep]; cbn [nonneg_le]; try tauto.
  destruct Hu as (-> & ? & ? & ?). auto.
Qed.

Lemma mul_hundred_le q : nonneg_le q 4503599627370496 (-52) ->
  nonneg_le (F64.mul q hundred) 7036874417766400 (-46).
Proof.
  intros H. destruct q as [s|s| |s p e]; cbn [nonneg_le] in H.
  - exact I.
  - tauto.
  - tauto.
  - destruct s; [tauto|]. destruct H as (Hc & He & Hle).
    unfold F64.mul, hundred. rewrite SFmul_finite. cbn [xorb].
    assert (H100 : canonical 7036874417766400 (-46)) by (apply canonical_dec; vm_compute; reflexivity).
    pose proof (round_upper false (Zpos p * 7036874417766400) 1 (e + -46)
                  7036874417766400 (-46) ltac:(lia) ltac:(lia)
                  (mul_enough _ _ _ _ Hc H100) H100 ltac:(lia)) as Hu.
    assert (Hd : dle (Z.pos p * 7036874417766400) (e + -46) (7036874417766400 * 1) (-46)).
    { rewrite Z.mul_1_r.
      apply dle_trans with (4503599627370496 * 7036874417766400) (-52 + -46).
      - apply dle_shift, dle_mul_r; [lia | exact Hle].
      - (apply dle_dec; vm_compute; reflexivity). }
    specialize (Hu Hd).
    destruct (round_located _ _ _ _) as [s'|s'| |s' q eq]; cbn [nonneg_le]; auto.
    destruct Hu as (-> & ? & ? & ?). auto.
Qed.

Lemma round2_hundred_le r : nonneg_le r 7036874417766400 (-46) ->
  nonneg_le (F64.round2 r) 7036874417766400 (-46).
Proof.
  intros H. destruct r as [s|s| |s m e]; cbn [nonneg_le] in H.
  - exact I.
  - contradiction.
  - contradiction.
  - destruct s; [contradiction|]. destruct H as (Hc & He & Hle).
    assert (H100 : canonical 7036874417766400 (-46)) by (apply canonical_dec; vm_compute; reflexivity).
    assert (Hk : 0 <= F64.scaled_digits 2 m e <= 10000).
    { unfold F64.scaled_digits. change (10 ^ 2) with 100.
      destruct (Z.leb_spec 0 e) as [He0|He0].
      - specialize (Hle (-46) ltac:(lia) ltac:(lia)).
        rewrite Z.sub_diag, Z.pow_0_r, Z.mul_1_r in Hle.
        replace (e - -46) with (e + 46) in Hle by lia.
        rewrite Z.pow_add_r in Hle by lia.
        change (2 ^ 46) with 70368744177664 in Hle.
        pose proof (pow2_pos e He0). nia.
      - assert (0 < 2 ^ (- e)) by (apply Z.pow_pos_nonneg; lia).
        split; [apply div_half_even_nonneg; lia|].
        apply div_half_even_le; [lia | lia |].
        specialize (Hle (Z.min e (-46)) ltac:(lia) ltac:(lia)).
        destruct (Z_le_gt_dec e (-46)) as [Hc1|Hc1].
        + replace (Z.min e (-46)) with e in Hle by lia.
          rewrite Z.sub_diag, Z.pow_0_r, Z.mul_1_r in Hle.
          replace (- e) with (46 + (-46 - e)) by lia.
          rewrite Z.pow_add_r by lia. change (2 ^ 46) with 70368744177664. lia.
        + replace (Z.min e (-46)) with (-46) in Hle by lia.
          rewrite Z.sub_diag, Z.pow_0_r, Z.mul_1_r in Hle.
          assert (E : 2 ^ (- e) * 2 ^ (e - -46) = 2 ^ 46)
            by (rewrite <- Z.pow_add_r by lia; f_equal; lia).
          change (2 ^ 46) with 70368744177664 in E.
          pose proof (pow2_pos (e - -46) ltac:(lia)). nia. }
    unfold F64.round2.
    destruct (F64.scaled_digits 2 m e) as [|k|k] eqn:Ek; cbn [nonneg_le]; try exact I.
    rewrite round_ratio_located.
    pose proof (round_upper false (div_num (Zpos k) 0 100 0) 100
                  (div_exp (Zpos k) 0 100 0) 7036874417766400 (-46)
                  (div_num_nonneg (Zpos k) 0 100 0 ltac:(lia)) ltac:(lia)
                  (div_enough (Zpos k) 0 100 0 ltac:(lia) ltac:(lia)) H100 ltac:(lia)) as Hu.
    assert (Hd : dle (div_num (Z.pos k) 0 100 0) (div_exp (Z.pos k) 0 100 0)
                   (7036874417766400 * 100) (-46)).
    { apply div_dle_upper. apply dle_intro with (-46); [lia..|].
      replace (-46 + 0 - -46) with 0 by lia. replace (0 - -46) with 46 by lia.
      rewrite Z.pow_0_r, Z.mul_1_r. change (2 ^ 46) with 70368744177664. lia. }
    specialize (Hu Hd).
    destruct (round_located _ _ _ _) as [s'|s'| |s' p ep]; cbn [nonneg_le]; try tauto.
    destruct Hu as (-> & ? & ? & ?). auto.
Qed.

Lemma nonneg_le_leb x mb eb : canonical (Zpos mb) eb -> nonneg_le x (Zpos mb) eb ->
  F64.leb F64.zero x = true /\ F64.leb x (S754_finite false mb eb) = true /\ F64.valid x.
Proof.
  intros Hb H. destruct x as [s|s| |s m e]; cbn [nonneg_le] in H.
  - destruct s; repeat split; reflexivity.
  - contradiction.
  - contradiction.
  - destruct s; [contradiction|]. destruct H as (Hc & He & Hle).
    split; [reflexivity|]. split.
    + apply SFleb_canonical; assumption.
    + apply valid_canonical. auto.
Qed.

(** Property X1. When the protected VMs are between 0 and the entitlement,
    [calculate_utilization_pct] returns a float between 0.0 and 100.0, the
    range that its docstring gives. *)
Theorem utilization_pct_percentage (protected_vms entitled_vms : Z) :
  0 <= protected_vms <= entitled_vms -> 0 < entitled_vms ->
  exists u, calculate_utilization_pct protected_vms entitled_vms = Ok u /\
    F64.valid u /\
    F64.leb F64.zero u = true /\ F64.leb u (F64.lit 100 1) = true.
Proof.
  intros Hp He. unfold calculate_utilization_pct.
  destruct (Z.leb_spec entitled_vms 0); [lia|].
  assert (H100 : canonical 7036874417766400 (-46)) by (apply canonical_dec; vm_compute; reflexivity).
  assert (Hq : exists q, F64.truediv protected_vms entitled_vms = Ok q /\
                 nonneg_le q 4503599627370496 (-52)).
  { unfold F64.truediv. destruct entitled_vms as [|e|e]; try lia.
    destruct protected_vms as [|p|p]; try lia.
    - eexists; split; [reflexivity | exact I].
    - change (Z.to_pos (Z.abs (Z.pos p))) with p. change (Z.to_pos (Z.abs (Z.pos e))) with e.
      change (xorb (Z.pos p <? 0) (Z.pos e <? 0)) with false.
      pose proof (round_ratio_le_one p e ltac:(lia)) as Hr.
      destruct (F64.round_ratio false p e) as [s'|s'| |s' m ex]; cbn [nonneg_le] in Hr; try tauto.
      + eexists; split; [reflexivity | exact I].
      + eexists; split; [reflexivity | exact Hr]. }
  destruct Hq as (q & Eq & Hq). rewrite Eq. cbn [mbind result_bind].
  rewrite float_mul_int_100, lit_100. cbn [mbind result_bind].
  eexists; split; [reflexivity|].
  pose proof (nonneg_le_leb _ _ _ H100 (round2_hundred_le _ (mul_hundred_le _ Hq))) as (H1 & H2 & H3).
  auto.
Qed.

Lemma utilization_pct_percentage_witness :
  exists u, calculate_utilization_pct 412 500 = Ok u /\
    F64.valid u /\
    F64.leb F64.zero u = true /\ F64.leb u (F64.lit 100 1) = true.
Proof. apply (utilization_pct_percentage 412 500); lia. Defined.

Lemma round_ratio_ge_one n d : Zpos d <= Zpos n ->
  at_least (F64.round_ratio false n d) 4503599627370496 (-52).
Proof.
  intros H. rewrite round_ratio_located.
  assert (Hone : canonical 4503599627370496 (-52)) by (apply canonical_dec; vm_compute; reflexivity).
  pose proof (round_lower false (div_num (Zpos n) 0 (Zpos d) 0) (Zpos d)
                (div_exp (Zpos n) 0 (Zpos d) 0) 4503599627370496 (-52)
                (div_num_nonneg (Zpos n) 0 (Zpos d) 0 ltac:(lia)) ltac:(lia)
                (div_enough (Zpos n) 0 (Zpos d) 0 ltac:(lia) ltac:(lia)) Hone) as Hl.
  assert (Hd : dle (4503599627370496 * Z.pos d) (-52)
                 (div_num (Z.pos n) 0 (Z.pos d) 0) (div_exp (Z.pos n) 0 (Z.pos d) 0)).
  { apply div_dle_lower. apply dle_intro with (-52); [lia..|].
    replace (-52 + 0 - -52) with 0 by lia. replace (0 - -52) with 52 by lia.
    rewrite Z.pow_0_r, Z.mul_1_r. change (2 ^ 52) with 4503599627370496. lia. }
  specialize (Hl Hd).
  destruct (round_located _ _ _ _) as [s'|s'| |s' p ep]; cbn [at_least];
    cbv beta iota in Hl; try contradiction.
  - subst s'. exact I.
  - destruct Hl as (-> & ? & ? & ?). auto.
Qed.

Lemma mul_hundred_ge q : at_least q 4503599627370496 (-52) ->
  at_least (F64.mul q hundred) 7036874417766400 (-46).
Proof.
  intros H. destruct q as [s|s| |s p e]; cbn [at_least] in H.
  - contradiction.
  - destruct s; [contradiction | exact I].
  - contradiction.
  - destruct s; [contradiction|]. destruct H as (Hc & He & Hle).
    unfold F64.mul, hundred. rewrite SFmul_finite. cbn [xorb].
    assert (H100 : canonical 7036874417766400 (-46)) by (apply canonical_dec; vm_compute; reflexivity).
    pose proof (round_lower false (Zpos p * 7036874417766400) 1 (e + -46)
                  7036874417766400 (-46) ltac:(lia) ltac:(lia)
                  (mul_enough _ _ _ _ Hc H100) H100) as Hl.
    assert (Hd : dle (7036874417766400 * 1) (-46) (Z.pos p * 7036874417766400) (e + -46)).
    { rewrite Z.mul_1_r.
      apply dle_trans with (4503599627370496 * 7036874417766400) (-52 + -46).
      - (apply dle_dec; vm_compute; reflexivity).
      - apply dle_shift, dle_mul_r; [lia | exact Hle]. }
    specialize (Hl Hd).
    destruct (round_located _ _ _ _) as [s'|s'| |s' q eq]; cbn [at_least];
      cbv beta iota in Hl; try contradiction.
    + subst s'. exact I.
    + destruct Hl as (-> & ? & ? & ?). auto.
Qed.

Lemma round2_hundred_ge r : at_least r 7036874417766400 (-46) ->
  at_least (F64.round2 r) 7036874417766400 (-46).
Proof.
  intros H. destruct r as [s|s| |s m e]; cbn [at_least] in H.
  - contradiction.
  - destruct s; [contradiction | exact I].
  - contradiction.
  - destruct s; [contradiction|]. destruct H as (Hc & He & Hle).
    assert (H100 : canonical 7036874417766400 (-46)) by (apply canonical_dec; vm_compute; reflexivity).
    assert (Hk : 10000 <= F64.scaled_digits 2 m e).
    { unfold F64.scaled_digits. change (10 ^ 2) with 100.
      destruct (Z.leb_spec 0 e) as [He0|He0].
      - specialize (Hle (-46) ltac:(lia) ltac:(lia)).
        rewrite Z.sub_diag, Z.pow_0_r, Z.mul_1_r in Hle.
        replace (e - -46) with (e + 46) in Hle by lia.
        rewrite Z.pow_add_r in Hle by lia.
        change (2 ^ 46) with 70368744177664 in Hle.
        pose proof (pow2_pos e He0). nia.
      - assert (0 < 2 ^ (- e)) by (apply Z.pow_pos_nonneg; lia).
        apply div_half_even_ge; [lia | lia |].
        specialize (Hle (Z.min e (-46)) ltac:(lia) ltac:(lia)).
        destruct (Z_le_gt_dec e (-46)) as [Hc1|Hc1].
        + replace (Z.min e (-46)) with e in Hle by lia.
          rewrite Z.sub_diag, Z.pow_0_r, Z.mul_1_r in Hle.
          replace (- e) with (46 + (-46 - e)) by lia.
          rewrite Z.pow_add_r by lia. change (2 ^ 46) with 70368744177664. lia.
        + replace (Z.min e (-46)) with (-46) in Hle by lia.
          rewrite Z.sub_diag, Z.pow_0_r, Z.mul_1_r in Hle.
          assert (E : 2 ^ (- e) * 2 ^ (e - -46) = 2 ^ 46)
            by (rewrite <- Z.pow_add_r by lia; f_equal; lia).
          change (2 ^ 46) with 70368744177664 in E.
          pose proof (pow2_pos (e - -46) ltac:(lia)). nia. }
    unfold F64.round2.
    destruct (F64.scaled_digits 2 m e) as [|k|k] eqn:Ek; try lia.
    rewrite round_ratio_located.
    pose proof (round_lower false (div_num (Zpos k) 0 100 0) 100
                  (div_exp (Zpos k) 0 100 0) 7036874417766400 (-46)
                  (div_num_nonneg (Zpos k) 0 100 0 ltac:(lia)) ltac:(lia)
                  (div_enough (Zpos k) 0 100 0 ltac:(lia) ltac:(lia)) H100) as Hl.
    assert (Hd : dle (7036874417766400 * 100) (-46)
                   (div_num (Z.pos k) 0 100 0) (div_exp (Z.pos k) 0 100 0)).
    { apply div_dle_lower. apply dle_intro with (-46); [lia..|].
      replace (-46 + 0 - -46) with 0 by lia. replace (0 - -46) with 46 by lia.
      rewrite Z.pow_0_r, Z.mul_1_r. change (2 ^ 46) with 70368744177664. lia. }
    specialize (Hl Hd).
    destruct (round_located _ _ _ _) as [s'|s'| |s' p ep]; cbn [at_least];
      cbv beta iota in Hl; try contradiction.
    + subst s'. exact I.
    + destruct Hl as (-> & ? & ? & ?). auto.
Qed.

Lemma at_least_leb x mb eb : canonical (Zpos mb) eb -> at_least x (Zpos mb) eb ->
  F64.leb (S754_finite false mb eb) x = true /\ F64.valid x.
Proof.
  intros Hb H. destruct x as [s|s| |s m e]; cbn [at_least] in H.
  - contradiction.
  - destruct s; [contradiction|]. split; reflexivity.
  - contradiction.
  - destruct s; [contradiction|]. destruct H as (Hc & He & Hle). split.
    + apply SFleb_canonical; assumption.
    + apply valid_canonical. auto.
Qed.

(** At 100 or more the cap applies. *)
Lemma min_hundred_cap u : F64.valid u -> F64.leb hundred u = true ->
  F64.min u hundred = hundred.
Proof.
  intros Hv Hu.
  assert (H100 : canonical 7036874417766400 (-46)) by (apply canonical_dec; vm_compute; reflexivity).
  destruct u as [s|s| |s m e].
  - destruct s; discriminate.
  - destruct s; [discriminate | reflexivity].
  - discriminate.
  - destruct s; [discriminate|].
    apply valid_canonical in Hv. destruct Hv as [Hc He].
    unfold F64.min, F64.ltb.
    destruct (SFltb hundred (S754_finite false m e)) eqn:E; [reflexivity|].
    unfold hundred in *.
    apply (SFltb_canonical _ _ _ _ H100 Hc) in E.
    apply (SFleb_canonical _ _ _ _ H100 Hc) in Hu.
    apply canonical_unique; assumption.
Qed.

(** From 100.0 on the utilization counts for 50 points. *)
Lemma risk_score_at_cap (utilization_pct : F64.float) (days_to_expiry : Z) :
  F64.valid utilization_pct -> F64.leb (F64.lit 100 1) utilization_pct = true ->
  calculate_risk_score utilization_pct days_to_expiry
  = Ok (50 + expiry_score days_to_expiry).
Proof.
  intros Hv Hu. rewrite lit_100 in Hu.
  unfold calculate_risk_score. rewrite float_div_int_100. cbn [mbind result_bind].
  rewrite (min_div_hundred _ Hv), (min_hundred_cap _ Hv Hu).
  destruct (expiry_score_cases days_to_expiry) as [E|[E|[E|E]]]; rewrite E;
    vm_compute; reflexivity.
Qed.

Lemma risk_score_zero s d : calculate_risk_score (S754_zero s) d = Ok (expiry_score d).
Proof.
  unfold calculate_risk_score.
  destruct (expiry_score_cases d) as [E|[E|[E|E]]]; rewrite E;
    destruct s; vm_compute; reflexivity.
Qed.

(** Over-consumption: at least 100 percent. *)
Lemma utilization_pct_over (protected_vms entitled_vms : Z) :
  0 < entitled_vms <= protected_vms -> protected_vms <= max_double * entitled_vms ->
  exists u, calculate_utilization_pct protected_vms entitled_vms = Ok u /\
    F64.valid u /\ F64.leb (F64.lit 100 1) u = true.
Proof.
  intros He Hp. unfold calculate_utilization_pct.
  destruct (Z.leb_spec entitled_vms 0); [lia|].
  assert (H100 : canonical 7036874417766400 (-46)) by (apply canonical_dec; vm_compute; reflexivity).
  assert (Hq : exists q, F64.truediv protected_vms entitled_vms = Ok q /\
                 at_least q 4503599627370496 (-52)).
  { unfold F64.truediv. destruct entitled_vms as [|e|e]; try lia.
    destruct protected_vms as [|p|p]; try lia.
    change (Z.to_pos (Z.abs (Z.pos p))) with p. change (Z.to_pos (Z.abs (Z.pos e))) with e.
    change (xorb (Z.pos p <? 0) (Z.pos e <? 0)) with false.
    pose proof (round_ratio_ge_one p e ltac:(lia)) as Hr.
    pose proof (round_ratio_in_range false p e Hp) as Hi.
    destruct (F64.round_ratio false p e) as [s'|s'| |s' m ex];
      cbn [at_least] in Hr; cbv beta iota in Hi; try contradiction.
    eexists; split; [reflexivity | exact Hr]. }
  destruct Hq as (q & Eq & Hq). rewrite Eq. cbn [mbind result_bind].
  rewrite float_mul_int_100. cbn [mbind result_bind].
  eexists; split; [reflexivity|]. rewrite !lit_100.
  pose proof (at_least_leb _ _ _ H100 (round2_hundred_ge _ (mul_hundred_ge _ Hq))) as (H1 & H2).
  auto.
Qed.

(** Adding a positive float [E] to a score in [0, 50]: the sum is at most
    a float [B] that is at least [50 + E]. *)
Lemma add_expiry_upper util mE eE mB eB c0 :
  nonneg_le util 7036874417766400 (-47) ->
  canonical (Zpos mE) eE -> eE <= 971 ->
  dle (Zpos mE) eE 7036874417766400 (-47) ->
  canonical (Zpos mB) eB -> eB <= 971 ->
  c0 <= -47 -> c0 <= eE -> c0 <= eB ->
  7036874417766400 * 2 ^ (-47 - c0) + Zpos mE * 2 ^ (eE - c0) <= Zpos mB * 2 ^ (eB - c0) ->
  match F64.add util (S754_finite false mE eE) with
  | S754_finite false p ep => dle (Zpos p) ep (Zpos mB) eB
  | _ => False
  end.
Proof.
  intros H HcE HeE HE50 HcB HeB Hc1 Hc2 Hc3 Hsum.
  pose proof (add_expiry util mE eE H HcE HeE HE50) as Hshape.
  destruct util as [s|s| |s p e]; cbn [nonneg_le] in H.
  - cbn. apply dle_intro with c0; [lia..|].
    pose proof (pow2_pos (-47 - c0) ltac:(lia)). lia.
  - contradiction.
  - contradiction.
  - destruct s; [contradiction|]. destruct H as (Hc & He & Hle).
    revert Hshape. unfold F64.add. rewrite SFadd_pos.
    set (ez := Z.min e eE).
    set (S := Z.pos p * 2 ^ (e - ez) + Z.pos mE * 2 ^ (eE - ez)).
    assert (HS : 0 < S).
    { unfold S. pose proof (pow2_pos (e - ez) ltac:(unfold ez; lia)).
      pose proof (pow2_pos (eE - ez) ltac:(unfold ez; lia)). nia. }
    pose proof (round_exp_le S ez) as Hre.
    set (e' := round_exp S ez) in *.
    assert (HN : 0 <= S * 2 ^ (ez - e'))
      by (pose proof (pow2_pos (ez - e') ltac:(lia)); nia).
    pose proof (round_enough S ez HS) as Hen. fold e' in Hen.
    pose proof (round_upper false (S * 2 ^ (ez - e')) 1 e' (Zpos mB) eB
                  HN ltac:(lia) Hen HcB HeB) as Hu.
    assert (Hup : dle (S * 2 ^ (ez - e')) e' (Zpos mB * 1) eB).
    { rewrite Z.mul_1_r. set (c := Z.min e' c0).
      apply dle_intro with c; [unfold c; lia..|].
      rewrite <- Z.mul_assoc, <- Z.pow_add_r by (unfold c; lia).
      replace (ez - e' + (e' - c)) with (ez - c) by lia.
      unfold S, ez. rewrite sum_scaled by (unfold c, ez in *; lia).
      specialize (Hle c ltac:(unfold c, ez in *; lia) ltac:(unfold c; lia)).
      assert (Hs : (7036874417766400 * 2 ^ (-47 - c0) + Zpos mE * 2 ^ (eE - c0)) * 2 ^ (c0 - c)
                   <= Zpos mB * 2 ^ (eB - c0) * 2 ^ (c0 - c)).
      { apply Z.mul_le_mono_nonneg_r; [apply Z.pow_nonneg; lia | exact Hsum]. }
      rewrite Z.mul_add_distr_r, <- !Z.mul_assoc, <- !Z.pow_add_r in Hs by (unfold c; lia).
      replace (-47 - c0 + (c0 - c)) with (-47 - c) in Hs by lia.
      replace (eE - c0 + (c0 - c)) with (eE - c) in Hs by lia.
      replace (eB - c0 + (c0 - c)) with (eB - c) in Hs by lia.
      lia. }
    specialize (Hu Hup).
    destruct (round_located _ _ _ _) as [s'|s'| |s' q eq]; try tauto.
    destruct s'; [tauto|]. intros _. tauto.
Qed.

(** The risk score is the expiry score plus at most 50. *)
Lemma risk_score_expiry_band (utilization_pct : F64.float) (days_to_expiry : Z) :
  F64.valid utilization_pct -> F64.leb F64.zero utilization_pct = true ->
  exists score, calculate_risk_score utilization_pct days_to_expiry = Ok score /\
    expiry_score days_to_expiry <= score <= 50 + expiry_score days_to_expiry.
Proof.
  intros Hv Hu.
  pose proof (mul_fifty_le _ (min_one_le _ (div_hundred_nonneg _ (leb_zero_nonneg _ Hv Hu)))) as Hm.
  unfold calculate_risk_score, float_div_int, float_mul_int, float_add_int.
  rewrite of_int_100, of_int_50. cbn [mbind result_bind hundred].
  fold hundred. fold fifty.
  set (util := F64.mul (F64.min (F64.div utilization_pct hundred) F64.one) fifty) in *.
  assert (Hadd : forall z mE eE mB eB c0,
            F64.of_int z = Ok (S754_finite false mE eE) ->
            canonical (Zpos mE) eE -> eE <= 971 ->
            dle (Zpos mE) eE 7036874417766400 (-47) ->
            dle z 0 (Zpos mE) eE ->
            canonical (Zpos mB) eB -> eB <= 971 ->
            c0 <= -47 -> c0 <= eE -> c0 <= eB ->
            7036874417766400 * 2 ^ (-47 - c0) + Zpos mE * 2 ^ (eE - c0)
              <= Zpos mB * 2 ^ (eB - c0) ->
            dle (Zpos mB) eB (50 + z) 0 -> z <= 50 ->
            exists k, (y ← F64.of_int z; s ← Ok (F64.add util y);
                       score ← F64.to_int s; Ok (int_min score 100)) = Ok k /\
              z <= k <= 50 + z).
  { intros z mE eE mB eB c0 Ez Hc He H50 Hz HcB HeB Hc1 Hc2 Hc3 Hsum HB Hz50.
    rewrite Ez. cbn [mbind result_bind].
    pose proof (add_expiry util mE eE Hm Hc He H50) as Ha.
    pose proof (add_expiry_upper util mE eE mB eB c0 Hm Hc He H50 HcB HeB Hc1 Hc2 Hc3 Hsum) as Hb.
    destruct (F64.add util _) as [s'|s'| |s' q eq]; try contradiction.
    destruct s'; [contradiction|]. destruct Ha as (Hcq & Heq & HqE & Hq100).
    destruct (to_int_bounds q eq z (50 + z)) as (k & Hk & Hf & Hkb).
    - eapply dle_trans; eassumption.
    - eapply dle_trans; eassumption.
    - exists k. rewrite Hk. cbn [mbind result_bind].
      rewrite int_min_le by lia. split; [reflexivity | exact Hkb]. }
  destruct (expiry_score_cases days_to_expiry) as [E|[E|[E|E]]]; rewrite E.
  - apply (Hadd 50 7036874417766400%positive (-47) 7036874417766400%positive (-46) (-47));
      [reflexivity | (apply canonical_dec; vm_compute; reflexivity) | lia
      | (apply dle_dec; vm_compute; reflexivity) | (apply dle_dec; vm_compute; reflexivity)
      | (apply canonical_dec; vm_compute; reflexivity) | lia | lia | lia | lia
      | vm_compute; discriminate | (apply dle_dec; vm_compute; reflexivity) | lia].
  - apply (Hadd 30 8444249301319680%positive (-48) 5629499534213120%positive (-46) (-48));
      [reflexivity | (apply canonical_dec; vm_compute; reflexivity) | lia
      | (apply dle_dec; vm_compute; reflexivity) | (apply dle_dec; vm_compute; reflexivity)
      | (apply canonical_dec; vm_compute; reflexivity) | lia | lia | lia | lia
      | vm_compute; discriminate | (apply dle_dec; vm_compute; reflexivity) | lia].
  - apply (Hadd 15 8444249301319680%positive (-49) 4573968371548160%positive (-46) (-49));
      [reflexivity | (apply canonical_dec; vm_compute; reflexivity) | lia
      | (apply dle_dec; vm_compute; reflexivity) | (apply dle_dec; vm_compute; reflexivity)
      | (apply canonical_dec; vm_compute; reflexivity) | lia | lia | lia | lia
      | vm_compute; discriminate | (apply dle_dec; vm_compute; reflexivity) | lia].
  - apply (Hadd 5 5629499534213120%positive (-50) 7740561859543040%positive (-47) (-50));
      [reflexivity | (apply canonical_dec; vm_compute; reflexivity) | lia
      | (apply dle_dec; vm_compute; reflexivity) | (apply dle_dec; vm_compute; reflexivity)
      | (apply canonical_dec; vm_compute; reflexivity) | lia | lia | lia | lia
      | vm_compute; discriminate | (apply dle_dec; vm_compute; reflexivity) | lia].
Qed.

(** Property X2. For a non-negative utilization the risk score is at least the
    expiry score and at most 50 more: the utilization never adds more than 50
    points, so that with more than a year left the score is at most 55. *)
Theorem risk_score_band (utilization_pct : F64.float) (days_to_expiry : Z) :
  F64.valid utilization_pct -> F64.leb F64.zero utilization_pct = true ->
  exists score, calculate_risk_score utilization_pct days_to_expiry = Ok score /\
    expiry_score days_to_expiry <= score <= 50 + expiry_score days_to_expiry /\
    (365 < days_to_expiry -> score <= 55).
Proof.
  intros Hv Hu.
  destruct (risk_score_expiry_band utilization_pct days_to_expiry Hv Hu)
    as (score & E & Hb).
  exists score. split; [exact E|]. split; [exact Hb|].
  intros Hd. unfold expiry_score in Hb.
  destruct (Z.leb_spec days_to_expiry 30); [lia|].
  destruct (Z.leb_spec days_to_expiry 90); [lia|].
  destruct (Z.leb_spec days_to_expiry 365); lia.
Qed.

Lemma risk_score_band_witness :
  exists score, calculate_risk_score (F64.lit 824 10) 180 = Ok score /\
    expiry_score 180 <= score <= 50 + expiry_score 180 /\
    (365 < 180 -> score <= 55).
Proof. apply (risk_score_band (F64.lit 824 10) 180); reflexivity. Defined.

(** Property X3. From a utilization of 100.0 on the risk score is 50 plus the
    expiry score: 100, 80, 65 or 55; at a utilization of zero it is the expiry
    score. *)
Theorem risk_score_saturated (utilization_pct : F64.float) (days_to_expiry : Z) :
  F64.valid utilization_pct -> F64.leb (F64.lit 100 1) utilization_pct = true ->
  calculate_risk_score utilization_pct days_to_expiry
  = Ok (50 + expiry_score days_to_expiry) /\
  calculate_risk_score F64.zero days_to_expiry = Ok (expiry_score days_to_expiry).
Proof.
  intros Hv Hu. split; [apply risk_score_at_cap; assumption | apply risk_score_zero].
Qed.

Lemma risk_score_saturated_witness :
  calculate_risk_score (F64.lit 120 1) 25 = Ok (50 + expiry_score 25) /\
  calculate_risk_score F64.zero 25 = Ok (expiry_score 25).
Proof. apply (risk_score_saturated (F64.lit 120 1) 25); reflexivity. Defined.

(** ** zerto/data.py: thresholds and special values *)

Lemma float_mul_int_returns x : float_mul_int x 100 = Ok (F64.mul x hundred).
Proof. reflexivity. Qed.

Lemma utilization_alerts_cases u c w :
  utilization_alerts u c w = [] \/
  (exists a, utilization_alerts u c w = [a] /\ severity a = "critical"%string) \/
  (exists a, utilization_alerts u c w = [a] /\ severity a = "warning"%string).
Proof.
  unfold utilization_alerts.
  destruct (F64.leb c u); [right; left; eexists; split; reflexivity|].
  destruct (F64.leb w u); [right; right; eexists; split; reflexivity|].
  left. reflexivity.
Qed.

Lemma expiry_alerts_cases d expiry : expiry_alerts d = Ok expiry ->
  expiry = [] \/
  (exists a, expiry = [a] /\ severity a = "warning"%string) \/
  (exists a, expiry = [a] /\ severity a = "info"%string).
Proof.
  unfold expiry_alerts.
  destruct (d <=? 30).
  { destruct (int_str d); [|discriminate]. intros [= <-].
    right; left; eexists; split; reflexivity. }
  destruct (d <=? 90).
  { destruct (int_str d); [|discriminate]. intros [= <-].
    right; right; eexists; split; reflexivity. }
  intros [= <-]. left. reflexivity.
Qed.

(** The alerts are those of the utilization, at the thresholds times 100,
    then those of the expiry, whose exception is the only one. *)
Lemma generate_alerts_eq (utilization_pct : F64.float)
    (days_to_expiry : Z) (alert_thresholds : option (gmap string F64.float)) :
  generate_alerts utilization_pct days_to_expiry alert_thresholds
  = (expiry ← expiry_alerts days_to_expiry;
     Ok (utilization_alerts utilization_pct
           (F64.mul
              (default (F64.lit 95 100)
                 (default default_thresholds alert_thresholds
                    !! "utilization_crit"%string)) hundred)
           (F64.mul
              (default (F64.lit 80 100)
                 (default default_thresholds alert_thresholds
                    !! "utilization_warn"%string)) hundred)
         ++ expiry)).
Proof.
  unfold generate_alerts. rewrite !float_mul_int_returns. reflexivity.
Qed.

(** When [generate_alerts] returns, it returns at most one utilization
    alert, then at most one expiry alert. *)
Lemma generate_alerts_shape (utilization_pct : F64.float)
    (days_to_expiry : Z) (alert_thresholds : option (gmap string F64.float))
    (alerts : list alert) :
  generate_alerts utilization_pct days_to_expiry alert_thresholds = Ok alerts ->
  exists utilization expiry,
    alerts = utilization ++ expiry /\
    expiry_alerts days_to_expiry = Ok expiry /\
    (length utilization <= 1)%nat /\ (length expiry <= 1)%nat /\
    Forall (fun a => severity a = "critical" \/ severity a = "warning")%string
      utilization /\
    Forall (fun a => severity a = "warning" \/ severity a = "info")%string expiry.
Proof.
  rewrite generate_alerts_eq.
  destruct (expiry_alerts days_to_expiry) as [expiry|] eqn:Ee; [|discriminate].
  cbn [mbind result_bind]. intros [= <-].
  eexists _, expiry. split; [reflexivity|]. split; [reflexivity|].
  match goal with |- context [utilization_alerts ?u ?c ?w] =>
    destruct (utilization_alerts_cases u c w) as [E|[(a & E & S)|(a & E & S)]];
    rewrite E
  end;
  destruct (expiry_alerts_cases _ _ Ee) as [E'|[(b & E' & S')|(b & E' & S')]];
  rewrite E'; cbn [length];
  (split; [lia|]); (split; [lia|]);
  (split; repeat (apply List.Forall_cons; [tauto|]); apply List.Forall_nil).
Qed.

Lemma generate_alerts_returns u d t : - 10 ^ int_max_str_digits < d ->
  exists alerts, generate_alerts u d t = Ok alerts.
Proof.
  intros H. rewrite generate_alerts_eq, (expiry_alerts_returns d H).
  eexists. reflexivity.
Qed.

Lemma generate_alerts_raises u d t : d <= - 10 ^ int_max_str_digits ->
  generate_alerts u d t = Raise int_limit_error.
Proof.
  intros H. rewrite generate_alerts_eq, (expiry_alerts_raises d H). reflexivity.
Qed.

(** Property X4. Whatever the utilization and the thresholds,
    [generate_alerts] returns exactly when the days to expiry are above
    [-(10^4300)]: then it gives at most one utilization alert ("critical" or
    "warning") followed by at most one expiry alert ("warning" or "info"),
    so at most two alerts; below, formatting the days raises [ValueError]. *)
Theorem generate_alerts_at_most_two (utilization_pct : F64.float)
    (days_to_expiry : Z) (alert_thresholds : option (gmap string F64.float)) :
  (- 10 ^ int_max_str_digits < days_to_expiry ->
   exists alerts utilization expiry,
     generate_alerts utilization_pct days_to_expiry alert_thresholds = Ok alerts /\
     alerts = utilization ++ expiry /\
     expiry_alerts days_to_expiry = Ok expiry /\
     (length alerts <= 2)%nat /\
     (length utilization <= 1)%nat /\ (length expiry <= 1)%nat /\
     Forall (fun a => severity a = "critical" \/ severity a = "warning")%string
       utilization /\
     Forall (fun a => severity a = "warning" \/ severity a = "info")%string expiry) /\
  (days_to_expiry <= - 10 ^ int_max_str_digits ->
   generate_alerts utilization_pct days_to_expiry alert_thresholds
   = Raise int_limit_error).
Proof.
  split; [|apply generate_alerts_raises].
  intros Hd.
  destruct (generate_alerts_returns utilization_pct days_to_expiry alert_thresholds Hd)
    as (alerts & E).
  destruct (generate_alerts_shape _ _ _ _ E) as (ua & ea & -> & Eea & Lu & Le & Hu & He).
  exists (ua ++ ea), ua, ea. rewrite length_app. repeat split; auto. lia.
Qed.

Lemma generate_alerts_at_most_two_witness :
  exists alerts utilization expiry,
    generate_alerts (F64.lit 96 1) 25 None = Ok alerts /\
    alerts = utilization ++ expiry /\
    expiry_alerts 25 = Ok expiry /\
    (length alerts <= 2)%nat /\
    (length utilization <= 1)%nat /\ (length expiry <= 1)%nat /\
    Forall (fun a => severity a = "critical" \/ severity a = "warning")%string
      utilization /\
    Forall (fun a => severity a = "warning" \/ severity a = "info")%string expiry.
Proof.
  apply (proj1 (generate_alerts_at_most_two (F64.lit 96 1) 25 None)).
  vm_compute. reflexivity.
Defined.

(** Property X5. The thresholds are read from the two keys of the dictionary,
    each with its default. *)
Theorem generate_alerts_threshold_defaults (utilization_pct : F64.float)
    (days_to_expiry : Z) :
  (forall t1 t2 : gmap string F64.float,
     t1 !! "utilization_crit"%string = t2 !! "utilization_crit"%string ->
     t1 !! "utilization_warn"%string = t2 !! "utilization_warn"%string ->
     generate_alerts utilization_pct days_to_expiry (Some t1)
     = generate_alerts utilization_pct days_to_expiry (Some t2)) /\
  (forall t : gmap string F64.float,
     generate_alerts utilization_pct days_to_expiry (Some t)
     = generate_alerts utilization_pct days_to_expiry
         (Some (t ∪ default_thresholds))) /\
  generate_alerts utilization_pct days_to_expiry (Some ∅)
  = generate_alerts utilization_pct days_to_expiry None.
Proof.
  assert (H1 : forall t1 t2 : gmap string F64.float,
     t1 !! "utilization_crit"%string = t2 !! "utilization_crit"%string ->
     t1 !! "utilization_warn"%string = t2 !! "utilization_warn"%string ->
     generate_alerts utilization_pct days_to_expiry (Some t1)
     = generate_alerts utilization_pct days_to_expiry (Some t2)).
  { intros t1 t2 Hc Hw. unfold generate_alerts. cbn [default from_option id].
    rewrite Hc, Hw. reflexivity. }
  split; [exact H1|]. split.
  - intros t. unfold generate_alerts. cbn [default from_option id].
    assert (Hc : default (F64.lit 95 100) ((t ∪ default_thresholds) !! "utilization_crit"%string)
                 = default (F64.lit 95 100) (t !! "utilization_crit"%string)).
    { destruct (t !! "utilization_crit"%string) as [x|] eqn:E.
      - rewrite (lookup_union_Some_l _ _ _ _ E). reflexivity.
      - rewrite (lookup_union_r _ _ _ E). reflexivity. }
    assert (Hw : default (F64.lit 80 100) ((t ∪ default_thresholds) !! "utilization_warn"%string)
                 = default (F64.lit 80 100) (t !! "utilization_warn"%string)).
    { destruct (t !! "utilization_warn"%string) as [x|] eqn:E.
      - rewrite (lookup_union_Some_l _ _ _ _ E). reflexivity.
      - rewrite (lookup_union_r _ _ _ E). reflexivity. }
    rewrite Hc, Hw. reflexivity.
  - reflexivity.
Qed.

(** Property X6. A utilization that is not a number makes
    [calculate_risk_score] raise [ValueError] and [generate_alerts] give no
    utilization alert: its result is that of the expiry alerts, their
    exception included. Minus infinity makes the score raise
    [OverflowError]; plus infinity counts as a full utilization. *)
Theorem non_finite_utilization (days_to_expiry : Z)
    (alert_thresholds : option (gmap string F64.float)) :
  calculate_risk_score S754_nan days_to_expiry
  = Raise (ValueError "cannot convert float NaN to integer") /\
  calculate_risk_score (S754_infinity true) days_to_expiry = Raise OverflowError /\
  calculate_risk_score (S754_infinity false) days_to_expiry
  = Ok (50 + expiry_score days_to_expiry) /\
  generate_alerts S754_nan days_to_expiry alert_thresholds
  = expiry_alerts days_to_expiry.
Proof.
  split; [|split; [|split]].
  - unfold calculate_risk_score.
    destruct (expiry_score_cases days_to_expiry) as [E|[E|[E|E]]]; rewrite E; reflexivity.
  - unfold calculate_risk_score.
    destruct (expiry_score_cases days_to_expiry) as [E|[E|[E|E]]]; rewrite E; reflexivity.
  - unfold calculate_risk_score.
    destruct (expiry_score_cases days_to_expiry) as [E|[E|[E|E]]]; rewrite E;
      vm_compute; reflexivity.
  - rewrite generate_alerts_eq.
    unfold utilization_alerts, F64.leb, SFleb.
    assert (Hn : forall x, SFcompare x S754_nan = None) by (intros [| | |]; reflexivity).
    rewrite !Hn. destruct (expiry_alerts days_to_expiry); reflexivity.
Qed.

(** ** zerto/data.py: the forecast *)

Lemma string_length_app (a b : string) :
  String.length (a ++ b) = (String.length a + String.length b)%nat.
Proof. induction a as [|c a IH]; simpl; [reflexivity | rewrite IH; reflexivity]. Qed.

Lemma pad_length width z : (width <= String.length (Calendar.pad width z))%nat.
Proof.
  unfold Calendar.pad. rewrite string_length_app.
  assert (H : forall n, String.length (String.concat "" (repeat "0"%string n)) = n).
  { induction n as [|n IH]; [reflexivity|].
    destruct n as [|n]; [reflexivity|].
    change (String.concat "" (repeat "0"%string (S (S n))))
      with ("0" ++ "" ++ String.concat "" (repeat "0"%string (S n)))%string.
    rewrite !string_length_app, IH. reflexivity. }
  rewrite H. lia.
Qed.

Lemma strftime_ymd_length o : (10 <= String.length (Calendar.strftime_ymd o))%nat.
Proof.
  unfold Calendar.strftime_ymd. destruct (Calendar.ord2ymd o) as [[y m] d].
  rewrite !string_length_app.
  pose proof (pad_length 4 y). pose proof (pad_length 2 m). pose proof (pad_length 2 d).
  simpl String.length. lia.
Qed.

(** A positive quotient that is returned is a positive float. *)
Lemma truediv_rate a : 0 < a ->
  forall rate, F64.truediv a 7 = Ok rate -> F64.leb rate F64.zero = false.
Proof.
  intros Ha rate. unfold F64.truediv.
  destruct a as [|a|a]; try lia.
  change (Z.to_pos (Z.abs (Z.pos a))) with a. change (Z.to_pos (Z.abs 7)) with 7%positive.
  change (xorb (Z.pos a <? 0) (7 <? 0)) with false.
  pose proof (round_ratio_positive false a 7 ltac:(lia)) as H.
  destruct (F64.round_ratio false a 7) as [s'|s'| |s' p ep];
    cbv beta iota in H; try contradiction; [discriminate|].
  subst s'. intros [= <-]. reflexivity.
Qed.

(** With three samples or more the forecast is one of "Stable",
    "Stable (decreasing)" and a date, or an [OverflowError]. *)
Lemma forecast_with_samples today history entitled_vms l :
  history !! "days_7"%string = Some l -> (3 <= length l)%nat ->
  forecast_runout_date today history entitled_vms = Ok "Stable"%string \/
  forecast_runout_date today history entitled_vms = Ok "Stable (decreasing)"%string \/
  forecast_runout_date today history entitled_vms
  = Ok (Calendar.strftime_ymd (today + 90)) \/
  forecast_runout_date today history entitled_vms = Raise OverflowError.
Proof.
  intros Hl Hlen. unfold forecast_runout_date.
  assert (Hne : bool_decide (history = ∅) = false).
  { apply bool_decide_eq_false. intros ->. rewrite lookup_empty in Hl. discriminate. }
  rewrite Hne, Hl. cbn [orb default from_option id].
  destruct (Z.ltb_spec (Z.of_nat (length l)) 3); [lia|].
  destruct (Z.ltb_spec (Z.of_nat (length l)) 2); [lia|].
  destruct l as [|x l']; [simpl in Hlen; lia|].
  cbn [list_last list_first mbind result_bind].
  set (delta := List.last l' x - x).
  destruct (Z.eqb_spec delta 0); [left; reflexivity|].
  destruct (Z.ltb_spec delta 0); [right; left; reflexivity|].
  right; right.
  destruct (F64.truediv delta 7) as [rate|e] eqn:Er.
  - cbn [mbind result_bind].
    rewrite (truediv_rate delta ltac:(lia) rate Er).
    unfold Calendar.add_days.
    destruct ((1 <=? today + 90) && (today + 90 <=? Calendar.max_ordinal));
      [left | right]; reflexivity.
  - right. cbn [mbind result_bind].
    revert Er. unfold F64.truediv. destruct delta as [|a|a]; try lia.
    destruct (F64.round_ratio _ _ _); try discriminate. intros [= <-]. reflexivity.
Qed.

(** Property X7. The forecast is "N/A" exactly when the history is empty, has
    no "days_7" key or has fewer than three samples there. *)
Theorem forecast_not_available (today : Z) (history : gmap string (list Z))
    (entitled_vms : Z) :
  forecast_runout_date today history entitled_vms = Ok "N/A"%string <->
  (history = ∅ \/ history !! "days_7"%string = None \/
   exists l, history !! "days_7"%string = Some l /\ (length l < 3)%nat).
Proof.
  split.
  - intros H. destruct (history !! "days_7"%string) as [l|] eqn:El; [|auto].
    destruct (Nat.lt_ge_cases (length l) 3) as [Hlt|Hge]; [eauto|].
    exfalso.
    destruct (forecast_with_samples today history entitled_vms l El Hge)
      as [E|[E|[E|E]]]; rewrite E in H; try discriminate.
    injection H as H. pose proof (strftime_ymd_length (today + 90)) as Hlen.
    rewrite H in Hlen. simpl in Hlen. lia.
  - intros H. unfold forecast_runout_date.
    destruct (bool_decide (history = ∅)) eqn:E; [reflexivity|].
    destruct H as [H|[H|(l & H & Hl)]].
    + apply bool_decide_eq_false in E. contradiction.
    + rewrite H. reflexivity.
    + rewrite H. cbn [orb].
      destruct (Z.ltb_spec (Z.of_nat (length l)) 3); [reflexivity|lia].
Qed.

(** Property X8. With three samples or more, only the first and the last
    sample of "days_7" count: the samples between them, the other keys of the
    history and the entitlement do not change the result. *)
Theorem forecast_uses_endpoints (today : Z) (h1 h2 : gmap string (list Z))
    (e1 e2 : Z) (l1 l2 : list Z) :
  h1 !! "days_7"%string = Some l1 -> h2 !! "days_7"%string = Some l2 ->
  (3 <= length l1)%nat -> (3 <= length l2)%nat ->
  List.hd 0 l1 = List.hd 0 l2 -> List.last l1 0 = List.last l2 0 ->
  forecast_runout_date today h1 e1 = forecast_runout_date today h2 e2.
Proof.
  intros H1 H2 L1 L2 Hh Hl. unfold forecast_runout_date.
  assert (N1 : bool_decide (h1 = ∅) = false).
  { apply bool_decide_eq_false. intros ->. rewrite lookup_empty in H1. discriminate. }
  assert (N2 : bool_decide (h2 = ∅) = false).
  { apply bool_decide_eq_false. intros ->. rewrite lookup_empty in H2. discriminate. }
  rewrite N1, N2, H1, H2. cbn [orb default from_option id].
  destruct (Z.ltb_spec (Z.of_nat (length l1)) 3); [lia|].
  destruct (Z.ltb_spec (Z.of_nat (length l1)) 2); [lia|].
  destruct (Z.ltb_spec (Z.of_nat (length l2)) 3); [lia|].
  destruct (Z.ltb_spec (Z.of_nat (length l2)) 2); [lia|].
  destruct l1 as [|x1 l1']; [simpl in L1; lia|].
  destruct l2 as [|x2 l2']; [simpl in L2; lia|].
  cbn [list_last list_first mbind result_bind].
  rewrite !list_last_default in Hl. cbn [hd] in Hh. rewrite Hl, Hh. reflexivity.
Qed.

Lemma forecast_uses_endpoints_witness :
  forecast_runout_date 739923 {[ "days_7"%string := [400; 405; 412] ]} 500
  = forecast_runout_date 739923
      {[ "days_7"%string := [400; 380; 990; 412]; "days_30"%string := [1] ]} 100.
Proof.
  apply (forecast_uses_endpoints 739923 _ _ 500 100 [400; 405; 412] [400; 380; 990; 412]);
    [reflexivity | reflexivity | simpl; lia | simpl; lia | reflexivity | reflexivity].
Defined.

(** ** zerto/data.py: the derived metrics *)

Lemma mul_hundred_nonneg q : nonneg q -> nonneg (F64.mul q hundred).
Proof.
  intros H. destruct q as [s|s| |s p e]; cbn [nonneg] in H.
  - exact I.
  - destruct s; [contradiction | exact I].
  - contradiction.
  - destruct s; [contradiction|]. destruct H as (Hc & He).
    unfold F64.mul, hundred. rewrite SFmul_finite. cbn [xorb].
    assert (H100 : canonical 7036874417766400 (-46)) by (apply canonical_dec; vm_compute; reflexivity).
    pose proof (round_shape false (Zpos p * 7036874417766400) 1 (e + -46)
                  ltac:(lia) ltac:(lia) (mul_enough _ _ _ _ Hc H100)) as Hs.
    destruct (round_located _ _ _ _) as [s'|s'| |s' q eq]; cbn [nonneg].
    + exact I.
    + subst s'. exact I.
    + contradiction.
    + destruct Hs as (-> & ? & ?). auto.
Qed.

Lemma round2_nonneg r : nonneg r -> nonneg (F64.round2 r).
Proof.
  intros H. destruct r as [s|s| |s m e]; cbn [nonneg] in H.
  - exact I.
  - destruct s; [contradiction | exact I].
  - contradiction.
  - destruct s; [contradiction|]. unfold F64.round2.
    destruct (F64.scaled_digits 2 m e) as [|k|k]; try exact I.
    rewrite round_ratio_located.
    pose proof (round_shape false (div_num (Zpos k) 0 100 0) 100
                  (div_exp (Zpos k) 0 100 0)
                  (div_num_nonneg (Zpos k) 0 100 0 ltac:(lia)) ltac:(lia)
                  (div_enough (Zpos k) 0 100 0 ltac:(lia) ltac:(lia))) as Hs.
    destruct (round_located _ _ _ _) as [s'|s'| |s' q eq]; cbn [nonneg].
    + exact I.
    + subst s'. exact I.
    + contradiction.
    + destruct Hs as (-> & ? & ?). auto.
Qed.

Lemma nonneg_leb x : nonneg x -> F64.leb F64.zero x = true /\ F64.valid x.
Proof.
  intros H. destruct x as [s|s| |s m e]; cbn [nonneg] in H.
  - destruct s; split; reflexivity.
  - destruct s; [contradiction|]. split; reflexivity.
  - contradiction.
  - destruct s; [contradiction|]. split; [reflexivity|].
    apply valid_canonical. exact H.
Qed.

(** The utilization of a non-negative count is a non-negative float. *)
Lemma utilization_pct_nonneg (protected_vms entitled_vms : Z) :
  0 <= protected_vms ->
  entitled_vms <= 0 \/ protected_vms <= max_double * entitled_vms ->
  exists u, calculate_utilization_pct protected_vms entitled_vms = Ok u /\
    F64.valid u /\ F64.leb F64.zero u = true.
Proof.
  intros Hp He. unfold calculate_utilization_pct.
  destruct (Z.leb_spec entitled_vms 0) as [H0|H0].
  { eexists; split; [reflexivity|]. split; reflexivity. }
  destruct He as [He|He]; [lia|].
  assert (Hq : exists q, F64.truediv protected_vms entitled_vms = Ok q /\ nonneg q).
  { unfold F64.truediv. destruct entitled_vms as [|e|e]; try lia.
    destruct protected_vms as [|p|p]; try lia.
    - eexists; split; [reflexivity | exact I].
    - change (Z.to_pos (Z.abs (Z.pos p))) with p. change (Z.to_pos (Z.abs (Z.pos e))) with e.
      change (xorb (Z.pos p <? 0) (Z.pos e <? 0)) with false.
      pose proof (round_ratio_in_range false p e He) as Hr.
      destruct (F64.round_ratio false p e) as [s'|s'| |s' m ex];
        cbv beta iota in Hr; try contradiction.
      + eexists; split; [reflexivity | exact I].
      + destruct Hr as (-> & ? & ?). eexists; split; [reflexivity|]. cbn. auto. }
  destruct Hq as (q & Eq & Hq). rewrite Eq. cbn [mbind result_bind].
  rewrite float_mul_int_100, lit_100. cbn [mbind result_bind].
  eexists; split; [reflexivity|].
  pose proof (nonneg_leb _ (round2_nonneg _ (mul_hundred_nonneg _ Hq))) as (H1 & H2).
  auto.
Qed.

(** Property X9. For a non-negative count of protected VMs within the range
    of the division and days to expiry above [-(10^4300)], [derive_metrics]
    returns whenever the forecast does: the dictionary holds a non-negative
    utilization, a risk score between the expiry score and 50 more (so
    between 5 and 100), the alerts of that utilization, the forecast, and
    the days to expiry as given. *)
Theorem derive_metrics_returns (today : Z) (now : string)
    (entitled_vms protected_vms days_to_expiry : Z)
    (history : option (gmap string (list Z)))
    (alert_thresholds : option (gmap string F64.float)) (forecast : string) :
  0 <= protected_vms ->
  entitled_vms <= 0 \/ protected_vms <= max_double * entitled_vms ->
  - 10 ^ int_max_str_digits < days_to_expiry ->
  forecast_runout_date today (default ∅ history) entitled_vms = Ok forecast ->
  exists m u k alerts,
    derive_metrics today now entitled_vms protected_vms days_to_expiry history
      alert_thresholds = Ok m /\
    calculate_utilization_pct protected_vms entitled_vms = Ok u /\
    F64.leb F64.zero u = true /\
    field ["utilization_pct"%string] m = Some (PFloat u) /\
    field ["risk_score"%string] m = Some (PInt k) /\
    expiry_score days_to_expiry <= k <= 50 + expiry_score days_to_expiry /\
    5 <= k <= 100 /\
    generate_alerts u days_to_expiry alert_thresholds = Ok alerts /\
    field ["alerts"%string] m = Some (PList (map alert_dict alerts)) /\
    field ["forecast_runout_date"%string] m = Some (PStr forecast) /\
    field ["days_to_expiry"%string] m = Some (PInt days_to_expiry) /\
    field ["timestamp"%string] m = Some (PStr (now ++ "Z")).
Proof.
  intros Hp He Hd Hf.
  destruct (utilization_pct_nonneg _ _ Hp He) as (u & Eu & Hv & Hu).
  destruct (risk_score_expiry_band u days_to_expiry Hv Hu) as (k & Ek & Hk).
  destruct (generate_alerts_returns u days_to_expiry alert_thresholds Hd)
    as (alerts & Ea).
  eexists _, u, k, alerts. unfold derive_metrics.
  rewrite Eu. cbn [mbind result_bind]. rewrite Ek. cbn [mbind result_bind].
  rewrite Ea. cbn [mbind result_bind]. rewrite Hf. cbn [mbind result_bind].
  split; [reflexivity|]. split; [reflexivity|]. split; [exact Hu|].
  split; [reflexivity|]. split; [reflexivity|]. split; [exact Hk|].
  split; [destruct (expiry_score_cases days_to_expiry) as [E|[E|[E|E]]]; lia|].
  split; [reflexivity|]. repeat split; reflexivity.
Qed.

Lemma derive_metrics_returns_witness :
  exists m u k alerts,
    derive_metrics 739923 "2026-11-03T09:00:00" 500 412 180 None None = Ok m /\
    calculate_utilization_pct 412 500 = Ok u /\
    F64.leb F64.zero u = true /\
    field ["utilization_pct"%string] m = Some (PFloat u) /\
    field ["risk_score"%string] m = Some (PInt k) /\
    expiry_score 180 <= k <= 50 + expiry_score 180 /\
    5 <= k <= 100 /\
    generate_alerts u 180 None = Ok alerts /\
    field ["alerts"%string] m = Some (PList (map alert_dict alerts)) /\
    field ["forecast_runout_date"%string] m = Some (PStr "N/A") /\
    field ["days_to_expiry"%string] m = Some (PInt 180) /\
    field ["timestamp"%string] m = Some (PStr "2026-11-03T09:00:00Z").
Proof.
  apply (derive_metrics_returns 739923 "2026-11-03T09:00:00" 500 412 180 None None "N/A").
  - lia.
  - right. apply Z.leb_le. vm_compute. reflexivity.
  - vm_compute. reflexivity.
  - reflexivity.
Defined.

(** Property X10. Without an entitlement, and with days to expiry above
    [-(10^4300)], the utilization is 0.0, the risk score is the expiry score
    and, with the default thresholds, the alerts are those of the expiry
    alone. *)
Theorem derive_metrics_no_entitlement (today : Z) (now : string)
    (entitled_vms protected_vms days_to_expiry : Z)
    (history : option (gmap string (list Z))) (forecast : string) :
  entitled_vms <= 0 ->
  - 10 ^ int_max_str_digits < days_to_expiry ->
  forecast_runout_date today (default ∅ history) entitled_vms = Ok forecast ->
  exists alerts,
    expiry_alerts days_to_expiry = Ok alerts /\
    derive_metrics today now entitled_vms protected_vms days_to_expiry history None
    = Ok (py_dict
            [ ("timestamp", PStr (now ++ "Z"));
              ("utilization_pct", PFloat F64.zero);
              ("risk_score", PInt (expiry_score days_to_expiry));
              ("forecast_runout_date", PStr forecast);
              ("days_to_expiry", PInt days_to_expiry);
              ("alerts", PList (map alert_dict alerts)) ]%string).
Proof.
  intros He Hd Hf. eexists. split; [apply (expiry_alerts_returns _ Hd)|].
  unfold derive_metrics, calculate_utilization_pct.
  destruct (Z.leb_spec entitled_vms 0); [|lia].
  cbn [mbind result_bind]. unfold F64.zero. rewrite risk_score_zero.
  cbn [mbind result_bind].
  rewrite generate_alerts_eq, (expiry_alerts_returns _ Hd).
  cbn [mbind result_bind].
  replace (utilization_alerts (S754_zero false) _ _) with (@nil alert)
    by (vm_compute; reflexivity).
  cbn [app]. rewrite Hf. reflexivity.
Qed.

Lemma derive_metrics_no_entitlement_witness :
  exists alerts,
    expiry_alerts 25 = Ok alerts /\
    derive_metrics 739923 "2026-11-03T09:00:00" 0 412 25 None None
    = Ok (py_dict
            [ ("timestamp", PStr "2026-11-03T09:00:00Z");
              ("utilization_pct", PFloat F64.zero);
              ("risk_score", PInt (expiry_score 25));
              ("forecast_runout_date", PStr "N/A");
              ("days_to_expiry", PInt 25);
              ("alerts", PList (map alert_dict alerts)) ]%string).
Proof.
  apply (derive_metrics_no_entitlement 739923 "2026-11-03T09:00:00" 0 412 25 None "N/A");
    [lia | vm_compute; reflexivity | reflexivity].
Defined.

(** Property X11. When the protected VMs reach the entitlement the utilization
    is at least 100.0 and the risk score is 50 plus the expiry score. *)
Theorem over_consumption_risk (protected_vms entitled_vms days_to_expiry : Z) :
  0 < entitled_vms <= protected_vms ->
  protected_vms <= max_double * entitled_vms ->
  exists u, calculate_utilization_pct protected_vms entitled_vms = Ok u /\
    F64.leb (F64.lit 100 1) u = true /\
    calculate_risk_score u days_to_expiry = Ok (50 + expiry_score days_to_expiry).
Proof.
  intros He Hp. destruct (utilization_pct_over _ _ He Hp) as (u & Eu & Hv & Hu).
  exists u. split; [exact Eu|]. split; [exact Hu|].
  apply risk_score_at_cap; assumption.
Qed.

Lemma over_consumption_risk_witness :
  exists u, calculate_utilization_pct 600 500 = Ok u /\
    F64.leb (F64.lit 100 1) u = true /\
    calculate_risk_score u 200 = Ok (50 + expiry_score 200).
Proof.
  apply (over_consumption_risk 600 500 200); [lia|].
  apply Z.leb_le. vm_compute. reflexivity.
Defined.

(** ** zerto/data.py: rounding is monotone *)

(** The nearest integer, ties to even. *)
Lemma div_half_even_spec N D : 0 <= N -> 0 < D ->
  let k := F64.div_half_even N D in
  2 * N - D <= 2 * k * D <= 2 * N + D /\
  (2 * k * D = 2 * N + D -> Z.even k = true) /\
  (2 * k * D = 2 * N - D -> Z.even k = true).
Proof.
  intros HN HD. unfold F64.div_half_even. cbv zeta.
  pose proof (Z.div_mod N D ltac:(lia)) as E.
  pose proof (Z.mod_pos_bound N D HD) as B.
  set (q := N / D) in *. set (r := N mod D) in *. clearbody q r.
  destruct (Z.compare_spec (2 * r) D) as [C|C|C].
  - destruct (Z.even q) eqn:Ev.
    + split; [nia|]. split; [intros _; exact Ev | intros _; exact Ev].
    + split; [nia|]. split; intros H; [|exfalso; nia].
      rewrite Z.even_add, Ev. reflexivity.
  - split; [nia|]. split; intros H; exfalso; nia.
  - split; [nia|]. split; intros H; exfalso; nia.
Qed.

Lemma div_half_even_mono N1 D1 N2 D2 :
  0 <= N1 -> 0 < D1 -> 0 <= N2 -> 0 < D2 -> N1 * D2 <= N2 * D1 ->
  F64.div_half_even N1 D1 <= F64.div_half_even N2 D2.
Proof.
  intros HN1 HD1 HN2 HD2 H.
  pose proof (div_half_even_spec N1 D1 HN1 HD1) as (B1 & U1 & _).
  pose proof (div_half_even_spec N2 D2 HN2 HD2) as (B2 & _ & L2).
  cbv zeta in *.
  pose proof (div_half_even_nonneg N1 D1 HN1 HD1) as P1.
  pose proof (div_half_even_nonneg N2 D2 HN2 HD2) as P2.
  set (k1 := F64.div_half_even N1 D1) in *. set (k2 := F64.div_half_even N2 D2) in *.
  clearbody k1 k2.
  destruct (Z_le_gt_dec k1 k2) as [|Hgt]; [assumption|exfalso].
  (* (2 k1 - 1) D1 <= 2 N1 and 2 N2 <= (2 k2 + 1) D2 *)
  assert (A1 : (2 * k1 - 1) * D1 * D2 <= 2 * N1 * D2) by nia.
  assert (A2 : 2 * N2 * D1 <= (2 * k2 + 1) * D2 * D1) by nia.
  assert (A3 : (2 * k1 - 1) * (D1 * D2) <= (2 * k2 + 1) * (D1 * D2)) by nia.
  assert (HDD : 0 < D1 * D2) by nia.
  assert (A4 : 2 * k1 - 1 <= 2 * k2 + 1) by (apply Z.mul_le_mono_pos_r with (D1 * D2); lia).
  assert (Ek : k1 = k2 + 1) by lia.
  assert (E1 : 2 * k1 * D1 = 2 * N1 + D1) by nia.
  assert (E2 : 2 * k2 * D2 = 2 * N2 - D2) by nia.
  specialize (U1 E1). specialize (L2 E2).
  rewrite Ek, Z.even_add, L2 in U1. discriminate.
Qed.

(** The second shift only drops a zero bit: the value of the result is the
    rounded mantissa at the first exponent. *)
Lemma round_located_exact N D e : 0 <= N -> 0 < D ->
  e <= fexp F64.prec F64.emax (Zdigits2 (N / D) + e) ->
  final_mant N D e * 2 ^ second_shift N D e = rounded_mant N D e.
Proof.
  intros HN HD He.
  pose proof (n2_eq N D e He) as En2. pose proof (n2_nonneg N D e) as Hn2.
  destruct (Z.eq_dec (second_shift N D e) 0) as [Z2|NZ2].
  - unfold final_mant. rewrite Z2. simpl. rewrite Z.div_1_r. lia.
  - (* a carry: the rounded mantissa is 2^53 *)
    pose proof (m2_nonneg N D e HN HD) as Hm2.
    assert (Hdig : 54 <= Zdigits2 (rounded_mant N D e)) by lia.
    assert (Hup : rounded_mant N D e <= 2 ^ 53).
    { pose proof (div_half_even_floor N (first_den N D e) HN (D1_pos N D e HD)) as Hf.
      fold (rounded_mant N D e) in Hf.
      assert (N / first_den N D e < 2 ^ 53); [|lia].
      rewrite (m1_eq N D e HD).
      pose proof (n_nonneg N D e) as Hn. pose proof (e1_eq N D e He) as E1.
      rewrite fexp64 in E1. unfold first_exp in E1.
      assert (Hm0 : 0 <= N / D) by (apply Z.div_pos; lia).
      destruct (Z.eq_dec (N / D) 0) as [Z0|NZ0].
      { rewrite Z0. rewrite Z.div_0_l by (pose proof (pow2_pos _ Hn); lia). lia. }
      pose proof (Zdigits2_bounds (N / D) ltac:(lia)) as [_ Hu].
      apply Z.div_lt_upper_bound; [apply pow2_pos; exact Hn|].
      eapply Z.lt_le_trans; [exact Hu|].
      rewrite <- Z.pow_add_r by lia. apply Z.pow_le_mono_r; lia. }
    assert (Hlow : 2 ^ 53 <= rounded_mant N D e).
    { assert (0 < rounded_mant N D e).
      { destruct (Z.eq_dec (rounded_mant N D e) 0) as [Z0|]; [|lia].
        rewrite Z0 in Hdig. simpl in Hdig. lia. }
      pose proof (Zdigits2_bounds (rounded_mant N D e) ltac:(lia)) as [Hl _].
      eapply Z.le_trans; [|exact Hl]. apply Z.pow_le_mono_r; lia. }
    assert (Em : rounded_mant N D e = 2 ^ 53) by lia.
    assert (En : second_shift N D e = 1).
    { rewrite En2, Em. reflexivity. }
    unfold final_mant. rewrite En, Em. reflexivity.
Qed.

Lemma first_quot_lt N D e : 0 <= N -> 0 < D ->
  e <= fexp F64.prec F64.emax (Zdigits2 (N / D) + e) ->
  N / first_den N D e < 2 ^ 53.
Proof.
  intros HN HD He.
  rewrite (m1_eq N D e HD).
  pose proof (n_nonneg N D e) as Hn. pose proof (e1_eq N D e He) as E1.
  rewrite fexp64 in E1. unfold first_exp in E1.
  assert (Hm0 : 0 <= N / D) by (apply Z.div_pos; lia).
  destruct (Z.eq_dec (N / D) 0) as [Z0|NZ0].
  { rewrite Z0. rewrite Z.div_0_l by (pose proof (pow2_pos _ Hn); lia). lia. }
  pose proof (Zdigits2_bounds (N / D) ltac:(lia)) as [_ Hu].
  apply Z.div_lt_upper_bound; [apply pow2_pos; exact Hn|].
  eapply Z.lt_le_trans; [exact Hu|].
  rewrite <- Z.pow_add_r by lia. apply Z.pow_le_mono_r; lia.
Qed.

Lemma rounded_mant_le N D e : 0 <= N -> 0 < D ->
  e <= fexp F64.prec F64.emax (Zdigits2 (N / D) + e) ->
  rounded_mant N D e <= 2 ^ 53.
Proof.
  intros HN HD He.
  pose proof (div_half_even_floor N (first_den N D e) HN (D1_pos N D e HD)) as Hf.
  fold (rounded_mant N D e) in Hf.
  pose proof (first_quot_lt N D e HN HD He). lia.
Qed.

(** The three shapes of a rounded non-negative value. *)
Lemma round_located_cases N D e : 0 <= N -> 0 < D ->
  e <= fexp F64.prec F64.emax (Zdigits2 (N / D) + e) ->
  (rounded_mant N D e = 0 /\ round_located false N D e = S754_zero false) \/
  (0 < rounded_mant N D e /\ 971 < final_exp N D e /\
   round_located false N D e = S754_infinity false) \/
  (exists p, final_exp N D e <= 971 /\
     Zpos p * 2 ^ second_shift N D e = rounded_mant N D e /\
     round_located false N D e = S754_finite false p (final_exp N D e)).
Proof.
  intros HN HD He.
  pose proof (round_located_exact N D e HN HD He) as Hx.
  pose proof (m3_nonneg N D e HN HD) as H3.
  pose proof (pow2_pos _ (n2_nonneg N D e)) as Hp.
  rewrite (round_located_eq false N D e).
  destruct (final_mant N D e) as [|p|p] eqn:E3; [| |lia].
  - left. split; [lia | reflexivity].
  - right. destruct (Z.leb_spec (final_exp N D e) 971) as [Hle|Hgt].
    + right. exists p. auto.
    + left. split; [nia|]. split; [lia | reflexivity].
Qed.

(** The first exponent and denominator present the same value. *)
Lemma first_level Na Da ea Nb Db eb :
  dle (Na * Db) ea (Nb * Da) eb ->
  dle (Na * first_den Nb Db eb) (first_exp Na Da ea)
      (Nb * first_den Na Da ea) (first_exp Nb Db eb).
Proof.
  intros H.
  pose proof (n_nonneg Na Da ea) as Hna. pose proof (n_nonneg Nb Db eb) as Hnb.
  unfold first_den, first_exp in *.
  set (na := first_shift Na Da ea) in *. set (nb := first_shift Nb Db eb) in *.
  apply dle_intro with (Z.min ea eb); [lia..|].
  specialize (H (Z.min ea eb) ltac:(lia) ltac:(lia)).
  set (c := Z.min ea eb) in *.
  replace (ea + na - c) with ((ea - c) + na) by lia.
  replace (eb + nb - c) with ((eb - c) + nb) by lia.
  rewrite !Z.pow_add_r by lia.
  pose proof (pow2_pos na Hna). pose proof (pow2_pos nb Hnb).
  replace (Na * (Db * 2 ^ nb) * (2 ^ (ea - c) * 2 ^ na))
    with (Na * Db * 2 ^ (ea - c) * (2 ^ na * 2 ^ nb)) by ring.
  replace (Nb * (Da * 2 ^ na) * (2 ^ (eb - c) * 2 ^ nb))
    with (Nb * Da * 2 ^ (eb - c) * (2 ^ na * 2 ^ nb)) by ring.
  apply Z.mul_le_mono_nonneg_r; [nia | exact H].
Qed.

Lemma second_shift_le N D e : 0 <= N -> 0 < D ->
  e <= fexp F64.prec F64.emax (Zdigits2 (N / D) + e) ->
  0 <= second_shift N D e <= 1.
Proof.
  intros HN HD He. pose proof (n2_eq N D e He) as E.
  pose proof (rounded_mant_le N D e HN HD He) as Hle.
  pose proof (m2_nonneg N D e HN HD) as H0.
  pose proof (Zdigits2_le (rounded_mant N D e) (2 ^ 53) ltac:(lia)) as Hd.
  change (Zdigits2 (2 ^ 53)) with 54 in Hd. lia.
Qed.

(** Rounding to nearest is monotone. *)
Lemma round_located_mono Na Da ea Nb Db eb :
  0 <= Na -> 0 < Da -> ea <= fexp F64.prec F64.emax (Zdigits2 (Na / Da) + ea) ->
  0 <= Nb -> 0 < Db -> eb <= fexp F64.prec F64.emax (Zdigits2 (Nb / Db) + eb) ->
  dle (Na * Db) ea (Nb * Da) eb ->
  fle (round_located false Na Da ea) (round_located false Nb Db eb).
Proof.
  intros HNa HDa Hea HNb HDb Heb H.
  apply first_level in H.
  pose proof (D1_pos Na Da ea HDa) as HD1a. pose proof (D1_pos Nb Db eb HDb) as HD1b.
  pose proof (e1_min Na Da ea Hea) as HminA. pose proof (e1_min Nb Db eb Heb) as HminB.
  pose proof (rounded_mant_le Na Da ea HNa HDa Hea) as HleA.
  pose proof (m2_nonneg Na Da ea HNa HDa) as H0a.
  pose proof (m2_nonneg Nb Db eb HNb HDb) as H0b.
  pose proof (second_shift_le Na Da ea HNa HDa Hea) as Hn2a.
  pose proof (n2_nonneg Nb Db eb) as Hn2b.
  pose proof (n2_eq Na Da ea Hea) as En2a. pose proof (n2_eq Nb Db eb Heb) as En2b.
  assert (HE : first_exp Na Da ea <= first_exp Nb Db eb).
  { destruct (Z_le_gt_dec (first_exp Na Da ea) (first_exp Nb Db eb)) as [|Hgt];
      [assumption|exfalso].
    specialize (H (first_exp Nb Db eb) ltac:(lia) ltac:(lia)).
    rewrite Z.sub_diag, Z.pow_0_r, Z.mul_1_r in H.
    pose proof (normal_m1 Na Da ea HNa HDa Hea ltac:(lia)) as Hna.
    pose proof (first_quot_lt Nb Db eb HNb HDb Heb) as Hqb.
    assert (2 <= 2 ^ (first_exp Na Da ea - first_exp Nb Db eb)).
    { change 2 with (2 ^ 1) at 1. apply Z.pow_le_mono_r; lia. }
    set (P := 2 ^ (first_exp Na Da ea - first_exp Nb Db eb)) in *.
    assert (A1 : 2 ^ 52 * first_den Na Da ea <= Na).
    { pose proof (Z.mul_div_le Na (first_den Na Da ea) HD1a). nia. }
    assert (A2 : Nb < 2 ^ 53 * first_den Nb Db eb).
    { pose proof (Z.div_mod Nb (first_den Nb Db eb) ltac:(lia)).
      pose proof (Z.mod_pos_bound Nb (first_den Nb Db eb) HD1b). nia. }
    assert (A3 : 2 ^ 52 * first_den Na Da ea * first_den Nb Db eb * P
                 <= Na * first_den Nb Db eb * P).
    { apply Z.mul_le_mono_nonneg_r; [lia|]. apply Z.mul_le_mono_nonneg_r; lia. }
    assert (A4 : Nb * first_den Na Da ea < 2 ^ 53 * first_den Nb Db eb * first_den Na Da ea).
    { apply Z.mul_lt_mono_pos_r; lia. }
    assert (A5 : 2 ^ 53 * first_den Nb Db eb * first_den Na Da ea
                 <= 2 ^ 52 * first_den Na Da ea * first_den Nb Db eb * P).
    { change (2 ^ 53) with (2 ^ 52 * 2).
      assert (0 <= 2 ^ 52 * first_den Na Da ea * first_den Nb Db eb) by nia.
      nia. }
    lia. }
  set (c := first_exp Na Da ea) in *.
  assert (Hkey : rounded_mant Na Da ea
                 <= rounded_mant Nb Db eb * 2 ^ (first_exp Nb Db eb - c)).
  { specialize (H c ltac:(lia) ltac:(lia)).
    destruct (Z.eq_dec c (first_exp Nb Db eb)) as [Heq|Hne].
    - rewrite <- Heq in *. rewrite Z.sub_diag, Z.pow_0_r, !Z.mul_1_r in *.
      apply div_half_even_mono; try assumption.
    - pose proof (normal_m1 Nb Db eb HNb HDb Heb ltac:(lia)) as Hnb.
      pose proof (m2_ge_m1 Nb Db eb HNb HDb) as Hgb.
      assert (2 <= 2 ^ (first_exp Nb Db eb - c)).
      { change 2 with (2 ^ 1) at 1. apply Z.pow_le_mono_r; lia. }
      change (2 ^ 53) with (2 ^ 52 * 2) in HleA. nia. }
  assert (Hmono2 : c + second_shift Na Da ea
                   <= first_exp Nb Db eb + second_shift Nb Db eb).
  { destruct (Z.eq_dec c (first_exp Nb Db eb)) as [Heq|Hne]; [|lia].
    rewrite <- Heq in *. rewrite Z.sub_diag, Z.pow_0_r, Z.mul_1_r in Hkey.
    pose proof (Zdigits2_le (rounded_mant Na Da ea) (rounded_mant Nb Db eb) ltac:(lia)).
    lia. }
  pose proof (pow2_pos (first_exp Nb Db eb - c) ltac:(lia)) as HP.
  destruct (round_located_cases Na Da ea HNa HDa Hea)
    as [(Za & ->)|[(Pa & Oa & ->)|(p & Fa & Xa & ->)]];
  destruct (round_located_cases Nb Db eb HNb HDb Heb)
    as [(Zb & ->)|[(Pb & Ob & ->)|(q & Fb & Xb & ->)]];
  cbn [fle]; try exact I; unfold final_exp in *; subst c.
  - rewrite Zb in Hkey. lia.
  - lia.
  - rewrite Zb in Hkey. pose proof (pow2_pos _ (proj1 Hn2a)). nia.
  - apply dle_intro with (first_exp Na Da ea); [lia..|].
    replace (first_exp Na Da ea + second_shift Na Da ea - first_exp Na Da ea)
      with (second_shift Na Da ea) by lia.
    replace (first_exp Nb Db eb + second_shift Nb Db eb - first_exp Na Da ea)
      with (second_shift Nb Db eb + (first_exp Nb Db eb - first_exp Na Da ea)) by lia.
    rewrite Z.pow_add_r by lia.
    rewrite Z.mul_assoc, Xa, Xb. exact Hkey.
Qed.

(** ** The order of non-negative floats *)

Lemma nonneg_le_nonneg x mb eb : nonneg_le x mb eb -> nonneg x.
Proof. destruct x as [s|s| |[] m e]; cbn; tauto. Qed.

Lemma round_located_nonneg N D e : 0 <= N -> 0 < D ->
  e <= fexp F64.prec F64.emax (Zdigits2 (N / D) + e) ->
  nonneg (round_located false N D e).
Proof.
  intros HN HD He. pose proof (round_shape false N D e HN HD He) as Hs.
  destruct (round_located false N D e) as [s|s| |s m ep]; cbn [nonneg].
  - exact I.
  - subst s. exact I.
  - exact Hs.
  - destruct Hs as (-> & Hc & Hep). auto.
Qed.

Lemma fle_zero_l s y : nonneg y -> fle (S754_zero s) y.
Proof. destruct y as [?|[]| |[] ? ?]; cbn; tauto. Qed.

Lemma fle_inf_r x : nonneg x -> fle x (S754_infinity false).
Proof. destruct x as [?|[]| |[] ? ?]; cbn; tauto. Qed.

Lemma fle_refl x : nonneg x -> fle x x.
Proof. destruct x as [?|[]| |[] ? ?]; cbn; try tauto. intros _. apply dle_refl. Qed.

Lemma nonneg_valid x : nonneg x -> F64.valid x.
Proof.
  destruct x as [?|[]| |[] m e]; cbn [nonneg]; try tauto; try reflexivity.
  intros H. apply valid_canonical. exact H.
Qed.

Lemma nonneg_leb_zero x : nonneg x -> F64.leb F64.zero x = true.
Proof. destruct x as [?|[]| |[] m e]; cbn [nonneg]; try tauto; reflexivity. Qed.

(** [x <= y] on floats is the order of the values. *)
Lemma leb_fle x y : nonneg x -> nonneg y -> F64.leb x y = true <-> fle x y.
Proof.
  intros Hx Hy.
  destruct x as [sx|[]| |[] mx ex]; cbn [nonneg] in Hx; try contradiction;
  destruct y as [sy|[]| |[] my ey]; cbn [nonneg] in Hy; try contradiction;
  try (cbn; intuition (auto; discriminate)).
  cbn [fle]. apply SFleb_canonical; tauto.
Qed.

Lemma leb_nonneg x y : F64.valid y -> nonneg x -> F64.leb x y = true -> nonneg y.
Proof.
  intros Hv Hx H.
  destruct y as [sy|sy| |sy my ey]; cbn [nonneg].
  - exact I.
  - destruct sy; [|exact I].
    destruct x as [sx|[]| |[] mx ex]; cbn [nonneg] in Hx; try contradiction; discriminate.
  - destruct x as [sx|[]| |[] mx ex]; discriminate.
  - apply valid_canonical in Hv. destruct sy; [|exact Hv].
    destruct x as [sx|[]| |[] mx ex]; cbn [nonneg] in Hx; try contradiction; discriminate.
Qed.

(** ** The operations are monotone *)

Lemma div_num_dle m1 e1 m1' e1' m2 e2 : dle m1 e1 m1' e1' ->
  dle (div_num m1 e1 m2 e2) (div_exp m1 e1 m2 e2)
      (div_num m1' e1' m2 e2) (div_exp m1' e1' m2 e2).
Proof.
  intros H. apply dle_trans with m1' (e1' - e2).
  - apply div_dle_upper. replace (e1' - e2 + e2) with e1' by lia. exact H.
  - apply div_dle_lower. replace (e1' - e2 + e2) with e1' by lia. apply dle_refl.
Qed.

(** Division by a positive float. *)
Lemma div_mono u1 u2 mk ek : nonneg u1 -> nonneg u2 -> fle u1 u2 ->
  nonneg (F64.div u1 (S754_finite false mk ek)) /\
  nonneg (F64.div u2 (S754_finite false mk ek)) /\
  fle (F64.div u1 (S754_finite false mk ek)) (F64.div u2 (S754_finite false mk ek)).
Proof.
  intros H1 H2 H.
  assert (Hn : forall u, nonneg u -> nonneg (F64.div u (S754_finite false mk ek))).
  { intros u Hu. destruct u as [s|[]| |[] m e]; cbn [nonneg] in Hu; try contradiction;
      try exact I.
    unfold F64.div. rewrite SFdiv_finite. cbn [xorb].
    apply round_located_nonneg;
      [apply div_num_nonneg; lia | lia | apply div_enough; lia]. }
  split; [apply Hn, H1|]. split; [apply Hn, H2|].
  destruct u1 as [s1|[]| |[] m1 e1]; cbn [nonneg] in H1; try contradiction.
  - apply (fle_zero_l (xorb s1 false)), Hn, H2.
  - destruct u2 as [s2|[]| |[] m2 e2]; cbn [fle] in H; try contradiction. exact I.
  - destruct u2 as [s2|[]| |[] m2 e2]; cbn [fle nonneg] in H, H2; try contradiction.
    + apply fle_inf_r. apply Hn. exact H1.
    + unfold F64.div. rewrite !SFdiv_finite. cbn [xorb].
      apply round_located_mono;
        try (apply div_num_nonneg; lia); try lia; try (apply div_enough; lia).
      apply dle_mul_r; [lia|]. apply div_num_dle. exact H.
Qed.

(** Multiplication by a positive float. *)
Lemma mul_mono u1 u2 mk ek : canonical (Zpos mk) ek ->
  nonneg u1 -> nonneg u2 -> fle u1 u2 ->
  nonneg (F64.mul u1 (S754_finite false mk ek)) /\
  nonneg (F64.mul u2 (S754_finite false mk ek)) /\
  fle (F64.mul u1 (S754_finite false mk ek)) (F64.mul u2 (S754_finite false mk ek)).
Proof.
  intros Hk H1 H2 H.
  assert (Hn : forall u, nonneg u -> nonneg (F64.mul u (S754_finite false mk ek))).
  { intros u Hu. destruct u as [s|[]| |[] m e]; cbn [nonneg] in Hu; try contradiction;
      try exact I.
    unfold F64.mul. rewrite SFmul_finite. cbn [xorb].
    apply round_located_nonneg; [lia | lia | apply mul_enough; tauto]. }
  split; [apply Hn, H1|]. split; [apply Hn, H2|].
  destruct u1 as [s1|[]| |[] m1 e1]; cbn [nonneg] in H1; try contradiction.
  - apply (fle_zero_l (xorb s1 false)), Hn, H2.
  - destruct u2 as [s2|[]| |[] m2 e2]; cbn [fle] in H; try contradiction. exact I.
  - destruct u2 as [s2|[]| |[] m2 e2]; cbn [fle nonneg] in H, H2; try contradiction.
    + apply fle_inf_r. apply Hn. exact H1.
    + unfold F64.mul. rewrite !SFmul_finite. cbn [xorb].
      apply round_located_mono; try lia; try (apply mul_enough; tauto).
      rewrite !Z.mul_1_r. apply dle_shift, dle_mul_r; [lia | exact H].
Qed.

(** [min(q, 1.0)]. *)
Lemma min_one_mono q1 q2 : nonneg q1 -> nonneg q2 -> fle q1 q2 ->
  fle (F64.min q1 F64.one) (F64.min q2 F64.one).
Proof.
  rewrite one_eq. unfold F64.min, F64.ltb.
  assert (Hone : canonical 4503599627370496 (-52)) by (apply canonical_dec; vm_compute; reflexivity).
  intros H1 H2 H.
  destruct q1 as [s1|[]| |[] m1 e1]; cbn [nonneg] in H1; try contradiction.
  - apply fle_zero_l.
    destruct q2 as [s2|[]| |[] m2 e2]; cbn [nonneg] in H2; try contradiction.
    + exact I.
    + change (nonneg (S754_finite false 4503599627370496 (-52))).
      split; [exact Hone | lia].
    + destruct (SFltb _ _); cbn [nonneg]; [split; [exact Hone | lia] | exact H2].
  - destruct q2 as [s2|[]| |[] m2 e2]; cbn [fle] in H; try contradiction.
    cbn. apply dle_refl.
  - destruct H1 as [Hc1 He1].
    assert (Ha : fle (if SFltb (S754_finite false 4503599627370496 (-52)) (S754_finite false m1 e1)
                      then S754_finite false 4503599627370496 (-52) else S754_finite false m1 e1)
                     (S754_finite false 4503599627370496 (-52))).
    { destruct (SFltb _ (S754_finite false m1 e1)) eqn:E1; cbn [fle]; [apply dle_refl|].
      apply (SFltb_canonical _ _ _ _ Hone Hc1). exact E1. }
    destruct q2 as [s2|[]| |[] m2 e2]; cbn [fle nonneg] in H, H2; try contradiction.
    + exact Ha.
    + destruct H2 as [Hc2 He2].
      destruct (SFltb _ (S754_finite false m2 e2)) eqn:E2; [exact Ha|].
      destruct (SFltb _ (S754_finite false m1 e1)) eqn:E1; cbn [fle]; [|exact H].
      apply (SFltb_canonical_true _ _ _ _ Hone Hc1) in E1.
      eapply dle_trans; [exact E1 | exact H].
Qed.

Lemma sum_dle p1 e1 y1 f1 p2 e2 y2 f2 :
  0 < p1 -> 0 < y1 -> 0 < p2 -> 0 < y2 ->
  dle p1 e1 p2 e2 -> dle y1 f1 y2 f2 ->
  let S1 := p1 * 2 ^ (e1 - Z.min e1 f1) + y1 * 2 ^ (f1 - Z.min e1 f1) in
  let S2 := p2 * 2 ^ (e2 - Z.min e2 f2) + y2 * 2 ^ (f2 - Z.min e2 f2) in
  dle (S1 * 2 ^ (Z.min e1 f1 - round_exp S1 (Z.min e1 f1))) (round_exp S1 (Z.min e1 f1))
      (S2 * 2 ^ (Z.min e2 f2 - round_exp S2 (Z.min e2 f2))) (round_exp S2 (Z.min e2 f2)).
Proof.
  intros Hp1 Hy1 Hp2 Hy2 Hp Hy S1 S2.
  pose proof (round_exp_le S1 (Z.min e1 f1)) as Hr1.
  pose proof (round_exp_le S2 (Z.min e2 f2)) as Hr2.
  set (r1 := round_exp S1 (Z.min e1 f1)) in *.
  set (r2 := round_exp S2 (Z.min e2 f2)) in *.
  set (c := Z.min r1 r2).
  apply dle_intro with c; [unfold c; lia..|].
  rewrite <- !Z.mul_assoc, <- !Z.pow_add_r by (unfold c; lia).
  replace (Z.min e1 f1 - r1 + (r1 - c)) with (Z.min e1 f1 - c) by lia.
  replace (Z.min e2 f2 - r2 + (r2 - c)) with (Z.min e2 f2 - c) by lia.
  unfold S1, S2. rewrite !sum_scaled by (unfold c; lia).
  specialize (Hp c ltac:(unfold c; lia) ltac:(unfold c; lia)).
  specialize (Hy c ltac:(unfold c; lia) ltac:(unfold c; lia)). lia.
Qed.

(** Adding positive floats. *)
Lemma add_mono x1 x2 y1 f1 y2 f2 :
  nonneg x1 -> nonneg x2 -> fle x1 x2 ->
  canonical (Zpos y1) f1 -> canonical (Zpos y2) f2 -> f2 <= 971 ->
  dle (Zpos y1) f1 (Zpos y2) f2 ->
  fle (F64.add x1 (S754_finite false y1 f1)) (F64.add x2 (S754_finite false y2 f2)).
Proof.
  intros H1 H2 H Hc1 Hc2 Hf2 Hy.
  assert (Hsum : forall p e y f, 0 < p -> 0 < y ->
            let S := p * 2 ^ (e - Z.min e f) + y * 2 ^ (f - Z.min e f) in
            0 < S /\ 0 <= S * 2 ^ (Z.min e f - round_exp S (Z.min e f))).
  { intros p e y f Hp Hy' S.
    pose proof (pow2_pos (e - Z.min e f) ltac:(lia)).
    pose proof (pow2_pos (f - Z.min e f) ltac:(lia)).
    assert (0 < S) by (unfold S; nia). split; [assumption|].
    pose proof (round_exp_le S (Z.min e f)).
    pose proof (pow2_pos (Z.min e f - round_exp S (Z.min e f)) ltac:(lia)). nia. }
  destruct x1 as [s1|[]| |[] m1 e1]; cbn [nonneg] in H1; try contradiction.
  - (* 0 + y1 = y1 *)
    change (F64.add (S754_zero s1) (S754_finite false y1 f1)) with (S754_finite false y1 f1).
    destruct x2 as [s2|[]| |[] m2 e2]; cbn [nonneg] in H2; try contradiction.
    + exact Hy.
    + exact I.
    + unfold F64.add. rewrite SFadd_pos.
      destruct (Hsum (Zpos m2) e2 (Zpos y2) f2 ltac:(lia) ltac:(lia)) as [HS HN].
      cbv zeta in HS, HN.
      set (S := Z.pos m2 * 2 ^ (e2 - Z.min e2 f2) + Z.pos y2 * 2 ^ (f2 - Z.min e2 f2)) in *.
      pose proof (round_lower false _ 1 _ (Zpos y1) f1 HN ltac:(lia)
                    (round_enough S (Z.min e2 f2) HS) Hc1) as Hl.
      pose proof (round_exp_le S (Z.min e2 f2)) as Hr.
      assert (Hd : dle (Z.pos y1 * 1) f1
                     (S * 2 ^ (Z.min e2 f2 - round_exp S (Z.min e2 f2)))
                     (round_exp S (Z.min e2 f2))).
      { rewrite Z.mul_1_r. eapply dle_trans; [exact Hy|].
        apply dle_intro with (round_exp S (Z.min e2 f2)); [lia..|].
        rewrite Z.sub_diag, Z.pow_0_r, Z.mul_1_r.
        replace (f2 - round_exp S (Z.min e2 f2))
          with ((f2 - Z.min e2 f2) + (Z.min e2 f2 - round_exp S (Z.min e2 f2))) by lia.
        rewrite Z.pow_add_r by lia. rewrite Z.mul_assoc.
        apply Z.mul_le_mono_nonneg_r; [apply Z.pow_nonneg; lia|].
        unfold S. pose proof (pow2_pos (e2 - Z.min e2 f2) ltac:(lia)). nia. }
      specialize (Hl Hd).
      destruct (round_located _ _ _ _) as [s'|s'| |s' q eq]; try contradiction.
      * subst s'. exact I.
      * destruct Hl as (-> & _ & _ & Hq). exact Hq.
  - destruct x2 as [s2|[]| |[] m2 e2]; cbn [fle] in H; try contradiction. exact I.
  - destruct x2 as [s2|[]| |[] m2 e2]; cbn [fle nonneg] in H, H2; try contradiction.
    + apply fle_inf_r. unfold F64.add. rewrite SFadd_pos.
      destruct (Hsum (Zpos m1) e1 (Zpos y1) f1 ltac:(lia) ltac:(lia)) as [HS HN].
      apply round_located_nonneg; [exact HN | lia | apply round_enough; exact HS].
    + unfold F64.add. rewrite !SFadd_pos.
      destruct (Hsum (Zpos m1) e1 (Zpos y1) f1 ltac:(lia) ltac:(lia)) as [HS1 HN1].
      destruct (Hsum (Zpos m2) e2 (Zpos y2) f2 ltac:(lia) ltac:(lia)) as [HS2 HN2].
      apply round_located_mono; try assumption; try lia;
        try (apply round_enough; assumption).
      rewrite !Z.mul_1_r.
      apply (sum_dle (Zpos m1) e1 (Zpos y1) f1 (Zpos m2) e2 (Zpos y2) f2); try lia; assumption.
Qed.

(** [int(x)]. *)
Lemma quot_mono N1 D1 N2 D2 : 0 <= N1 -> 0 < D1 -> 0 < D2 ->
  N1 * D2 <= N2 * D1 -> N1 / D1 <= N2 / D2.
Proof.
  intros HN1 HD1 HD2 H. apply Z.div_le_lower_bound; [lia|].
  pose proof (Z.mul_div_le N1 D1 HD1).
  assert (D1 * (D2 * (N1 / D1)) <= D1 * N2) by nia.
  apply Z.mul_le_mono_pos_l with D1; lia.
Qed.

Lemma to_int_quot p e :
  F64.to_int (S754_finite false p e) =
  Ok (Zpos p * 2 ^ Z.max e 0 / 2 ^ Z.max (- e) 0).
Proof.
  unfold F64.to_int. destruct (Z.leb_spec 0 e) as [He|He]; f_equal.
  - replace (Z.max e 0) with e by lia. replace (Z.max (- e) 0) with 0 by lia.
    rewrite Z.pow_0_r, Z.div_1_r. reflexivity.
  - replace (Z.max e 0) with 0 by lia. replace (Z.max (- e) 0) with (- e) by lia.
    rewrite Z.pow_0_r, Z.mul_1_r. reflexivity.
Qed.

Lemma dle_split a x b y : dle a x b y ->
  a * 2 ^ Z.max x 0 * 2 ^ Z.max (- y) 0 <= b * 2 ^ Z.max y 0 * 2 ^ Z.max (- x) 0.
Proof.
  intros H.
  specialize (H (- (Z.max (- x) 0 + Z.max (- y) 0)) ltac:(lia) ltac:(lia)).
  replace (x - - (Z.max (- x) 0 + Z.max (- y) 0)) with (Z.max x 0 + Z.max (- y) 0) in H by lia.
  replace (y - - (Z.max (- x) 0 + Z.max (- y) 0)) with (Z.max y 0 + Z.max (- x) 0) in H by lia.
  rewrite !Z.pow_add_r in H by lia. lia.
Qed.

Lemma to_int_mono s1 s2 k1 k2 : fle s1 s2 ->
  F64.to_int s1 = Ok k1 -> F64.to_int s2 = Ok k2 -> k1 <= k2.
Proof.
  intros H E1 E2.
  destruct s1 as [?|[]| |[] p1 e1]; try discriminate;
  destruct s2 as [?|[]| |[] p2 e2]; try discriminate; cbn [fle] in H; try contradiction.
  - injection E1 as <-. injection E2 as <-. lia.
  - injection E1 as <-. rewrite to_int_quot in E2. injection E2 as <-.
    apply Z.div_pos; [|apply pow2_pos; lia].
    pose proof (pow2_pos (Z.max e2 0) ltac:(lia)). nia.
  - rewrite to_int_quot in E1, E2. injection E1 as <-. injection E2 as <-.
    apply quot_mono; try (apply pow2_pos; lia).
    + pose proof (pow2_pos (Z.max e1 0) ltac:(lia)). nia.
    + apply dle_split. exact H.
Qed.

(** ** The risk score is monotone *)

Lemma expiry_score_antitone d1 d2 : d2 <= d1 -> expiry_score d1 <= expiry_score d2.
Proof.
  intros H. unfold expiry_score.
  destruct (Z.leb_spec d1 30), (Z.leb_spec d2 30); try lia;
  destruct (Z.leb_spec d1 90), (Z.leb_spec d2 90); try lia;
  destruct (Z.leb_spec d1 365), (Z.leb_spec d2 365); lia.
Qed.

Lemma expiry_float d :
  exists m e, F64.of_int (expiry_score d) = Ok (S754_finite false m e) /\
    canonical (Zpos m) e /\ e <= 971 /\
    dle (expiry_score d) 0 (Zpos m) e /\ dle (Zpos m) e (expiry_score d) 0.
Proof.
  destruct (expiry_score_cases d) as [E|[E|[E|E]]]; rewrite E.
  - exists 7036874417766400%positive, (-47). split; [reflexivity|].
    split; [apply canonical_dec; vm_compute; reflexivity|]. split; [lia|].
    split; apply dle_dec; vm_compute; reflexivity.
  - exists 8444249301319680%positive, (-48). split; [reflexivity|].
    split; [apply canonical_dec; vm_compute; reflexivity|]. split; [lia|].
    split; apply dle_dec; vm_compute; reflexivity.
  - exists 8444249301319680%positive, (-49). split; [reflexivity|].
    split; [apply canonical_dec; vm_compute; reflexivity|]. split; [lia|].
    split; apply dle_dec; vm_compute; reflexivity.
  - exists 5629499534213120%positive, (-50). split; [reflexivity|].
    split; [apply canonical_dec; vm_compute; reflexivity|]. split; [lia|].
    split; apply dle_dec; vm_compute; reflexivity.
Qed.

Lemma risk_score_mono u1 u2 d1 d2 :
  nonneg u1 -> nonneg u2 -> fle u1 u2 -> d2 <= d1 ->
  exists s1 s2, calculate_risk_score u1 d1 = Ok s1 /\
    calculate_risk_score u2 d2 = Ok s2 /\ s1 <= s2.
Proof.
  intros H1 H2 H Hd.
  destruct (risk_score_nonneg u1 d1 (nonneg_valid _ H1) (nonneg_leb_zero _ H1))
    as (util1 & s1 & k1 & Hmul1 & _ & Hadd1 & Hint1 & _ & _ & Hc1).
  destruct (risk_score_nonneg u2 d2 (nonneg_valid _ H2) (nonneg_leb_zero _ H2))
    as (util2 & s2 & k2 & Hmul2 & _ & Hadd2 & Hint2 & _ & _ & Hc2).
  exists k1, k2. split; [exact Hc1|]. split; [exact Hc2|].
  unfold float_mul_int in Hmul1, Hmul2. rewrite of_int_50 in Hmul1, Hmul2.
  cbn [mbind result_bind] in Hmul1, Hmul2.
  injection Hmul1 as <-. injection Hmul2 as <-.
  destruct (div_mono u1 u2 7036874417766400 (-46) H1 H2 H) as (Hq1 & Hq2 & Hq).
  fold hundred in Hq1, Hq2, Hq.
  pose proof (min_one_mono _ _ Hq1 Hq2 Hq) as Hm.
  assert (H50 : canonical 7036874417766400 (-47)) by (apply canonical_dec; vm_compute; reflexivity).
  destruct (mul_mono _ _ 7036874417766400 (-47) H50
              (nonneg_le_nonneg _ _ _ (min_one_le _ Hq1))
              (nonneg_le_nonneg _ _ _ (min_one_le _ Hq2)) Hm) as (Hu1 & Hu2 & Hu).
  fold fifty in Hu1, Hu2, Hu.
  destruct (expiry_float d1) as (m1 & e1 & Eo1 & Hcan1 & He1 & Hlo1 & Hhi1).
  destruct (expiry_float d2) as (m2 & e2 & Eo2 & Hcan2 & He2 & Hlo2 & Hhi2).
  unfold float_add_int in Hadd1, Hadd2. rewrite Eo1 in Hadd1. rewrite Eo2 in Hadd2.
  cbn [mbind result_bind] in Hadd1, Hadd2.
  injection Hadd1 as <-. injection Hadd2 as <-.
  assert (Hy : dle (Zpos m1) e1 (Zpos m2) e2).
  { eapply dle_trans; [exact Hhi1|]. eapply dle_trans; [|exact Hlo2].
    apply dle_intro with 0; [lia..|].
    rewrite Z.sub_diag, Z.pow_0_r, !Z.mul_1_r.
    apply expiry_score_antitone. exact Hd. }
  apply (to_int_mono _ _ k1 k2
           (add_mono _ _ m1 e1 m2 e2 Hu1 Hu2 Hu Hcan1 Hcan2 He2 Hy) Hint1 Hint2).
Qed.

(** ** The utilization is monotone *)

Lemma round_ratio_nonneg n d : nonneg (F64.round_ratio false n d).
Proof.
  rewrite round_ratio_located.
  apply round_located_nonneg; [apply div_num_nonneg; lia | lia | apply div_enough; lia].
Qed.

Lemma round_ratio_mono n1 d1 n2 d2 : Zpos n1 * Zpos d2 <= Zpos n2 * Zpos d1 ->
  fle (F64.round_ratio false n1 d1) (F64.round_ratio false n2 d2).
Proof.
  intros H. rewrite !round_ratio_located.
  apply round_located_mono;
    try (apply div_num_nonneg; lia); try lia; try (apply div_enough; lia).
  apply dle_trans with (Zpos n1 * Zpos d2) 0.
  - apply dle_mul_r; [lia|]. apply div_dle_upper. apply dle_refl.
  - apply dle_trans with (Zpos n2 * Zpos d1) 0.
    + apply dle_intro with 0; lia.
    + apply dle_mul_r; [lia|]. apply div_dle_lower. apply dle_refl.
Qed.

Lemma truediv_mono p1 e1 p2 e2 q1 q2 : 0 <= p1 -> 0 < e1 -> 0 < e2 ->
  p1 * e2 <= p2 * e1 ->
  F64.truediv p1 e1 = Ok q1 -> F64.truediv p2 e2 = Ok q2 ->
  nonneg q1 /\ nonneg q2 /\ fle q1 q2.
Proof.
  intros Hp1 He1 He2 H E1 E2.
  assert (Hn : forall p e q, 0 <= p -> 0 < e -> F64.truediv p e = Ok q -> nonneg q).
  { intros p e q Hp He E. unfold F64.truediv in E.
    destruct e as [|e|e]; try lia. destruct p as [|p|p]; try lia.
    - injection E as <-. exact I.
    - change (xorb (Z.pos p <? 0) (Z.pos e <? 0)) with false in E.
      change (Z.to_pos (Z.abs (Z.pos p))) with p in E.
      change (Z.to_pos (Z.abs (Z.pos e))) with e in E.
      pose proof (round_ratio_nonneg p e) as Hr.
      destruct (F64.round_ratio false p e); try discriminate; injection E as <-; exact Hr. }
  assert (Hp2 : 0 <= p2) by nia.
  split; [exact (Hn _ _ _ Hp1 He1 E1)|]. split; [exact (Hn _ _ _ Hp2 He2 E2)|].
  pose proof (Hn _ _ _ Hp2 He2 E2) as Hq2.
  unfold F64.truediv in E1, E2.
  destruct e1 as [|e1|e1]; try lia. destruct e2 as [|e2|e2]; try lia.
  destruct p1 as [|p1|p1]; try lia.
  - injection E1 as <-. apply fle_zero_l. exact Hq2.
  - destruct p2 as [|p2|p2]; try lia.
    change (xorb (Z.pos p1 <? 0) (Z.pos e1 <? 0)) with false in E1.
    change (xorb (Z.pos p2 <? 0) (Z.pos e2 <? 0)) with false in E2.
    change (Z.to_pos (Z.abs (Z.pos p1))) with p1 in E1.
    change (Z.to_pos (Z.abs (Z.pos e1))) with e1 in E1.
    change (Z.to_pos (Z.abs (Z.pos p2))) with p2 in E2.
    change (Z.to_pos (Z.abs (Z.pos e2))) with e2 in E2.
    pose proof (round_ratio_mono p1 e1 p2 e2 H) as Hm.
    destruct (F64.round_ratio false p1 e1); try discriminate; injection E1 as <-;
    destruct (F64.round_ratio false p2 e2); try discriminate; injection E2 as <-;
    exact Hm.
Qed.

Lemma div_half_even_one N : F64.div_half_even N 1 = N.
Proof.
  unfold F64.div_half_even. rewrite Z.div_1_r, Z.mod_1_r. reflexivity.
Qed.

Lemma scaled_digits_quot m e :
  F64.scaled_digits 2 m e =
  F64.div_half_even (Zpos m * 2 ^ Z.max e 0 * 100) (2 ^ Z.max (- e) 0).
Proof.
  unfold F64.scaled_digits. change (10 ^ 2) with 100.
  destruct (Z.leb_spec 0 e) as [He|He].
  - replace (Z.max e 0) with e by lia. replace (Z.max (- e) 0) with 0 by lia.
    rewrite Z.pow_0_r, div_half_even_one. reflexivity.
  - replace (Z.max e 0) with 0 by lia. replace (Z.max (- e) 0) with (- e) by lia.
    rewrite Z.pow_0_r, Z.mul_1_r. reflexivity.
Qed.

Lemma scaled_digits_mono m1 e1 m2 e2 : dle (Zpos m1) e1 (Zpos m2) e2 ->
  0 <= F64.scaled_digits 2 m1 e1 <= F64.scaled_digits 2 m2 e2.
Proof.
  intros H. rewrite !scaled_digits_quot.
  pose proof (pow2_pos (Z.max e1 0) ltac:(lia)).
  pose proof (pow2_pos (Z.max e2 0) ltac:(lia)).
  pose proof (pow2_pos (Z.max (- e1) 0) ltac:(lia)).
  pose proof (pow2_pos (Z.max (- e2) 0) ltac:(lia)).
  split.
  - apply div_half_even_nonneg; [nia | assumption].
  - apply div_half_even_mono; try assumption; try nia.
    pose proof (dle_split _ _ _ _ H). nia.
Qed.

(** [round(x, 2)]. *)
Lemma round2_mono x1 x2 : nonneg x1 -> nonneg x2 -> fle x1 x2 ->
  fle (F64.round2 x1) (F64.round2 x2).
Proof.
  intros H1 H2 H.
  destruct x1 as [s1|[]| |[] m1 e1]; cbn [nonneg] in H1; try contradiction.
  - apply (fle_zero_l s1). apply round2_nonneg. exact H2.
  - destruct x2 as [s2|[]| |[] m2 e2]; cbn [fle] in H; try contradiction. exact I.
  - destruct x2 as [s2|[]| |[] m2 e2]; cbn [fle] in H; try contradiction.
    + apply (fle_inf_r (F64.round2 (S754_finite false m1 e1))).
      apply round2_nonneg. exact H1.
    + pose proof (scaled_digits_mono m1 e1 m2 e2 H) as Hk.
      unfold F64.round2.
      destruct (F64.scaled_digits 2 m1 e1) as [|k1|k1];
        destruct (F64.scaled_digits 2 m2 e2) as [|k2|k2]; try lia.
      * exact I.
      * apply fle_zero_l, round_ratio_nonneg.
      * apply round_ratio_mono. lia.
Qed.

Lemma utilization_pct_mono p1 e1 p2 e2 u1 u2 : 0 <= p1 -> 0 < e1 -> 0 < e2 ->
  p1 * e2 <= p2 * e1 ->
  calculate_utilization_pct p1 e1 = Ok u1 ->
  calculate_utilization_pct p2 e2 = Ok u2 ->
  nonneg u1 /\ nonneg u2 /\ fle u1 u2.
Proof.
  intros Hp1 He1 He2 H E1 E2.
  unfold calculate_utilization_pct, float_mul_int in E1, E2.
  destruct (Z.leb_spec e1 0); [lia|]. destruct (Z.leb_spec e2 0); [lia|].
  rewrite of_int_100 in E1, E2.
  destruct (F64.truediv p1 e1) as [q1|] eqn:Eq1; [|discriminate].
  destruct (F64.truediv p2 e2) as [q2|] eqn:Eq2; [|discriminate].
  cbn [mbind result_bind] in E1, E2. injection E1 as <-. injection E2 as <-.
  destruct (truediv_mono p1 e1 p2 e2 q1 q2 Hp1 He1 He2 H Eq1 Eq2) as (Hq1 & Hq2 & Hq).
  assert (H100 : canonical 7036874417766400 (-46)) by (apply canonical_dec; vm_compute; reflexivity).
  destruct (mul_mono q1 q2 7036874417766400 (-46) H100 Hq1 Hq2 Hq) as (Hm1 & Hm2 & Hm).
  fold hundred in Hm1, Hm2, Hm.
  split; [apply round2_nonneg, Hm1|]. split; [apply round2_nonneg, Hm2|].
  apply round2_mono; assumption.
Qed.

(** Property X12. [calculate_risk_score] is monotone: for non-negative
    utilizations [u1 <= u2] (as floats compare) and days to expiry [d2 <= d1],
    both scores are returned and the score of [u1] and [d1] is at most the
    score of [u2] and [d2]. *)
Theorem risk_score_monotone (u1 u2 : F64.float) (d1 d2 : Z) :
  F64.valid u1 -> F64.valid u2 ->
  F64.leb F64.zero u1 = true -> F64.leb u1 u2 = true -> d2 <= d1 ->
  exists s1 s2, calculate_risk_score u1 d1 = Ok s1 /\
    calculate_risk_score u2 d2 = Ok s2 /\ s1 <= s2.
Proof.
  intros Hv1 Hv2 H0 H Hd.
  pose proof (leb_zero_nonneg u1 Hv1 H0) as N1.
  pose proof (leb_nonneg u1 u2 Hv2 N1 H) as N2.
  apply risk_score_mono; try assumption.
  apply leb_fle; assumption.
Qed.

Lemma risk_score_monotone_witness :
  exists s1 s2, calculate_risk_score (F64.lit 50 1) 180 = Ok s1 /\
    calculate_risk_score (F64.lit 824 10) 60 = Ok s2 /\ s1 <= s2.
Proof.
  apply (risk_score_monotone (F64.lit 50 1) (F64.lit 824 10) 180 60);
    try reflexivity. lia.
Defined.

(** Property X13. [calculate_utilization_pct] is monotone in the ratio of
    protected to entitled VMs: when [p1 / e1 <= p2 / e2] on non-negative
    counts and positive entitlements, and the larger quotient is within the
    range of a double, both utilizations are returned and the first is at most
    the second. *)
Theorem utilization_pct_monotone (p1 e1 p2 e2 : Z) :
  0 <= p1 -> 0 < e1 -> 0 < e2 -> p1 * e2 <= p2 * e1 ->
  p2 <= max_double * e2 ->
  exists u1 u2, calculate_utilization_pct p1 e1 = Ok u1 /\
    calculate_utilization_pct p2 e2 = Ok u2 /\ F64.leb u1 u2 = true.
Proof.
  intros Hp1 He1 He2 H Hmax.
  assert (Hp2 : 0 <= p2) by nia.
  assert (Hmax1 : p1 <= max_double * e1).
  { assert (Hpos : 0 < max_double) by reflexivity.
    revert Hmax Hpos. generalize max_double. intros M Hmax Hpos.
    assert (p1 * e2 <= M * e1 * e2) by nia.
    apply Z.mul_le_mono_pos_r with e2; [lia|]. lia. }
  destruct (utilization_pct_nonneg p1 e1 Hp1 (or_intror Hmax1)) as (u1 & E1 & _).
  destruct (utilization_pct_nonneg p2 e2 Hp2 (or_intror Hmax)) as (u2 & E2 & _).
  exists u1, u2. split; [exact E1|]. split; [exact E2|].
  destruct (utilization_pct_mono p1 e1 p2 e2 u1 u2 Hp1 He1 He2 H E1 E2) as (N1 & N2 & Hle).
  apply leb_fle; assumption.
Qed.

Lemma utilization_pct_monotone_witness :
  exists u1 u2, calculate_utilization_pct 412 500 = Ok u1 /\
    calculate_utilization_pct 250 300 = Ok u2 /\ F64.leb u1 u2 = true.
Proof.
  apply (utilization_pct_monotone 412 500 250 300); try lia.
  apply Z.leb_le. vm_compute. reflexivity.
Defined.

(** Property X14. Two runs of [derive_metrics] on the same entitlement: with
    at least as many protected VMs and at most as many days to expiry, the
    second dictionary holds a utilization and a risk score that are at least
    those of the first, whatever the dates, histories and thresholds of the
    two runs. *)
Theorem derive_metrics_monotone (today1 today2 : Z) (now1 now2 : string)
    (entitled_vms p1 p2 d1 d2 : Z)
    (history1 history2 : option (gmap string (list Z)))
    (thresholds1 thresholds2 : option (gmap string F64.float))
    (m1 m2 : pyval) :
  0 < entitled_vms -> 0 <= p1 <= p2 -> d2 <= d1 ->
  derive_metrics today1 now1 entitled_vms p1 d1 history1 thresholds1 = Ok m1 ->
  derive_metrics today2 now2 entitled_vms p2 d2 history2 thresholds2 = Ok m2 ->
  exists u1 u2 r1 r2,
    field ["utilization_pct"%string] m1 = Some (PFloat u1) /\
    field ["utilization_pct"%string] m2 = Some (PFloat u2) /\
    F64.leb u1 u2 = true /\
    field ["risk_score"%string] m1 = Some (PInt r1) /\
    field ["risk_score"%string] m2 = Some (PInt r2) /\
    r1 <= r2.
Proof.
  intros He Hp Hd E1 E2. unfold derive_metrics in E1, E2.
  destruct (calculate_utilization_pct p1 entitled_vms) as [u1|] eqn:Eu1; [|discriminate].
  destruct (calculate_utilization_pct p2 entitled_vms) as [u2|] eqn:Eu2; [|discriminate].
  cbn [mbind result_bind] in E1, E2.
  destruct (calculate_risk_score u1 d1) as [r1|] eqn:Er1; [|discriminate].
  destruct (calculate_risk_score u2 d2) as [r2|] eqn:Er2; [|discriminate].
  cbn [mbind result_bind] in E1, E2.
  destruct (generate_alerts u1 d1 thresholds1) as [a1|]; [|discriminate].
  destruct (generate_alerts u2 d2 thresholds2) as [a2|]; [|discriminate].
  cbn [mbind result_bind] in E1, E2.
  destruct (forecast_runout_date today1 _ _) as [f1|]; [|discriminate].
  destruct (forecast_runout_date today2 _ _) as [f2|]; [|discriminate].
  cbn [mbind result_bind] in E1, E2.
  injection E1 as <-. injection E2 as <-.
  exists u1, u2, r1, r2.
  destruct (utilization_pct_mono p1 entitled_vms p2 entitled_vms u1 u2
              ltac:(lia) He He ltac:(nia) Eu1 Eu2) as (N1 & N2 & Hle).
  split; [reflexivity|]. split; [reflexivity|].
  split; [apply leb_fle; assumption|].
  split; [reflexivity|]. split; [reflexivity|].
  destruct (risk_score_mono u1 u2 d1 d2 N1 N2 Hle Hd) as (s1 & s2 & F1 & F2 & Hs).
  congruence.
Qed.

Lemma derive_metrics_monotone_witness :
  exists m1 m2 u1 u2 r1 r2,
    derive_metrics 739923 "2026-11-03T09:00:00" 500 400 180 None None = Ok m1 /\
    derive_metrics 739953 "2026-12-03T09:00:00" 500 412 150 None None = Ok m2 /\
    field ["utilization_pct"%string] m1 = Some (PFloat u1) /\
    field ["utilization_pct"%string] m2 = Some (PFloat u2) /\
    F64.leb u1 u2 = true /\
    field ["risk_score"%string] m1 = Some (PInt r1) /\
    field ["risk_score"%string] m2 = Some (PInt r2) /\
    r1 <= r2.
Proof.
  assert (E1 : exists m,
            derive_metrics 739923 "2026-11-03T09:00:00" 500 400 180 None None = Ok m)
    by (eexists; vm_compute; reflexivity).
  assert (E2 : exists m,
            derive_metrics 739953 "2026-12-03T09:00:00" 500 412 150 None None = Ok m)
    by (eexists; vm_compute; reflexivity).
  destruct E1 as [m1 E1]. destruct E2 as [m2 E2].
  destruct (derive_metrics_monotone _ _ _ _ 500 400 412 180 150 _ _ _ _ m1 m2
              ltac:(lia) ltac:(lia) ltac:(lia) E1 E2) as (u1 & u2 & r1 & r2 & H).
  exists m1, m2, u1, u2, r1, r2. split; [exact E1|]. split; [exact E2|]. exact H.
Defined.

(** ** zerto/api.py *)

Lemma history_of_lookup (days : list Z) : forall init : gmap string (list Z),
  Forall (fun day => Z.abs day < 10 ^ int_max_str_digits) days ->
  exists history,
    ZvmApi.history_of init days = Ok history /\
    forall k,
      history !! k
      = if bool_decide (k ∈ map (fun day => ("days_" ++ pretty day)%string) days)
        then Some [] else init !! k.
Proof.
  induction days as [|day days IH]; intros init H.
  - exists init. split; [reflexivity|]. intros k. cbn [map].
    rewrite bool_decide_eq_false_2 by apply not_elem_of_nil. reflexivity.
  - apply List.Forall_cons_iff in H. destruct H as [Hday H].
    cbn [ZvmApi.history_of]. rewrite (int_str_returns day Hday).
    cbn [mbind result_bind].
    destruct (IH (<[("days_" ++ pretty day)%string := []]> init) H)
      as (history & E & Hk).
    exists history. split; [exact E|]. intros k. rewrite Hk. cbn [map].
    destruct (bool_decide (k ∈ map (fun day => ("days_" ++ pretty day)%string) days)) eqn:Ed.
    + apply bool_decide_eq_true in Ed.
      rewrite bool_decide_eq_true_2 by (apply elem_of_cons; right; exact Ed). reflexivity.
    + apply bool_decide_eq_false in Ed.
      destruct (decide (k = ("days_" ++ pretty day)%string)) as [->|Hne].
      * rewrite lookup_insert_eq.
        rewrite bool_decide_eq_true_2 by (apply elem_of_cons; left; reflexivity). reflexivity.
      * rewrite lookup_insert_ne by congruence.
        rewrite bool_decide_eq_false_2; [reflexivity|].
        intros Hin. apply elem_of_cons in Hin. destruct Hin; contradiction.
Qed.

(** A period of more than 4300 digits ends the comprehension. *)
Lemma history_of_raises (days : list Z) : forall init : gmap string (list Z),
  Exists (fun day => 10 ^ int_max_str_digits <= Z.abs day) days ->
  ZvmApi.history_of init days = Raise int_limit_error.
Proof.
  induction days as [|day days IH]; intros init H.
  - apply List.Exists_nil in H. contradiction.
  - cbn [ZvmApi.history_of]. unfold int_str.
    destruct (Z.leb_spec (10 ^ int_max_str_digits) (Z.abs day)) as [Hb|Hs];
      [reflexivity|].
    cbn [mbind result_bind]. apply IH.
    apply List.Exists_cons in H. destruct H as [H|H]; [lia | exact H].
Qed.

(** A history of empty lists has no forecast. *)
Lemma forecast_of_empty_samples (history : gmap string (list Z))
    (today entitled_vms : Z) :
  (forall l, history !! "days_7"%string = Some l -> l = []) ->
  forecast_runout_date today history entitled_vms = Ok "N/A"%string.
Proof.
  intros H. unfold forecast_runout_date.
  destruct (bool_decide (history = ∅)); [reflexivity|].
  destruct (history !! "days_7"%string) as [l|] eqn:E; [|reflexivity].
  rewrite (H l eq_refl). reflexivity.
Qed.

(** Property X15. When every period asked for has at most 4300 digits (by
    default the periods are 7, 30 and 90 days), the history of the API
    client is returned and holds one empty list of samples for each period,
    under the key "days_" followed by the number, and nothing else; the
    forecast on it is "N/A". A longer period makes the call raise
    [ValueError]. *)
Theorem get_historical_data_empty (days : option (list Z)) :
  (Forall (fun day => Z.abs day < 10 ^ int_max_str_digits)
     (default [7; 30; 90] days) ->
   exists history,
     ZvmApi.get_historical_data days = Ok history /\
     (forall k,
        history !! k
        = if bool_decide
               (k ∈ map (fun day => ("days_" ++ pretty day)%string)
                      (default [7; 30; 90] days))
          then Some [] else None) /\
     (forall today entitled_vms,
        forecast_runout_date today history entitled_vms = Ok "N/A"%string)) /\
  (Exists (fun day => 10 ^ int_max_str_digits <= Z.abs day)
     (default [7; 30; 90] days) ->
   ZvmApi.get_historical_data days = Raise int_limit_error).
Proof.
  split; [|apply history_of_raises].
  intros H. destruct (history_of_lookup _ ∅ H) as (history & E & Hk).
  exists history. split; [exact E|]. split.
  - intros k. rewrite Hk, lookup_empty. reflexivity.
  - intros today entitled_vms. apply forecast_of_empty_samples.
    intros l. rewrite Hk, lookup_empty.
    destruct (bool_decide _); congruence.
Qed.

Lemma get_historical_data_empty_witness :
  exists history,
    ZvmApi.get_historical_data None = Ok history /\
    (forall k,
       history !! k
       = if bool_decide
              (k ∈ map (fun day => ("days_" ++ pretty day)%string) [7; 30; 90])
         then Some [] else None) /\
    (forall today entitled_vms,
       forecast_runout_date today history entitled_vms = Ok "N/A"%string).
Proof.
  apply (proj1 (get_historical_data_empty None)).
  repeat (apply List.Forall_cons; [vm_compute; reflexivity|]). apply List.Forall_nil.
Defined.

(** ** zerto/config.py: expansion without variables *)

Lemma until_brace_text s name rest : until_brace s = Some (name, rest) ->
  s = (name ++ "}" ++ rest)%string.
Proof.
  revert name rest. induction s as [|c s IH]; intros name rest; cbn [until_brace];
    [discriminate|].
  destruct (Ascii.eqb_spec c "}") as [->|Hc].
  - intros [= <- <-]. reflexivity.
  - destruct (until_brace s) as [[n r]|]; [|discriminate].
    intros [= <- <-]. rewrite (IH n r eq_refl). reflexivity.
Qed.

Lemma match_at_text s name rest : match_at s = Some (name, rest) ->
  s = ("${" ++ name ++ "}" ++ rest)%string.
Proof.
  unfold match_at. destruct s as [|a [|b s]]; try discriminate.
  { destruct a as [[] [] [] [] [] [] [] []]; discriminate. }
  destruct (until_brace s) as [[[|c n] r]|] eqn:E;
    destruct a as [[] [] [] [] [] [] [] []]; try discriminate;
    destruct b as [[] [] [] [] [] [] [] []]; try discriminate.
  intros [= <- <-]. rewrite (until_brace_text _ _ _ E). reflexivity.
Qed.

Lemma string_app_assoc (a b c : string) : ((a ++ b) ++ c = a ++ (b ++ c))%string.
Proof.
  induction a as [|x a IH]; [reflexivity|].
  change (String x ((a ++ b) ++ c) = String x (a ++ (b ++ c)))%string.
  f_equal. exact IH.
Qed.

Lemma sub_from_unset (environ : gmap string string) fuel : forall s,
  (forall name, environ !! name = None) ->
  sub_from fuel (replace_var environ) s = s.
Proof.
  induction fuel as [|fuel IH]; intros s Henv; [reflexivity|].
  cbn [sub_from]. destruct (match_at s) as [[name rest]|] eqn:E.
  - rewrite (IH rest Henv). unfold replace_var. rewrite Henv.
    etransitivity; [|symmetry; apply (match_at_text _ _ _ E)].
    change (String "$" (String "{" ((name ++ "}") ++ rest))
            = String "$" (String "{" (name ++ ("}" ++ rest))))%string.
    do 2 f_equal. apply string_app_assoc.
  - destruct s as [|c s]; [reflexivity|]. rewrite (IH s Henv). reflexivity.
Qed.

(** Property X16. With no variable set, the expansion leaves every text as it
    is. *)
Theorem expand_env_vars_empty (content : string) :
  _expand_env_vars ∅ content = content.
Proof.
  unfold _expand_env_vars, re_sub. apply sub_from_unset.
  intros name. apply lookup_empty.
Qed.

(** ** zerto/config.py: validation *)

Section Validated.
Variable safe_load : string -> pyval + string.
Variable py_str : pyval -> string.

Lemma check_fields_inv fields d :
  check_fields fields (PDict d) = Ok tt ->
  forall f, In f fields -> is_Some (dict_lookup f d).
Proof.
  induction fields as [|g fields IH]; intros H f Hin; [destruct Hin|].
  cbn [check_fields contains mbind result_bind] in H.
  destruct (bool_decide (is_Some (dict_lookup g d))) eqn:Eg; [|discriminate].
  cbn [negb] in H. destruct Hin as [<-|Hin].
  - apply bool_decide_eq_true in Eg. exact Eg.
  - apply IH; assumption.
Qed.

Lemma eq_str_inv s v : eq_str s v = true -> v = PStr s.
Proof.
  destruct v; try discriminate. cbn [eq_str].
  intros H. apply String.eqb_eq in H. subst. reflexivity.
Qed.

(** A configuration that passes validation is a mapping with the four
    fields whose [auth] entry is a mapping with a known version. *)
Lemma validate_inv config : _validate py_str config = Ok tt ->
  exists d a version,
    config = PDict d /\ d <> [] /\
    (forall f, In f required_fields -> is_Some (dict_lookup f d)) /\
    dict_lookup "auth" d = Some (PDict a) /\
    dict_lookup "version" a = Some (PStr version) /\
    (version = "10.x" \/ version = "pre-10")%string.
Proof.
  unfold _validate. destruct (truthy config) eqn:Et; [|discriminate]. cbn [negb].
  destruct (check_fields required_fields config) as [[]|e] eqn:Ec; [|discriminate].
  cbn [mbind result_bind].
  destruct config as [|b|z|x|s|l|d]; try discriminate.
  cbn [py_get mbind result_bind].
  pose proof (check_fields_inv _ _ Ec) as Hall.
  destruct (Hall "auth"%string ltac:(cbn; auto)) as [auth Ha]. rewrite Ha.
  cbn [default from_option id].
  destruct auth as [|b|z|x|s|l|a]; try discriminate.
  cbn [py_get mbind result_bind].
  destruct (dict_lookup "version" a) as [v|] eqn:Ev; cbn [default from_option id].
  2:{ discriminate. }
  destruct (eq_str "10.x" v) eqn:E1.
  - intros _. apply eq_str_inv in E1. subst v.
    exists d, a, "10.x"%string. repeat split; auto.
    intros ->. discriminate.
  - destruct (eq_str "pre-10" v) eqn:E2; [|discriminate].
    intros _. apply eq_str_inv in E2. subst v.
    exists d, a, "pre-10"%string. repeat split; auto.
    intros ->. discriminate.
Qed.

(** Property X17. What [load] (and so [load_config]) returns is the parsed
    text of the file after expansion, and it is a mapping with the four
    required fields whose [auth] entry is a mapping with the version "10.x" or
    "pre-10". *)
Theorem load_returns_validated (files environ : gmap string string)
    (config_path : string) (config : pyval) :
  load safe_load py_str files environ config_path = Ok config ->
  exists content d a version,
    files !! config_path = Some content /\
    safe_load (_expand_env_vars environ content) = inl config /\
    config = PDict d /\
    (forall f, In f required_fields -> is_Some (dict_lookup f d)) /\
    dict_lookup "auth" d = Some (PDict a) /\
    dict_lookup "version" a = Some (PStr version) /\
    (version = "10.x" \/ version = "pre-10")%string /\
    load_config safe_load py_str files environ config_path = Ok config.
Proof.
  intros H. assert (H' := H). unfold load in H.
  destruct (files !! config_path) as [content|] eqn:Ef; [|discriminate].
  destruct (safe_load (_expand_env_vars environ content)) as [c|e] eqn:Ep; [|discriminate].
  destruct (_validate py_str c) as [[]|e] eqn:Ev; [|discriminate].
  cbn [mbind result_bind] in H. injection H as <-.
  destruct (validate_inv c Ev) as (d & a & version & -> & _ & Hall & Ha & Hv & Hver).
  exists content, d, a, version. repeat split; auto.
Qed.

Lemma check_fields_first fields d f :
  find (fun g => negb (bool_decide (is_Some (dict_lookup g d)))) fields = Some f ->
  check_fields fields (PDict d)
  = Raise (ValueError ("Missing required config field: " ++ f)).
Proof.
  induction fields as [|g fields IH]; [discriminate|].
  cbn [find check_fields contains mbind result_bind].
  destruct (negb (bool_decide (is_Some (dict_lookup g d)))).
  - intros [= <-]. reflexivity.
  - exact IH.
Qed.

(** Property X18. Validation reports the first field that is missing, in the
    order zvm_url, auth, verify_tls, output_dir; an empty configuration is
    reported as empty, whatever it is. *)
Theorem validate_first_missing (d : list (pyval * pyval)) :
  (forall f, d <> [] ->
     find (fun g => negb (bool_decide (is_Some (dict_lookup g d)))) required_fields
     = Some f ->
     _validate py_str (PDict d)
     = Raise (ValueError ("Missing required config field: " ++ f))) /\
  (forall config, truthy config = false ->
     _validate py_str config = Raise (ValueError "Configuration is empty")).
Proof.
  split.
  - intros f Hd Hf. unfold _validate. destruct d; [contradiction|]. cbn [truthy negb].
    rewrite (check_fields_first _ _ _ Hf). reflexivity.
  - intros config Ht. unfold _validate. rewrite Ht. reflexivity.
Qed.

End Validated.

Lemma load_returns_validated_witness :
  exists content d a version,
    ({[ "config.yaml" := "zvm: ${ZVM}" ]} : gmap string string) !! "config.yaml"
    = Some content /\
    (inl example_config : pyval + string) = inl example_config /\
    example_config = PDict d /\
    (forall f, In f required_fields -> is_Some (dict_lookup f d)) /\
    dict_lookup "auth" d = Some (PDict a) /\
    dict_lookup "version" a = Some (PStr version) /\
    (version = "10.x" \/ version = "pre-10")%string /\
    load_config (fun _ => inl example_config) example_str
      {[ "config.yaml" := "zvm: ${ZVM}" ]} ∅ "config.yaml" = Ok example_config.
Proof.
  apply (load_returns_validated (fun _ => inl example_config) example_str
           {[ "config.yaml" := "zvm: ${ZVM}" ]} ∅ "config.yaml" example_config).
  reflexivity.
Defined.

(** ** zerto/config.py: the values of a configuration *)

Lemma str_split_cons sep s : exists word words, str_split sep s = word :: words.
Proof.
  induction s as [|c s (w & ws & IH)]; cbn [str_split]; [eauto|].
  destruct (Ascii.eqb c sep); [eauto|]. rewrite IH. eauto.
Qed.

Lemma get_loop_field keys : forall value dflt, value <> PNone ->
  get_loop keys value dflt
  = match field keys value with
    | Some PNone | None => dflt
    | Some v => v
    end.
Proof.
  induction keys as [|k keys IH]; intros value dflt Hv.
  - cbn [get_loop field]. destruct value; try reflexivity. contradiction.
  - cbn [get_loop field]. destruct value as [|b|z|x|s|l|d]; try reflexivity.
    destruct (dict_lookup k d) as [v|]; cbn [default from_option id]; [|reflexivity].
    destruct v as [|b|z|x|s|l|d'];
      [destruct keys; reflexivity | rewrite <- IH by discriminate; reflexivity ..].
Qed.

(** Property X19. [get] returns the value at the path of keys separated by
    dots; a missing key, a null and a value that is not a mapping on the way
    give the default, and so does an empty configuration. The result is null
    only when the default is. *)
Theorem get_follows_path (config : pyval) (key : string) (dflt : pyval) :
  (truthy config = false -> get config key dflt = dflt) /\
  (truthy config = true ->
   get config key dflt
   = match field (str_split "." key) config with
     | Some PNone | None => dflt
     | Some v => v
     end) /\
  (get config key dflt = PNone -> dflt = PNone).
Proof.
  assert (H2 : truthy config = true ->
   get config key dflt
   = match field (str_split "." key) config with
     | Some PNone | None => dflt
     | Some v => v
     end).
  { intros Ht. unfold get. rewrite Ht. cbn [negb]. apply get_loop_field.
    intros ->. discriminate. }
  split; [|split; [exact H2|]].
  - intros Ht. unfold get. rewrite Ht. reflexivity.
  - destruct (truthy config) eqn:Ht.
    + rewrite (H2 eq_refl).
      destruct (str_split_cons "." key) as (w & ws & E). rewrite E.
      destruct (field (w :: ws) config) as [v|] eqn:Ef; [|auto].
      destruct v; try discriminate; auto.
    + unfold get. rewrite Ht. cbn [negb]. auto.
Qed.

(** Property X20. On a configuration that passes validation, [get] with the
    path "auth.version" is the version, "10.x" or "pre-10", whatever the
    default. *)
Theorem get_auth_version (py_str : pyval -> string) (config dflt : pyval) :
  _validate py_str config = Ok tt ->
  get config "auth.version" dflt = PStr "10.x" \/
  get config "auth.version" dflt = PStr "pre-10".
Proof.
  intros H.
  destruct (validate_inv py_str config H) as (d & a & version & -> & Hd & _ & Ha & Hv & Hver).
  assert (E : get (PDict d) "auth.version" dflt = PStr version).
  { unfold get. destruct d; [contradiction|]. cbn [truthy negb].
    change (str_split "." "auth.version") with ["auth"; "version"]%string.
    cbn [get_loop]. rewrite Ha. cbn [default from_option id get_loop].
    rewrite Hv. reflexivity. }
  rewrite E. destruct Hver as [->| ->]; auto.
Qed.

Lemma get_auth_version_witness :
  get example_config "auth.version" PNone = PStr "10.x" \/
  get example_config "auth.version" PNone = PStr "pre-10".
Proof. apply (get_auth_version example_str example_config PNone). reflexivity. Defined.

(** ** zerto/output.py: the alerts of the page *)

Import ReportGenerator.

Section Rendering.
Variable py_str : pyval -> string.
Variable capitalize : string -> string.

Local Abbreviation render_alert := (render_alert py_str capitalize).
Local Abbreviation render_loop := (render_loop py_str capitalize).
Local Abbreviation _render_alerts := (_render_alerts py_str capitalize).

Lemma string_app_nil_r (s : string) : (s ++ "")%string = s.
Proof.
  induction s as [|c s IH]; [reflexivity|].
  change (String c (s ++ "") = String c s)%string. f_equal. exact IH.
Qed.

Lemma render_loop_acc alerts : forall html,
  render_loop html alerts
  = (blocks ← render_loop "" alerts; Ok (html ++ blocks)%string).
Proof.
  induction alerts as [|a alerts IH]; intros html.
  - cbn [render_loop mbind result_bind]. rewrite string_app_nil_r. reflexivity.
  - cbn [render_loop]. destruct (render_alert a) as [block|e]; [|reflexivity].
    cbn [mbind result_bind]. rewrite (IH (html ++ block)%string), (IH ("" ++ block)%string).
    destruct (render_loop "" alerts) as [blocks|e]; [|reflexivity].
    cbn [mbind result_bind]. change ("" ++ block)%string with block. rewrite string_app_assoc. reflexivity.
Qed.

Lemma render_loop_app l1 l2 : forall html,
  render_loop html (l1 ++ l2)
  = (h ← render_loop html l1; render_loop h l2).
Proof.
  induction l1 as [|a l1 IH]; intros html; [reflexivity|].
  cbn [render_loop app]. destruct (render_alert a) as [block|e]; [|reflexivity].
  cbn [mbind result_bind]. apply IH.
Qed.

Lemma render_alert_starts alert block : render_alert alert = Ok block ->
  exists rest, block = String "010" rest.
Proof.
  unfold render_alert.
  destruct (py_get alert "severity" _) as [s|]; [|discriminate]. cbn [mbind result_bind].
  destruct (py_get alert "message" _) as [m|]; [|discriminate]. cbn [mbind result_bind].
  destruct (py_get alert "recommendation" _) as [r|]; [|discriminate]. cbn [mbind result_bind].
  destruct (badge_class s) as [b|]; [|discriminate]. cbn [mbind result_bind].
  destruct (py_capitalize capitalize s) as [c|]; [|discriminate]. cbn [mbind result_bind].
  intros [= <-]. unfold alert_block, nl. eexists. reflexivity.
Qed.

(** A list with an alert is never rendered as "No alerts". *)
Lemma render_alerts_some a alerts :
  _render_alerts (PList (a :: alerts))
  <> Ok "<p class='text-success'>No alerts</p>"%string.
Proof.
  intros H. unfold ReportGenerator._render_alerts in H.
  cbn [truthy negb py_iter mbind result_bind ReportGenerator.render_loop] in H.
  destruct (render_alert a) as [block|e] eqn:Eb; [|discriminate].
  cbn [mbind result_bind] in H. rewrite render_loop_acc in H.
  destruct (render_loop "" alerts) as [blocks|e]; [|discriminate].
  cbn [mbind result_bind] in H.
  destruct (render_alert_starts _ _ Eb) as (rest & ->).
  change ("" ++ String "010" rest ++ blocks)%string
    with (String "010" (rest ++ blocks)) in H.
  discriminate.
Qed.

(** Property X21. [_render_alerts] gives the paragraph "No alerts" for every
    value that counts as false, and for no list but the empty one; the text of
    a list is the text of its alerts one after the other. *)
Theorem render_alerts_blocks (alerts : list pyval) :
  (forall v, truthy v = false ->
     _render_alerts v = Ok "<p class='text-success'>No alerts</p>"%string) /\
  (_render_alerts (PList alerts) = Ok "<p class='text-success'>No alerts</p>"%string
   <-> alerts = []) /\
  (forall l1 l2, l1 <> [] -> l2 <> [] -> alerts = l1 ++ l2 ->
     _render_alerts (PList alerts)
     = (h1 ← _render_alerts (PList l1); h2 ← _render_alerts (PList l2);
        Ok (h1 ++ h2)%string)).
Proof.
  split; [|split].
  - intros v Hv. unfold ReportGenerator._render_alerts. rewrite Hv. reflexivity.
  - split.
    + intros H. destruct alerts as [|a alerts]; [reflexivity|]. exfalso.
      exact (render_alerts_some a alerts H).
    + intros ->. reflexivity.
  - intros l1 l2 H1 H2 ->. unfold ReportGenerator._render_alerts.
    destruct l1 as [|a1 l1]; [contradiction|]. destruct l2 as [|a2 l2]; [contradiction|].
    cbn [truthy negb py_iter mbind result_bind app].
    change (a1 :: l1 ++ a2 :: l2) with ((a1 :: l1) ++ (a2 :: l2)).
    rewrite render_loop_app.
    destruct (render_loop "" (a1 :: l1)) as [h1|e]; [|reflexivity].
    cbn [mbind result_bind]. apply render_loop_acc.
Qed.

(** The text of one alert of [generate_alerts]. *)
Lemma render_alert_dict (a : alert) :
  render_alert (alert_dict a)
  = (badge ← badge_class (PStr (severity a));
     Ok (alert_block badge (capitalize (severity a)) (message a) (recommendation a))).
Proof.
  unfold ReportGenerator.render_alert, alert_dict, py_dict.
  cbn [map fst snd py_get dict_lookup eq_str String.eqb Ascii.eqb Bool.eqb
       default from_option id mbind result_bind].
  destruct (badge_class (PStr (severity a))); reflexivity.
Qed.


Lemma render_loop_generated (alerts : list alert) : forall html,
  Forall (fun a => severity a = "critical" \/ severity a = "warning"
                   \/ severity a = "info")%string alerts ->
  render_loop html (map alert_dict alerts)
  = Ok (html ++ String.concat "" (map (alert_html capitalize) alerts))%string.
Proof.
  induction alerts as [|a alerts IH]; intros html H.
  - cbn [map render_loop String.concat]. rewrite string_app_nil_r. reflexivity.
  - apply List.Forall_cons_iff in H. destruct H as [Ha H].
    cbn [map ReportGenerator.render_loop]. rewrite render_alert_dict.
    assert (Eb : badge_class (PStr (severity a))
                 = Ok (if String.eqb (severity a) "critical" then "danger"
                       else if String.eqb (severity a) "warning" then "warning"
                       else "info")%string).
    { destruct Ha as [-> |[-> | ->]]; reflexivity. }
    rewrite Eb. cbn [mbind result_bind]. rewrite (IH _ H). fold (alert_html capitalize a).
    f_equal. rewrite string_app_assoc. f_equal.
    destruct alerts as [|b alerts]; [cbn [map String.concat]; apply string_app_nil_r|].
    reflexivity.
Qed.

(** Property X22. The alerts that [generate_alerts] returns are rendered
    without an exception, each with the badge class of its severity
    ("danger", "warning" or "info", never "secondary"); with the default
    thresholds the page says "No alerts" exactly when the utilization does
    not reach 80.0 (nor 95.0) and more than 90 days are left. *)
Theorem render_generated_alerts (utilization_pct : F64.float)
    (days_to_expiry : Z) (alert_thresholds : option (gmap string F64.float))
    (alerts : list alert) :
  generate_alerts utilization_pct days_to_expiry alert_thresholds = Ok alerts ->
  exists html,
    _render_alerts (PList (map alert_dict alerts)) = Ok html /\
    (alerts <> [] -> html = String.concat "" (map (alert_html capitalize) alerts)) /\
    (alert_thresholds = None ->
     (html = "<p class='text-success'>No alerts</p>"%string <->
      F64.leb (F64.lit 95 1) utilization_pct = false /\
      F64.leb (F64.lit 80 1) utilization_pct = false /\ 90 < days_to_expiry)).
Proof.
  intros E.
  destruct (generate_alerts_shape _ _ _ _ E) as (ua & ea & Eal & Eea & _ & _ & Hu & He).
  assert (Hall : Forall (fun a => severity a = "critical" \/ severity a = "warning"
                   \/ severity a = "info")%string alerts).
  { rewrite Eal. apply List.Forall_app. split; eapply List.Forall_impl; try eassumption;
      cbv beta; intros; tauto. }
  assert (Hr : alerts <> [] ->
            _render_alerts (PList (map alert_dict alerts))
            = Ok (String.concat "" (map (alert_html capitalize) alerts))).
  { intros Hne. unfold ReportGenerator._render_alerts.
    destruct alerts as [|a l]; [contradiction|].
    cbn [map truthy negb py_iter mbind result_bind].
    change (alert_dict a :: map alert_dict l) with (map alert_dict (a :: l)).
    rewrite (render_loop_generated _ _ Hall). reflexivity. }
  assert (Hnone : alert_thresholds = None ->
            (alerts = [] <->
             F64.leb (F64.lit 95 1) utilization_pct = false /\
             F64.leb (F64.lit 80 1) utilization_pct = false /\ 90 < days_to_expiry)).
  { intros ->. clear Hr Hall Hu He Eal. revert E. rewrite generate_alerts_eq.
    rewrite Eea. cbn [mbind result_bind].
    replace (F64.mul (default (F64.lit 95 100)
               (default default_thresholds None !! "utilization_crit"%string)) hundred)
      with (F64.lit 95 1) by (vm_compute; reflexivity).
    replace (F64.mul (default (F64.lit 80 100)
               (default default_thresholds None !! "utilization_warn"%string)) hundred)
      with (F64.lit 80 1) by (vm_compute; reflexivity).
    pose proof (expiry_alerts_inv _ _ Eea) as Hs.
    unfold utilization_alerts. intros [= <-].
    destruct (F64.leb (F64.lit 95 1) utilization_pct);
      [split; [discriminate | intros (? & _); discriminate]|].
    destruct (F64.leb (F64.lit 80 1) utilization_pct);
      [split; [discriminate | intros (_ & ? & _); discriminate]|].
    cbn [app].
    destruct (Z.leb_spec days_to_expiry 30).
    { destruct ea; [discriminate|]. split; [discriminate | lia]. }
    destruct (Z.leb_spec days_to_expiry 90).
    { destruct ea; [discriminate|]. split; [discriminate | lia]. }
    destruct ea; [|discriminate]. split; [intros _; repeat split; lia | reflexivity]. }
  destruct alerts as [|a l].
  - exists "<p class='text-success'>No alerts</p>"%string.
    split; [reflexivity|]. split; [contradiction|].
    intros Ht. split; [intros _; apply (Hnone Ht); reflexivity | reflexivity].
  - exists (String.concat "" (map (alert_html capitalize) (a :: l))).
    split; [apply Hr; discriminate|]. split; [reflexivity|].
    intros Ht. split.
    + intros H. exfalso.
      pose proof (Hr ltac:(discriminate)) as Hr'. rewrite H in Hr'.
      exact (render_alerts_some _ _ Hr').
    + intros H. apply (Hnone Ht) in H. discriminate.
Qed.

End Rendering.

Lemma render_generated_alerts_witness :
  exists html,
    _render_alerts example_str (fun s => s)
      (PList
         (map alert_dict
            [ Alert "warning" "License expiring soon (25 days)"
                "License renewal action required" ])) = Ok html /\
    ([ Alert "warning" "License expiring soon (25 days)"
         "License renewal action required" ] <> [] ->
     html
     = String.concat ""
         (map (alert_html (fun s => s))
            [ Alert "warning" "License expiring soon (25 days)"
                "License renewal action required" ])) /\
    (@None (gmap string F64.float) = None ->
     (html = "<p class='text-success'>No alerts</p>"%string <->
      F64.leb (F64.lit 95 1) (F64.lit 50 1) = false /\
      F64.leb (F64.lit 80 1) (F64.lit 50 1) = false /\ 90 < 25)).
Proof.
  apply (render_generated_alerts example_str (fun s => s) (F64.lit 50 1) 25 None).
  vm_compute. reflexivity.
Defined.

(** ** zerto/output.py: the CSV table *)

Section Tables.
Variable py_str : pyval -> string.
Variable capitalize : string -> string.
Variable csv_text : list (list pyval) -> string.
Variable joinpath : string -> string -> string.

Lemma site_rows_shape license_data timestamp entitled_vms sites : forall rows,
  py_get license_data "entitled_vms" (PInt 0) = Ok entitled_vms ->
  site_rows license_data timestamp sites = Ok rows ->
  length rows = length sites /\
  Forall (site_row_shape entitled_vms timestamp) rows.
Proof.
  intros rows He. revert rows.
  induction sites as [|site sites IH]; intros rows.
  - cbn [site_rows]. intros [= <-]. split; [reflexivity | constructor].
  - cbn [site_rows]. unfold site_row.
    destruct (py_get site "name" _) as [name|]; [|discriminate]. cbn [mbind result_bind].
    destruct (py_get site "protected_vms" _) as [p|]; [|discriminate].
    cbn [mbind result_bind]. rewrite He. cbn [mbind result_bind].
    destruct (site_rows license_data timestamp sites) as [rows'|]; [|discriminate].
    cbn [mbind result_bind]. intros [= <-].
    destruct (IH rows' eq_refl) as [Hl Hf]. split; [cbn [length]; lia|].
    apply List.Forall_cons; [|exact Hf]. exists name, p. reflexivity.
Qed.

(** Property X23. When [generate_csv] returns, the file it wrote holds the
    header, the summary row and one row for each item of "sites", in that
    order; every row has six cells, and a row of a site holds the entitlement
    of the license, 0 for the utilization and 0 for the risk score. *)
Theorem generate_csv_table (output_dir timestamp : string)
    (files files' : gmap string string)
    (license_data consumption_data metrics : pyval) (path : string) :
  generate_csv csv_text joinpath output_dir timestamp files license_data
    consumption_data metrics = Ok (files', path) ->
  exists summary per_site entitled_vms items,
    path = joinpath output_dir "licensing_utilization.csv" /\
    files' = <[path := csv_text (csv_header :: summary :: per_site)]> files /\
    py_get license_data "entitled_vms" (PInt 0) = Ok entitled_vms /\
    (item_if_present "sites" consumption_data = Ok None /\ items = [] \/
     exists sites, item_if_present "sites" consumption_data = Ok (Some sites) /\
                   py_iter sites = Ok items) /\
    length per_site = length items /\
    Forall (fun row => length row = 6%nat) (csv_header :: summary :: per_site) /\
    nth 2 summary PNone = entitled_vms /\
    Forall (site_row_shape entitled_vms timestamp) per_site.
Proof.
  unfold generate_csv.
  destruct (py_get consumption_data "protected_vms" _) as [p|]; [|discriminate].
  cbn [mbind result_bind].
  destruct (py_get license_data "entitled_vms" _) as [e|] eqn:Ee; [|discriminate].
  cbn [mbind result_bind].
  destruct (py_get metrics "utilization_pct" _) as [u|]; [|discriminate].
  cbn [mbind result_bind].
  destruct (py_get metrics "risk_score" _) as [r|]; [|discriminate].
  cbn [mbind result_bind].
  destruct (item_if_present "sites" consumption_data) as [sites|]; [|discriminate].
  cbn [mbind result_bind].
  destruct sites as [sites|].
  - destruct (py_iter sites) as [items|] eqn:Ei; [|discriminate].
    cbn [mbind result_bind].
    destruct (site_rows license_data timestamp items) as [rows|] eqn:Er; [|discriminate].
    cbn [mbind result_bind app]. intros [= <- <-].
    destruct (site_rows_shape _ _ _ _ _ Ee Er) as [Hl Hf].
    eexists _, rows, e, items.
    split; [reflexivity|]. split; [reflexivity|]. split; [reflexivity|].
    split; [right; exists sites; split; [reflexivity | exact Ei]|].
    split; [exact Hl|].
    split; [|split; [reflexivity | exact Hf]].
    apply List.Forall_cons; [reflexivity|]. apply List.Forall_cons; [reflexivity|].
    eapply List.Forall_impl; [|exact Hf]. intros row (n & q & ->). reflexivity.
  - cbn [mbind result_bind app]. intros [= <- <-].
    eexists _, [], e, [].
    split; [reflexivity|]. split; [reflexivity|]. split; [reflexivity|].
    split; [left; split; reflexivity|]. split; [reflexivity|].
    split; [|split; [reflexivity | constructor]].
    apply List.Forall_cons; [reflexivity|]. apply List.Forall_cons; [reflexivity|].
    constructor.
Qed.


Lemma site_rows_of_models (l : License.t) (timestamp : string) (sites : list Site.t) :
  site_rows (asdict.license l) timestamp (map asdict.site sites)
  = Ok (map (fun s => [ PStr (Site.name s); PInt (Site.protected_vms s);
                        PInt (License.entitled_vms l); PInt 0; PInt 0;
                        PStr timestamp ]) sites).
Proof.
  induction sites as [|s sites IH]; [reflexivity|].
  cbn [map site_rows]. rewrite IH. reflexivity.
Qed.

(** Property X24. When [generate_csv] returns on the dictionaries of a
    license, a consumption and metrics ([asdict]), the file it wrote holds
    the header, the summary of the counts and one row for each site of the
    consumption, in their order, with the name and the protected VMs of the
    site. *)
Theorem generate_csv_of_models (output_dir timestamp : string)
    (files files' : gmap string string)
    (l : License.t) (c : Consumption.t) (m : Metrics.t) (path : string) :
  generate_csv csv_text joinpath output_dir timestamp files
    (asdict.license l) (asdict.consumption c) (asdict.metrics m)
  = Ok (files', path) ->
  path = joinpath output_dir "licensing_utilization.csv" /\
  files'
  = <[path :=
        csv_text
          (csv_header
           :: [ PStr "SUMMARY"; PInt (Consumption.protected_vms c);
                PInt (License.entitled_vms l);
                PFloat (Metrics.utilization_pct m);
                PInt (Metrics.risk_score m); PStr timestamp ]
           :: map (fun s => [ PStr (Site.name s); PInt (Site.protected_vms s);
                              PInt (License.entitled_vms l); PInt 0; PInt 0;
                              PStr timestamp ])
                (Consumption.sites c))]> files.
Proof.
  unfold generate_csv.
  change (py_get (asdict.consumption c) "protected_vms" (PInt 0))
    with (Ok (PInt (Consumption.protected_vms c)) : result pyval).
  change (py_get (asdict.license l) "entitled_vms" (PInt 0))
    with (Ok (PInt (License.entitled_vms l)) : result pyval).
  change (py_get (asdict.metrics m) "utilization_pct" (PInt 0))
    with (Ok (PFloat (Metrics.utilization_pct m)) : result pyval).
  change (py_get (asdict.metrics m) "risk_score" (PInt 0))
    with (Ok (PInt (Metrics.risk_score m)) : result pyval).
  change (item_if_present "sites" (asdict.consumption c))
    with (Ok (Some (PList (map asdict.site (Consumption.sites c)))) : result (option pyval)).
  cbn [mbind result_bind py_iter]. rewrite site_rows_of_models.
  cbn [mbind result_bind]. intros [= <- <-]. split; reflexivity.
Qed.

(** ** zerto/output.py: the page *)

Lemma is_prefix_app (p s : string) : is_prefix p (p ++ s) = true.
Proof.
  induction p as [|c p IH]; [destruct s; reflexivity|].
  change (Ascii.eqb c c && is_prefix p (p ++ s) = true).
  rewrite Ascii.eqb_refl, IH. reflexivity.
Qed.

Lemma is_substring_here (p s : string) : is_substring p (p ++ s) = true.
Proof.
  destruct (p ++ s)%string eqn:E; cbn [is_substring]; rewrite <- E, is_prefix_app;
    reflexivity.
Qed.

Lemma is_substring_later (p a s : string) :
  is_substring p s = true -> is_substring p (a ++ s) = true.
Proof.
  intros H. induction a as [|c a IH]; [exact H|].
  change (is_substring p (String c (a ++ s)) = true).
  cbn [is_substring]. rewrite IH. apply orb_true_r.
Qed.

(** Property X25. When [generate_html] returns, the file it wrote is the page,
    which holds the text of [_render_alerts] for the alerts of the metrics and
    the license key as they are: nothing is escaped or redacted. *)
Theorem generate_html_page (output_dir timestamp : string)
    (files files' : gmap string string)
    (license_data consumption_data metrics history : pyval)
    (tls_verified : bool) (zerto_version tool_version path : string) :
  generate_html py_str capitalize joinpath output_dir timestamp files license_data
    consumption_data metrics history tls_verified zerto_version tool_version
  = Ok (files', path) ->
  exists html alerts alerts_html key,
    path = joinpath output_dir "report.html" /\
    files' = <[path := html]> files /\
    py_get metrics "alerts" (PList []) = Ok alerts /\
    _render_alerts py_str capitalize alerts = Ok alerts_html /\
    is_substring alerts_html html = true /\
    py_get license_data "key" (PStr "N/A") = Ok key /\
    is_substring (fstr py_str key) html = true /\
    is_substring timestamp html = true.
Proof.
  unfold generate_html.
  destruct (py_get license_data "entitled_vms" _) as [e|]; [|discriminate].
  cbn [mbind result_bind].
  destruct (py_get consumption_data "protected_vms" _) as [p|]; [|discriminate].
  cbn [mbind result_bind].
  destruct (py_get metrics "utilization_pct" _) as [u|]; [|discriminate].
  cbn [mbind result_bind].
  destruct (format_1f u) as [ut|]; [|discriminate]. cbn [mbind result_bind].
  destruct (py_get metrics "risk_score" _) as [r|]; [|discriminate].
  cbn [mbind result_bind].
  destruct (py_get metrics "alerts" _) as [a|] eqn:Ea; [|discriminate].
  cbn [mbind result_bind].
  destruct (_render_alerts py_str capitalize a) as [ah|] eqn:Eh; [|discriminate].
  cbn [mbind result_bind].
  destruct (py_get license_data "key" _) as [k|] eqn:Ek; [|discriminate].
  cbn [mbind result_bind].
  destruct (py_get license_data "expiration_date" _) as [x|]; [|discriminate].
  cbn [mbind result_bind].
  destruct (py_get license_data "days_to_expiry" _) as [d|]; [|discriminate].
  cbn [mbind result_bind]. intros [= <- <-].
  eexists _, a, ah, k.
  split; [reflexivity|]. split; [reflexivity|]. split; [reflexivity|].
  split; [exact Eh|].
  split; [|split; [reflexivity|split]]; unfold html_page;
    repeat first [apply is_substring_here | apply is_substring_later].
Qed.

End Tables.

Lemma generate_csv_of_models_witness :
  exists files' path,
    generate_csv (fun _ => "rows"%string) example_joinpath "reports"
      "2026-11-03 09:00:00" ∅ (asdict.license ZvmApi.get_license_info)
      (asdict.consumption ZvmApi.get_consumption_info)
      (asdict.metrics
         (Metrics.Build "2026-11-03T09:00:00Z" (F64.lit 824 10) 56 "N/A" 180 []))
    = Ok (files', path) /\
    path = example_joinpath "reports" "licensing_utilization.csv" /\
    files' = <[path := "rows"%string]> ∅.
Proof.
  assert (E : exists r,
            generate_csv (fun _ => "rows"%string) example_joinpath "reports"
              "2026-11-03 09:00:00" ∅ (asdict.license ZvmApi.get_license_info)
              (asdict.consumption ZvmApi.get_consumption_info)
              (asdict.metrics
                 (Metrics.Build "2026-11-03T09:00:00Z" (F64.lit 824 10) 56 "N/A"
                    180 [])) = Ok r)
    by (eexists; reflexivity).
  destruct E as ([files' path] & E).
  exists files', path. split; [exact E|].
  exact (generate_csv_of_models (fun _ => "rows"%string) example_joinpath "reports"
           "2026-11-03 09:00:00" ∅ files' _ _ _ path E).
Defined.

Lemma generate_csv_table_witness :
  exists files' path summary per_site entitled_vms items,
    generate_csv (fun _ => "rows"%string) example_joinpath "reports" "2026-11-03 09:00:00" ∅
      (asdict.license ZvmApi.get_license_info)
      (asdict.consumption ZvmApi.get_consumption_info) (PDict [])
    = Ok (files', path) /\
    path = example_joinpath "reports" "licensing_utilization.csv" /\
    files' = <[path := "rows"%string]> ∅ /\
    py_get (asdict.license ZvmApi.get_license_info) "entitled_vms" (PInt 0)
    = Ok entitled_vms /\
    (item_if_present "sites" (asdict.consumption ZvmApi.get_consumption_info)
     = Ok None /\ items = [] \/
     exists sites,
       item_if_present "sites" (asdict.consumption ZvmApi.get_consumption_info)
       = Ok (Some sites) /\ py_iter sites = Ok items) /\
    length per_site = length items /\
    Forall (fun row => length row = 6%nat) (csv_header :: summary :: per_site) /\
    nth 2 summary PNone = entitled_vms /\
    Forall (site_row_shape entitled_vms "2026-11-03 09:00:00") per_site.
Proof.
  assert (E : exists r,
            generate_csv (fun _ => "rows"%string) example_joinpath "reports"
              "2026-11-03 09:00:00" ∅ (asdict.license ZvmApi.get_license_info)
              (asdict.consumption ZvmApi.get_consumption_info) (PDict []) = Ok r)
    by (eexists; reflexivity).
  destruct E as ([files' path] & E).
  destruct (generate_csv_table (fun _ => "rows"%string) example_joinpath "reports"
              "2026-11-03 09:00:00" ∅ files' _ _ _ path E)
    as (summary & per_site & entitled_vms & items & H).
  exists files', path, summary, per_site, entitled_vms, items.
  split; [exact E | exact H].
Defined.

Lemma generate_html_page_witness :
  exists files' path html alerts alerts_html key,
    generate_html example_str (fun s => s) example_joinpath "reports"
      "2026-11-03 09:00:00" ∅ (asdict.license ZvmApi.get_license_info)
      (asdict.consumption ZvmApi.get_consumption_info) (PDict []) (PDict [])
      true "10.0" "1.0.0" = Ok (files', path) /\
    path = example_joinpath "reports" "report.html" /\
    files' = <[path := html]> ∅ /\
    py_get (PDict []) "alerts" (PList []) = Ok alerts /\
    _render_alerts example_str (fun s => s) alerts = Ok alerts_html /\
    is_substring alerts_html html = true /\
    py_get (asdict.license ZvmApi.get_license_info) "key" (PStr "N/A") = Ok key /\
    is_substring (fstr example_str key) html = true /\
    is_substring "2026-11-03 09:00:00" html = true.
Proof.
  assert (E : exists r,
            generate_html example_str (fun s => s) example_joinpath "reports"
              "2026-11-03 09:00:00" ∅ (asdict.license ZvmApi.get_license_info)
              (asdict.consumption ZvmApi.get_consumption_info) (PDict []) (PDict [])
              true "10.0" "1.0.0" = Ok r)
    by (eexists; reflexivity).
  destruct E as ([files' path] & E).
  destruct (generate_html_page example_str (fun s => s) example_joinpath "reports"
              "2026-11-03 09:00:00" ∅ files' _ _ _ _ true "10.0" "1.0.0" path E)
    as (html & alerts & alerts_html & key & H).
  exists files', path, html, alerts, alerts_html, key.
  split; [exact E | exact H].
Defined.

(** ** zerto/output.py: the three reports together *)

Section Reports.
Variable py_str : pyval -> string.
Variable capitalize : string -> string.
Variable csv_text : list (list pyval) -> string.
Variable json_dumps : pyval -> string.
Variable joinpath : string -> string -> string.




End Reports.


(** ** zerto/models.py and the JSON report *)

(** Property X27. The JSON report of the dictionaries of an aggregate holds
    its license, consumption, metrics and history as [to_dict] gives them, a
    "meta" entry of its own, and no "api_health" entry, which [to_dict] has. *)
Theorem json_report_of_models (now : string) (self : ZertoData.t)
    (tls_verified : bool) (zerto_version tool_version : string) :
  let data := ZertoData.to_dict self in
  let r := report now (asdict.license (ZertoData.license self))
             (asdict.consumption (ZertoData.consumption self))
             (asdict.metrics (ZertoData.metrics self)) (ZertoData.history self)
             tls_verified zerto_version tool_version in
  Forall (fun key => is_Some (field [key] data) /\ field [key] r = field [key] data)
    ["license"; "consumption"; "metrics"; "history"]%string /\
  field ["meta"; "zvm_url"]%string r = Some (PStr "[REDACTED]") /\
  field ["api_health"]%string data = Some (ZertoData.api_health self) /\
  field ["api_health"]%string r = None /\
  field ["license"; "key"]%string r = Some (PStr (License.key (ZertoData.license self))) /\
  field ["consumption"; "sites"]%string r
  = Some (PList (map asdict.site (Consumption.sites (ZertoData.consumption self)))).
Proof.
  cbv zeta. split; [|repeat split; reflexivity].
  repeat (apply List.Forall_cons; [split; [eexists; reflexivity | reflexivity]|]).
  apply List.Forall_nil.
Qed.

(** ** zerto/auth.py *)

Section Authentication.
Variable py_str : pyval -> string.
Variables post_data post_json : Auth.requests_post.

Lemma item_if_present_some key data token :
  item_if_present key data = Ok (Some token) ->
  exists r, data = PDict r /\ dict_lookup key r = Some token.
Proof.
  destruct data as [|b|z|x|s|l|r]; cbn [item_if_present]; try discriminate.
  - destruct (is_substring key s); discriminate.
  - destruct (existsb (eq_str key) l); discriminate.
  - intros [= H]. eauto.
Qed.

Lemma token_of_inv field missing failed response token :
  Auth.token_of field missing failed response = Auth.Token token ->
  exists r, response = Auth.Json (PDict r) /\ dict_lookup field r = Some token.
Proof.
  unfold Auth.token_of. destruct response as [data|msg|e]; try discriminate.
  unfold Auth.try_. destruct (item_if_present field data) as [[t|]|e] eqn:E;
    try discriminate.
  intros [= <-]. destruct (item_if_present_some _ _ _ E) as (r & -> & Hr). eauto.
Qed.

(** Property X28. On a configuration that passes validation the factory never
    fails on the version: it is the OIDC flow for "10.x" and the legacy flow
    for "pre-10". *)
Theorem authenticate_dispatch (py_str' : pyval -> string) (config : pyval)
    (verify_tls : bool) (timeout : Z) :
  _validate py_str' config = Ok tt ->
  (get config "auth.version" PNone = PStr "10.x" /\
   Auth.authenticate py_str post_data post_json config verify_tls timeout
   = Auth.Auth10x.authenticate py_str post_data config verify_tls timeout) \/
  (get config "auth.version" PNone = PStr "pre-10" /\
   Auth.authenticate py_str post_data post_json config verify_tls timeout
   = Auth.AuthLegacy.authenticate py_str post_json config verify_tls timeout).
Proof.
  intros H.
  destruct (validate_inv py_str' config H) as (d & a & version & -> & Hd & _ & Ha & Hv & Hver).
  assert (E : get (PDict d) "auth.version" PNone = PStr version).
  { unfold get. destruct d; [contradiction|]. cbn [truthy negb].
    change (str_split "." "auth.version") with ["auth"; "version"]%string.
    cbn [get_loop]. rewrite Ha. cbn [default from_option id get_loop].
    rewrite Hv. reflexivity. }
  unfold Auth.authenticate. cbn [py_get Auth.try_]. rewrite Ha.
  cbn [default from_option id py_get Auth.try_]. rewrite Hv.
  cbn [default from_option id]. rewrite E.
  destruct Hver as [-> | ->]; [left | right]; split; reflexivity.
Qed.

(** Property X29. Without a client id or a client secret (missing, null or
    empty) the OIDC flow fails with a [ValueError] whatever the server would
    answer, and so does the legacy flow without a user name or a password. *)
Theorem authenticate_needs_credentials (d a : list (pyval * pyval))
    (verify_tls : bool) (timeout : Z) :
  dict_lookup "auth" d = Some (PDict a) ->
  (truthy (default PNone (dict_lookup "client_id" a)) = false \/
   truthy (default PNone (dict_lookup "client_secret" a)) = false ->
   Auth.Auth10x.authenticate py_str post_data (PDict d) verify_tls timeout
   = Auth.Fail (Auth.Builtin
       (ValueError "Keycloak auth requires client_id and client_secret"))) /\
  (truthy (default PNone (dict_lookup "username" a)) = false \/
   truthy (default PNone (dict_lookup "password" a)) = false ->
   Auth.AuthLegacy.authenticate py_str post_json (PDict d) verify_tls timeout
   = Auth.Fail (Auth.Builtin
       (ValueError "Legacy auth requires username and password"))).
Proof.
  intros Ha. split; intros H;
    [unfold Auth.Auth10x.authenticate | unfold Auth.AuthLegacy.authenticate];
    cbn [py_get Auth.try_]; rewrite Ha; cbn [default from_option id py_get Auth.try_];
    destruct H as [-> | ->]; rewrite ?orb_true_r; reflexivity.
Qed.

(** Property X30. A token that [authenticate] returns is the "access_token"
    (OIDC) or the "sessionId" (legacy) of a JSON object that the server sent
    in answer to a request with the credentials of the configuration, both of
    them non-empty, to the URL of the manager, with the TLS flag and the
    timeout as given. *)
Theorem authenticate_token (config : pyval) (verify_tls : bool) (timeout : Z)
    (token : pyval) :
  Auth.authenticate py_str post_data post_json config verify_tls timeout
  = Auth.Token token ->
  exists d a r,
    config = PDict d /\
    dict_lookup "auth" d = Some (PDict a) /\
    let zvm_url := default PNone (dict_lookup "zvm_url" d) in
    let field key := default PNone (dict_lookup key a) in
    (field "version" = PStr "10.x" /\
     truthy (field "client_id") = true /\ truthy (field "client_secret") = true /\
     post_data
       (fstr py_str zvm_url ++ "/auth/realms/zerto/protocol/openid-connect/token")
       (py_dict [ ("grant_type", PStr "client_credentials");
                  ("client_id", field "client_id");
                  ("client_secret", field "client_secret");
                  ("scope", PStr "openid") ])
       verify_tls timeout = Auth.Json (PDict r) /\
     dict_lookup "access_token" r = Some token)%string \/
    (field "version" = PStr "pre-10" /\
     truthy (field "username") = true /\ truthy (field "password") = true /\
     post_json (fstr py_str zvm_url ++ "/v1/auth/login")
       (py_dict [ ("username", field "username");
                  ("password", field "password") ])
       verify_tls timeout = Auth.Json (PDict r) /\
     dict_lookup "sessionId" r = Some token)%string.
Proof.
  unfold Auth.authenticate.
  destruct config as [|b|z|x|s|l|d]; try discriminate.
  cbn [py_get Auth.try_].
  destruct (dict_lookup "auth" d) as [auth|] eqn:Ha; cbn [default from_option id].
  2:{ cbn [py_get Auth.try_ dict_lookup default from_option id eq_str]. discriminate. }
  destruct auth as [|b|z|x|s|l|a]; try discriminate.
  cbn [py_get Auth.try_].
  destruct (eq_str "10.x" (default PNone (dict_lookup "version" a))) eqn:E1.
  - apply eq_str_inv in E1.
    unfold Auth.Auth10x.authenticate. cbn [py_get Auth.try_]. rewrite Ha.
    cbn [default from_option id py_get Auth.try_].
    destruct (truthy (default PNone (dict_lookup "client_id" a))) eqn:T1;
      [|discriminate].
    destruct (truthy (default PNone (dict_lookup "client_secret" a))) eqn:T2;
      [|discriminate].
    cbn [negb orb]. intros H. apply token_of_inv in H. destruct H as (r & Hr & Ht).
    exists d, a, r. split; [reflexivity|]. split; [exact Ha|]. cbv zeta.
    left. rewrite T1, T2. auto.
  - destruct (eq_str "pre-10" (default PNone (dict_lookup "version" a))) eqn:E2;
      [|discriminate].
    apply eq_str_inv in E2.
    unfold Auth.AuthLegacy.authenticate. cbn [py_get Auth.try_]. rewrite Ha.
    cbn [default from_option id py_get Auth.try_].
    destruct (truthy (default PNone (dict_lookup "username" a))) eqn:T1;
      [|discriminate].
    destruct (truthy (default PNone (dict_lookup "password" a))) eqn:T2;
      [|discriminate].
    cbn [negb orb]. intros H. apply token_of_inv in H. destruct H as (r & Hr & Ht).
    exists d, a, r. split; [reflexivity|]. split; [exact Ha|]. cbv zeta.
    right. rewrite T1, T2. auto.
Qed.

End Authentication.

(** A server that is down, and one that answers with a token. *)
Lemma authenticate_dispatch_witness :
  let down : Auth.requests_post := fun _ _ _ _ => Auth.RequestException "down" in
  (get example_config "auth.version" PNone = PStr "10.x" /\
   Auth.authenticate example_str down down example_config true 60
   = Auth.Auth10x.authenticate example_str down example_config true 60) \/
  (get example_config "auth.version" PNone = PStr "pre-10" /\
   Auth.authenticate example_str down down example_config true 60
   = Auth.AuthLegacy.authenticate example_str down example_config true 60).
Proof.
  cbv zeta.
  apply (authenticate_dispatch example_str _ _ example_str example_config true 60).
  reflexivity.
Defined.

Lemma authenticate_needs_credentials_witness :
  let down : Auth.requests_post := fun _ _ _ _ => Auth.RequestException "down" in
  let config := py_dict [ ("auth", py_dict [ ("client_id", PStr "") ]) ]%string in
  Auth.Auth10x.authenticate example_str down config true 60
  = Auth.Fail (Auth.Builtin
      (ValueError "Keycloak auth requires client_id and client_secret")).
Proof.
  cbv zeta.
  apply (proj1 (authenticate_needs_credentials example_str
                  (fun _ _ _ _ => Auth.RequestException "down")
                  (fun _ _ _ _ => Auth.RequestException "down")
                  [(PStr "auth", py_dict [ ("client_id", PStr "") ]%string)]
                  [(PStr "client_id", PStr "")]%string true 60 eq_refl)).
  left. reflexivity.
Defined.

Lemma authenticate_token_witness :
  let answer : Auth.requests_post :=
    fun _ _ _ _ => Auth.Json (py_dict [ ("access_token", PStr "t0k3n") ]%string) in
  exists d a r,
    example_config = PDict d /\
    dict_lookup "auth" d = Some (PDict a) /\
    let zvm_url := default PNone (dict_lookup "zvm_url" d) in
    let field key := default PNone (dict_lookup key a) in
    (field "version" = PStr "10.x" /\
     truthy (field "client_id") = true /\ truthy (field "client_secret") = true /\
     answer
       (fstr example_str zvm_url ++ "/auth/realms/zerto/protocol/openid-connect/token")
       (py_dict [ ("grant_type", PStr "client_credentials");
                  ("client_id", field "client_id");
                  ("client_secret", field "client_secret");
                  ("scope", PStr "openid") ])
       true 60 = Auth.Json (PDict r) /\
     dict_lookup "access_token" r = Some (PStr "t0k3n"))%string \/
    (field "version" = PStr "pre-10" /\
     truthy (field "username") = true /\ truthy (field "password") = true /\
     answer (fstr example_str zvm_url ++ "/v1/auth/login")
       (py_dict [ ("username", field "username");
                  ("password", field "password") ])
       true 60 = Auth.Json (PDict r) /\
     dict_lookup "sessionId" r = Some (PStr "t0k3n"))%string.
Proof.
  cbv zeta.
  apply (authenticate_token example_str _ _ example_config true 60 (PStr "t0k3n")).
  reflexivity.
Defined.
